(** * Table-aware splitting of banking documents

    A shallow embedding of [table_aware_splitter.py], of the document
    loader of [banking_document_loader.py] and of the pure functions of
    [banking_rag.py], with the properties of the splitting pipeline
    proved over it. The generic text splitter of the library, which the
    class delegates to, is embedded in [LangChain].

    Python [str] values are lists of characters ([list ascii]; code points
    above 255 are outside the model), Python [int]s are [Z], a metadata
    [dict] is a record with one optional field per key the code reads or
    writes, and the [dict]s used as maps are [gmap]s. *)

From Stdlib Require Import Ascii String ZArith QArith Lia DecimalString DecimalZ.
From stdpp Require Import base option list gmap strings.

Local Open Scope Z_scope.
Local Open Scope list_scope.

Abbreviation str := (list ascii).

(** A string literal as a Python [str]. *)
Definition lit (s : string) : str := list_ascii_of_string s.

Definition len (s : str) : Z := Z.of_nat (length s).

(** ** Python string operations used by the code *)

Module PyStr.

Definition newline : ascii := ascii_of_nat 10.

Definition eqb_char (a b : ascii) : bool := Ascii.eqb a b.

(** [s.startswith(p)] *)
Fixpoint startswith (p s : str) : bool :=
  match p, s with
  | [], _ => true
  | a :: p', b :: s' => eqb_char a b && startswith p' s'
  | _ :: _, [] => false
  end.

(** [sub in s] *)
Fixpoint contains (sub s : str) : bool :=
  startswith sub s ||
  match s with
  | [] => false
  | _ :: s' => contains sub s'
  end.

(** [s.split(sep)] for a one-character separator: never the empty list. *)
Fixpoint split (sep : ascii) (s : str) : list str :=
  match s with
  | [] => [[]]
  | c :: s' =>
      if eqb_char c sep then [] :: split sep s'
      else match split sep s' with
           | l :: ls => (c :: l) :: ls
           | [] => [[c]]
           end
  end.

(** [sep.join(ls)] *)
Fixpoint join (sep : str) (ls : list str) : str :=
  match ls with
  | [] => []
  | l :: ls' =>
      match ls' with
      | [] => l
      | _ :: _ => l ++ sep ++ join sep ls'
      end
  end.

(** [c.isspace()] on the code points below 256. *)
Definition isspace (c : ascii) : bool :=
  let n := nat_of_ascii c in
  ((9 <=? n) && (n <=? 13) || (28 <=? n) && (n <=? 32) ||
   (n =? 133) || (n =? 160))%nat.

Fixpoint lstrip (s : str) : str :=
  match s with
  | c :: s' => if isspace c then lstrip s' else s
  | [] => []
  end.

Definition rstrip (s : str) : str := rev (lstrip (rev s)).

(** [s.strip()] *)
Definition strip (s : str) : str := rstrip (lstrip s).

(** [s[a:b]] for non-negative indices (Python clamps at the end). *)
Definition slice (s : str) (a b : nat) : str := take (b - a) (drop a s).

(** [s[a:]] *)
Definition slice_from (s : str) (a : nat) : str := drop a s.

(** [s.replace(c, "")] for a one-character [c]. *)
Definition remove_char (c : ascii) (s : str) : str :=
  filter (fun x => eqb_char x c = false) s.

(** [str(n)] for an [int]. *)
Definition of_int (z : Z) : str := lit (NilZero.string_of_int (Z.to_int z)).

End PyStr.

(** ** Documents and their metadata *)

Inductive chunk_kind := KText | KTable | KTablePart.

Global Instance chunk_kind_eq_dec : EqDecision chunk_kind.
Proof. solve_decision. Defined.

(** One entry of the [cross_refs] list (a [dict] with these three keys). *)
Record CrossRef := mkCrossRef {
  referenced_table : str;
  cr_table_title : str;
  reference_text : str
}.

(** The [numerical_data] dict: a key is present only when its list is not
    empty. [float] values are kept as the exact rational the decimal
    literal denotes. *)
Record NumericalData := mkNumericalData {
  rates : option (list Q);
  dollar_amounts : option (list Q);
  terms : option (list Z)
}.

(** The value under the key [part]: Python's [None] or an [int]. *)
Inductive part_value := PartNone | PartNumber (n : Z).

(** [Document.metadata]. Each field is a key of the dict ([None]: the key
    is absent); [extra] holds the keys the splitter never looks at. The
    two values stored as JSON text ([cross_references], [numerical_data])
    are kept as the data that is serialised. The key [part] can be
    present with the value [None]: that is [Some PartNone]. *)
Record Metadata := mkMetadata {
  chunk_type : option chunk_kind;
  table_id : option str;
  table_title : option str;
  context : option str;
  part : option part_value;
  cross_references : option (list CrossRef);
  numerical_data : option NumericalData;
  extra : gmap str str
}.

Record Document := mkDocument {
  page_content : str;
  metadata : Metadata
}.

Definition empty_metadata : Metadata :=
  mkMetadata None None None None None None None ∅.

(** A section of the partitioned text (the dicts built by
    [_split_around_tables]). *)
Inductive section_type := SText | STable.

Record SectionD := mkSection {
  s_type : section_type;
  s_content : str;
  s_table_id : option str;
  s_table_title : option str;
  s_context : str
}.

(** A table found by [_extract_tables]. *)
Record TableD := mkTable {
  t_id : str;
  t_title : str;
  t_content : str;
  t_start : nat;
  t_end : nat
}.

(** Python truthiness of an optional string value. *)
Definition truthy (o : option str) : bool :=
  match o with
  | Some (_ :: _) => true
  | _ => false
  end.

(** ** The splitter object *)

(** The generic splitter the class delegates to comes from a library;
    only the function it computes on one text matters here. *)
Record TableAwareTextSplitter := mkSplitter {
  chunk_size : Z;
  chunk_overlap : Z;
  preserve_table_context : bool;
  base_splitter : str -> list str
}.

(** [__init__]: stores the three arguments and builds the base splitter
    from [chunk_size] and [chunk_overlap]; whatever the construction of
    the base splitter raises is what [__init__] raises. *)
Definition __init__ (RecursiveCharacterTextSplitter : Z -> Z -> option (str -> list str))
    (chunk_size chunk_overlap : Z) (preserve_table_context : bool)
    : option TableAwareTextSplitter :=
  match RecursiveCharacterTextSplitter chunk_size chunk_overlap with
  | Some base => Some (mkSplitter chunk_size chunk_overlap preserve_table_context base)
  | None => None
  end.

(** The constructor of the library class, which is not part of this
    code base: its argument check refuses a [chunk_overlap] larger than
    [chunk_size] (a [ValueError]) and lets every other pair through. The
    splitting algorithm itself is the parameter [split_text]. *)
Definition RecursiveCharacterTextSplitter (split_text : Z -> Z -> str -> list str)
    (chunk_size chunk_overlap : Z) : option (str -> list str) :=
  if chunk_overlap >? chunk_size then None
  else Some (split_text chunk_size chunk_overlap).

(** ** Table sections *)

Section TableChunker.

Variable self : TableAwareTextSplitter.

(** The classification loop of [_split_large_table]: one step per line,
    on the state (header_lines, data_lines, in_header). *)
Definition classify_step (st : list str * list str * bool) (line : str)
    : list str * list str * bool :=
  let '(header_lines, data_lines, in_header) := st in
  if PyStr.startswith (lit "###") line then
    (header_lines ++ [line], data_lines, in_header)
  else if PyStr.startswith (lit "|") line && PyStr.contains (lit "---") line then
    (header_lines ++ [line], data_lines, false)
  else if PyStr.startswith (lit "|") line && in_header then
    (header_lines ++ [line], data_lines, in_header)
  else if PyStr.startswith (lit "|") line then
    (header_lines, data_lines ++ [line], in_header)
  else if in_header then
    (header_lines ++ [line], data_lines, in_header)
  else
    (header_lines, data_lines ++ [line], in_header).

Definition classify (lines : list str) : list str * list str * bool :=
  fold_left classify_step lines ([], [], true).

Definition header_lines_of (content : str) : list str :=
  (classify (PyStr.split PyStr.newline content)).1.1.

Definition data_lines_of (content : str) : list str :=
  (classify (PyStr.split PyStr.newline content)).1.2.

Definition header_text_of (content : str) : str :=
  PyStr.join [PyStr.newline] (header_lines_of content).

(** The context of the [n]-th part. *)
Definition part_label (section : SectionD) (n : Z) : str :=
  s_context section ++ lit " (Part " ++ PyStr.of_int n ++ lit ")".

(** The metadata of a part: a copy of the base metadata updated with
    the four keys. *)
Definition part_metadata (section : SectionD) (base_metadata : Metadata)
    (n : Z) : Metadata :=
  mkMetadata (Some KTablePart) (s_table_id section) (s_table_title section)
    (Some (part_label section n))
    (part base_metadata) (cross_references base_metadata)
    (numerical_data base_metadata) (extra base_metadata).

Definition part_document (section : SectionD) (base_metadata : Metadata)
    (header_text : str) (chunks : list Document) (current_chunk_lines : list str)
    : Document :=
  mkDocument
    (header_text ++ [PyStr.newline] ++ PyStr.join [PyStr.newline] current_chunk_lines)
    (part_metadata section base_metadata (Z.of_nat (length chunks) + 1)).

Definition is_nil {A} (l : list A) : bool :=
  match l with [] => true | _ => false end.

(** The row loop: state (chunks, current_chunk_lines, current_size). *)
Definition row_step (section : SectionD) (base_metadata : Metadata)
    (header_text : str) (st : list Document * list str * Z) (line : str)
    : list Document * list str * Z :=
  let '(chunks, current_chunk_lines, current_size) := st in
  let line_size := len line + 1 in
  let '(chunks, current_chunk_lines, current_size) :=
    if (current_size + line_size >? chunk_size self) && negb (is_nil current_chunk_lines)
    then (chunks ++ [part_document section base_metadata header_text chunks current_chunk_lines],
          [], len header_text)
    else (chunks, current_chunk_lines, current_size) in
  (chunks, current_chunk_lines ++ [line], current_size + line_size).

Definition _split_large_table (section : SectionD) (base_metadata : Metadata)
    : list Document :=
  let content := s_content section in
  let header_text := header_text_of content in
  let '(chunks, current_chunk_lines, _) :=
    fold_left (row_step section base_metadata header_text)
      (data_lines_of content) ([], [], len header_text) in
  if negb (is_nil current_chunk_lines)
  then chunks ++ [part_document section base_metadata header_text chunks current_chunk_lines]
  else chunks.

Definition _process_table_section (section : SectionD) (base_metadata : Metadata)
    : list Document :=
  let table_content := s_content section in
  if len table_content <=? chunk_size self then
    [mkDocument table_content
       (mkMetadata (Some KTable) (s_table_id section) (s_table_title section)
          (Some (s_context section))
          (part base_metadata) (cross_references base_metadata)
          (numerical_data base_metadata) (extra base_metadata))]
  else _split_large_table section base_metadata.

(** ** Text sections *)

(** The enumeration of [_process_text_section], from index [i]. *)
Fixpoint text_documents (section : SectionD) (base_metadata : Metadata)
    (n : nat) (i : Z) (texts : list str) : list Document :=
  match texts with
  | [] => []
  | t :: texts' =>
      mkDocument t
        (mkMetadata (Some KText) (table_id base_metadata) (table_title base_metadata)
           (Some (s_context section))
           (Some (if (1 <? n)%nat then PartNumber (i + 1) else PartNone))
           (cross_references base_metadata)
           (numerical_data base_metadata) (extra base_metadata))
      :: text_documents section base_metadata n (i + 1) texts'
  end.

Definition _process_text_section (section : SectionD) (base_metadata : Metadata)
    : list Document :=
  let text_chunks := base_splitter self (s_content section) in
  text_documents section base_metadata (length text_chunks) 0 text_chunks.

End TableChunker.

(** ** Regular expressions

    The patterns of the code are terms of [regex]; [rmatch] is the
    backtracking matcher of Python's [re]: alternatives are tried left to
    right, a greedy repetition tries one more iteration before it tries
    to stop, a lazy one the other way round, and the first complete match
    found in that order is the match. *)

Module Re.

Inductive regex :=
| Chr (p : ascii -> bool)
| Eps
| Seq (r1 r2 : regex)
| Alt (r1 r2 : regex)
| Star (greedy : bool) (r : regex).

Section Matcher.

Context {A : Type}.

(** The loop of a repetition. An iteration that consumes nothing is not
    repeated; [fuel] is the length of the text at the entry of the loop,
    so it never runs out before the text does. *)
Fixpoint star_loop (greedy : bool) (body : str -> (str -> option A) -> option A)
    (k : str -> option A) (fuel : nat) (s : str) : option A :=
  match fuel with
  | O => k s
  | S fuel' =>
      if greedy then
        match body s (fun s' =>
                if (length s' <? length s)%nat then star_loop greedy body k fuel' s'
                else None) with
        | Some v => Some v
        | None => k s
        end
      else
        match k s with
        | Some v => Some v
        | None =>
            body s (fun s' =>
              if (length s' <? length s)%nat then star_loop greedy body k fuel' s'
              else None)
        end
  end.

(** [rmatch r s k]: match [r] at the start of [s], then continue with
    [k] on what is left; [None] when every way of matching fails. *)
Fixpoint rmatch (r : regex) (s : str) (k : str -> option A) : option A :=
  match r with
  | Chr p =>
      match s with
      | c :: s' => if p c then k s' else None
      | [] => None
      end
  | Eps => k s
  | Seq r1 r2 => rmatch r1 s (fun s' => rmatch r2 s' k)
  | Alt r1 r2 =>
      match rmatch r1 s k with
      | Some v => Some v
      | None => rmatch r2 s k
      end
  | Star greedy r1 => star_loop greedy (rmatch r1) k (length s) s
  end.

End Matcher.

(** *** Pattern syntax *)

Definition is_digit (c : ascii) : bool :=
  let n := nat_of_ascii c in ((48 <=? n) && (n <=? 57))%nat.

Definition is_upper (c : ascii) : bool :=
  let n := nat_of_ascii c in ((65 <=? n) && (n <=? 90))%nat.

Definition is_lower (c : ascii) : bool :=
  let n := nat_of_ascii c in ((97 <=? n) && (n <=? 122))%nat.

Definition to_lower (c : ascii) : ascii :=
  if is_upper c then ascii_of_nat (nat_of_ascii c + 32) else c.

(** A literal character, and the same under [re.IGNORECASE]. *)
Definition chr (c : ascii) : regex := Chr (PyStr.eqb_char c).
Definition chr_i (c : ascii) : regex :=
  Chr (fun x => PyStr.eqb_char (to_lower x) (to_lower c)).

Fixpoint seq_of (f : ascii -> regex) (s : str) : regex :=
  match s with
  | [] => Eps
  | [c] => f c
  | c :: s' => Seq (f c) (seq_of f s')
  end.

(** A literal string, and the same under [re.IGNORECASE]. *)
Definition text (s : string) : regex := seq_of chr (lit s).
Definition text_i (s : string) : regex := seq_of chr_i (lit s).

(** [\d], [\s], [[A-Z]], [[A-Z]] under [re.IGNORECASE], [.] and [.] under
    [re.DOTALL]. *)
Definition digit : regex := Chr is_digit.
Definition space : regex := Chr PyStr.isspace.
Definition upper : regex := Chr is_upper.
Definition upper_i : regex := Chr (fun c => is_upper c || is_lower c).
Definition dot : regex := Chr (fun c => negb (PyStr.eqb_char c PyStr.newline)).
Definition dot_all : regex := Chr (fun _ => true).

(** [r?], [r+], [r*], [r*?], [r{n}] and [r{1,3}]. *)
Definition opt (r : regex) : regex := Alt r Eps.
Definition plus (r : regex) : regex := Seq r (Star true r).
Definition star (r : regex) : regex := Star true r.
Definition star_lazy (r : regex) : regex := Star false r.
Fixpoint times (n : nat) (r : regex) : regex :=
  match n with
  | O => Eps
  | 1%nat => r
  | S n' => Seq r (times n' r)
  end.
Definition one_to_three (r : regex) : regex := Seq r (opt (Seq r (opt r))).

(** A pattern with one capturing group: what precedes the group, the
    group, what follows it. *)
Record pattern := mkPattern {
  before_group : regex;
  group : regex;
  after_group : regex
}.

(** A match: its span in the searched text and the text of group 1. *)
Record rmatch_result := mkMatch {
  m_start : nat;
  m_end : nat;
  m_group1 : str
}.

(** Matching a pattern at the start of [s]: the numbers of characters
    before the group, up to the end of the group and up to the end of the
    match. *)
Definition match_at (p : pattern) (s : str) : option (nat * nat * nat) :=
  rmatch (before_group p) s (fun s1 =>
    rmatch (group p) s1 (fun s2 =>
      rmatch (after_group p) s2 (fun s3 =>
        Some (length s - length s1, length s - length s2, length s - length s3)%nat))).

Definition result_at (pos : nat) (s : str) (m : nat * nat * nat) : rmatch_result :=
  let '(a, b, e) := m in
  mkMatch pos (pos + e) (PyStr.slice s a b).

(** [re.search]: the match at the leftmost position that has one. *)
Fixpoint search_from (p : pattern) (pos : nat) (s : str) : option rmatch_result :=
  match match_at p s with
  | Some m => Some (result_at pos s m)
  | None =>
      match s with
      | [] => None
      | _ :: s' => search_from p (S pos) s'
      end
  end.

Definition search (p : pattern) (s : str) : option rmatch_result :=
  search_from p 0 s.

(** [finditer]: the scan resumes where the last match ended ([skip]
    counts the characters of that match still to pass); after an empty
    match it moves one character on (no pattern of the code matches the
    empty string). *)
Fixpoint scan (p : pattern) (skip pos : nat) (s : str) : list rmatch_result :=
  match skip with
  | S skip' =>
      match s with
      | [] => []
      | _ :: s' => scan p skip' (S pos) s'
      end
  | O =>
      match match_at p s with
      | Some m =>
          result_at pos s m ::
          match s with
          | [] => []
          | _ :: s' => scan p (Nat.pred m.2) (S pos) s'
          end
      | None =>
          match s with
          | [] => []
          | _ :: s' => scan p 0 (S pos) s'
          end
      end
  end.

Definition finditer (p : pattern) (s : str) : list rmatch_result :=
  scan p 0 0 s.

(** [re.findall] for a pattern with one group: the texts of the group. *)
Definition findall (p : pattern) (s : str) : list str :=
  map m_group1 (finditer p s).

End Re.

(** ** The patterns of the code *)

Module Patterns.
Import Re.

Fixpoint cat (rs : list regex) : regex :=
  match rs with
  | [] => Eps
  | [r] => r
  | r :: rs' => Seq r (cat rs')
  end.

(** [[A-Z]?\d+\.\d+] *)
Definition table_number : regex :=
  cat [opt upper; plus digit; chr "."; plus digit].

(** The same under [re.IGNORECASE]. *)
Definition table_number_i : regex :=
  cat [opt upper_i; plus digit; chr "."; plus digit].

(** [\|.*?\|.*?\n] under [re.DOTALL] *)
Definition table_row : regex :=
  cat [chr "|"; star_lazy dot_all; chr "|"; star_lazy dot_all; chr PyStr.newline].

(** [(### Table [A-Z]?\d+\.\d+:.*?\n(?:\|.*?\|.*?\n)+)],
    [re.MULTILINE | re.DOTALL] *)
Definition table_pattern : pattern :=
  mkPattern Eps
    (cat [text "### Table "; table_number; chr ":"; star_lazy dot_all;
          chr PyStr.newline; plus table_row])
    Eps.

(** [(see Table [A-Z]?\d+\.\d+|refer to Table [A-Z]?\d+\.\d+|Table [A-Z]?\d+\.\d+)],
    [re.IGNORECASE] *)
Definition cross_ref_pattern : pattern :=
  mkPattern Eps
    (Alt (cat [text_i "see Table "; table_number_i])
       (Alt (cat [text_i "refer to Table "; table_number_i])
          (cat [text_i "Table "; table_number_i])))
    Eps.

(** [Table ([A-Z]?\d+\.\d+)] *)
Definition table_id_pattern : pattern :=
  mkPattern (text "Table ") table_number Eps.

(** [### Table [A-Z]?\d+\.\d+: (.*?)\n] *)
Definition title_pattern : pattern :=
  mkPattern (cat [text "### Table "; table_number; text ": "])
    (star_lazy dot) (chr PyStr.newline).

(** The group [\d+\.?\d*] followed by [\s*%] *)
Definition rate_pattern : pattern :=
  mkPattern Eps (cat [plus digit; opt (chr "."); star digit])
    (cat [star space; chr "%"]).

(** [\$(\d{1,3}(?:,\d{3})*(?:\.\d{2})?)] *)
Definition dollar_pattern : pattern :=
  mkPattern (chr "$")
    (cat [one_to_three digit; star (cat [chr ","; times 3 digit]);
          opt (cat [chr "."; times 2 digit])])
    Eps.

(** [(\d+)\s*(?:month|year)s?], [re.IGNORECASE] *)
Definition term_pattern : pattern :=
  mkPattern Eps (plus digit)
    (cat [star space; Alt (text_i "month") (text_i "year"); opt (chr_i "s")]).

End Patterns.

(** ** Partitioning a document around its tables *)

Definition or_default (d : str) (o : option Re.rmatch_result) : str :=
  match o with
  | Some m => Re.m_group1 m
  | None => d
  end.

Definition _extract_tables (text : str) : list TableD :=
  map (fun m =>
         let table_content := Re.m_group1 m in
         let table_id :=
           or_default (lit "Unknown") (Re.search Patterns.table_id_pattern table_content) in
         let title :=
           or_default (lit "Untitled Table") (Re.search Patterns.title_pattern table_content) in
         mkTable table_id title table_content (Re.m_start m) (Re.m_end m))
      (Re.finditer Patterns.table_pattern text).

(** The loop of [_split_around_tables]: state (sections, last_end). *)
Definition around_step (text : str) (st : list SectionD * nat) (table : TableD)
    : list SectionD * nat :=
  let '(sections, last_end) := st in
  let sections :=
    if (last_end <? t_start table)%nat then
      let pre_table_text := PyStr.strip (PyStr.slice text last_end (t_start table)) in
      if negb (is_nil pre_table_text) then
        sections ++ [mkSection SText pre_table_text None None
                       (lit "Text before " ++ t_id table)]
      else sections
    else sections in
  (sections ++ [mkSection STable (t_content table) (Some (t_id table))
                  (Some (t_title table))
                  (lit "Table " ++ t_id table ++ lit ": " ++ t_title table)],
   t_end table).

Definition _split_around_tables (text : str) (tables : list TableD) : list SectionD :=
  let '(sections, last_end) := fold_left (around_step text) tables ([], 0%nat) in
  if (last_end <? length text)%nat then
    let remaining_text := PyStr.strip (PyStr.slice_from text last_end) in
    if negb (is_nil remaining_text) then
      sections ++ [mkSection SText remaining_text None None (lit "Text after tables")]
    else sections
  else sections.

(** ** Cross-references *)

Definition is_table_kind (k : option chunk_kind) : bool :=
  match k with
  | Some KTable | Some KTablePart => true
  | _ => false
  end.

(** The first loop of [_enhance_with_cross_references]. *)
Definition table_map_step (table_map : gmap str str) (chunk : Document) : gmap str str :=
  let md := metadata chunk in
  if is_table_kind (chunk_type md) then
    match table_id md with
    | Some tid =>
        if truthy (Some tid)
        then <[tid := default (lit "Unknown Table") (table_title md)]> table_map
        else table_map
    | None => table_map
    end
  else table_map.

Definition build_table_map (chunks : list Document) : gmap str str :=
  fold_left table_map_step chunks ∅.

(** The body of the inner loop: what one match appends to [cross_refs]. *)
Definition cross_ref_of_match (table_map : gmap str str) (m : Re.rmatch_result)
    : list CrossRef :=
  let ref_text := Re.m_group1 m in
  match Re.search Patterns.table_id_pattern ref_text with
  | Some table_id_match =>
      let table_id := Re.m_group1 table_id_match in
      match table_map !! table_id with
      | Some title => [mkCrossRef table_id title ref_text]
      | None => []
      end
  | None => []
  end.

Definition cross_refs_of (table_map : gmap str str) (content : str) : list CrossRef :=
  flat_map (cross_ref_of_match table_map) (Re.finditer Patterns.cross_ref_pattern content).

Definition set_cross_references (md : Metadata) (refs : list CrossRef) : Metadata :=
  mkMetadata (chunk_type md) (table_id md) (table_title md) (context md) (part md)
    (Some refs) (numerical_data md) (extra md).

Definition annotate (table_map : gmap str str) (chunk : Document) : Document :=
  let cross_refs := cross_refs_of table_map (page_content chunk) in
  if negb (is_nil cross_refs)
  then mkDocument (page_content chunk) (set_cross_references (metadata chunk) cross_refs)
  else chunk.

Definition _enhance_with_cross_references (chunks : list Document) : list Document :=
  let table_map := build_table_map chunks in
  map (annotate table_map) chunks.

(** ** Splitting a document *)

Definition process_section (self : TableAwareTextSplitter) (metadata : Metadata)
    (section : SectionD) : list Document :=
  match s_type section with
  | STable => _process_table_section self section metadata
  | SText => _process_text_section self section metadata
  end.

Definition _split_single_document (self : TableAwareTextSplitter) (document : Document)
    : list Document :=
  let text := page_content document in
  let metadata := metadata document in
  let tables := _extract_tables text in
  let sections := _split_around_tables text tables in
  let chunks := flat_map (process_section self metadata) sections in
  _enhance_with_cross_references chunks.

Definition split_documents (self : TableAwareTextSplitter) (documents : list Document)
    : list Document :=
  flat_map (_split_single_document self) documents.

(** ** The table summary *)

Record TableInfo := mkTableInfo {
  ti_title : option str;
  ti_parts : Z;
  ti_total_content_length : Z
}.

Record TableSummary := mkTableSummary {
  total_tables : Z;
  tables : gmap str TableInfo;
  cross_references_found : Z
}.

Definition count_part (chunk : Document) (t : TableInfo) : TableInfo :=
  mkTableInfo (ti_title t) (ti_parts t + 1)
    (ti_total_content_length t + len (page_content chunk)).

Definition summary_step (tables : gmap str TableInfo) (chunk : Document)
    : gmap str TableInfo :=
  let md := metadata chunk in
  if is_table_kind (chunk_type md) then
    match table_id md with
    | Some tid =>
        if truthy (Some tid) then
          let tables :=
            match tables !! tid with
            | None => <[tid := mkTableInfo (table_title md) 0 0]> tables
            | Some _ => tables
            end in
          alter (count_part chunk) tid tables
        else tables
    | None => tables
    end
  else tables.

(** [metadata.get('cross_references')] is a JSON text when the key is
    there, and a JSON text is never the empty string: the value is truthy
    exactly when the key is present. *)
Definition has_cross_references (chunk : Document) : bool :=
  match cross_references (metadata chunk) with
  | Some _ => true
  | None => false
  end.

Definition get_table_summary (chunks : list Document) : TableSummary :=
  let tables := fold_left summary_step chunks ∅ in
  mkTableSummary (Z.of_nat (size tables)) tables
    (fold_left (fun acc chunk => if has_cross_references chunk then acc + 1 else acc)
       chunks 0).

(** ** Numeric extraction (the document loader) *)

Module Numeric.

Definition digit_value (c : ascii) : option Z :=
  if Re.is_digit c then Some (Z.of_nat (nat_of_ascii c) - 48) else None.

Fixpoint digits_value (acc : Z) (s : str) : option Z :=
  match s with
  | [] => Some acc
  | c :: s' =>
      match digit_value c with
      | Some d => digits_value (10 * acc + d) s'
      | None => None
      end
  end.

(** The default of [sys.int_max_str_digits]: the largest number of
    digits that [int] converts. *)
Definition int_max_str_digits : Z := 4300.

(** [int(s)] for a string of decimal digits; [None]: [ValueError], for
    the empty string, for a character that is no digit and for more
    digits (leading zeros counted) than [int_max_str_digits]. *)
Definition py_int (s : str) : option Z :=
  match s with
  | [] => None
  | _ :: _ => if len s >? int_max_str_digits then None else digits_value 0 s
  end.

Fixpoint split_at_point (s : str) : str * option str :=
  match s with
  | [] => ([], None)
  | c :: s' =>
      if PyStr.eqb_char c "." then ([], Some s')
      else let '(a, b) := split_at_point s' in (c :: a, b)
  end.

(** [float(s)] for a plain decimal literal (digits, an optional point,
    digits), as the rational the literal denotes; [None]: [ValueError].
    [float] has no limit on the number of digits. *)
Definition py_float (s : str) : option Q :=
  match split_at_point s with
  | (ip, None) =>
      if is_nil ip then None else z ← digits_value 0 ip; Some (inject_Z z)
  | (ip, Some fp) =>
      if is_nil ip && is_nil fp then None
      else
        i ← digits_value 0 ip;
        f ← digits_value 0 fp;
        Some (Qmake (i * 10 ^ Z.of_nat (length fp) + f)
                (Z.to_pos (10 ^ Z.of_nat (length fp))))
  end.

(** A list comprehension whose body may raise. *)
Fixpoint traverse {A B} (f : A -> option B) (l : list A) : option (list B) :=
  match l with
  | [] => Some []
  | x :: l' => y ← f x; ys ← traverse f l'; Some (y :: ys)
  end.

(** One key of [numerical_data]: set only when something was found. *)
Definition key_of {A B} (f : A -> option B) (found : list A) : option (option (list B)) :=
  if is_nil found then Some None
  else vs ← traverse f found; Some (Some vs).

Definition is_empty_dict (d : NumericalData) : bool :=
  match rates d, dollar_amounts d, terms d with
  | None, None, None => true
  | _, _, _ => false
  end.

Definition set_numerical_data (md : Metadata) (d : NumericalData) : Metadata :=
  mkMetadata (chunk_type md) (table_id md) (table_title md) (context md) (part md)
    (cross_references md) (Some d) (extra md).

(** [_extract_numerical_data]: the document after the call, or [None]
    when a conversion raises. *)
Definition _extract_numerical_data (document : Document) : option Document :=
  let content := page_content document in
  r ← key_of py_float (Re.findall Patterns.rate_pattern content);
  d ← key_of (fun amount => py_float (PyStr.remove_char "," amount))
        (Re.findall Patterns.dollar_pattern content);
  t ← key_of py_int (Re.findall Patterns.term_pattern content);
  let numerical_data := mkNumericalData r d t in
  Some (if negb (is_empty_dict numerical_data)
        then mkDocument content (set_numerical_data (metadata document) numerical_data)
        else document).

End Numeric.

(** ** The document loader *)

Module Loader.

(** [c.lower()] on the code points below 256. *)
Definition lower_char (c : ascii) : ascii :=
  let n := nat_of_ascii c in
  if ((65 <=? n) && (n <=? 90) || (192 <=? n) && (n <=? 214)
      || (216 <=? n) && (n <=? 222))%nat
  then ascii_of_nat (n + 32) else c.

(** [s.lower()] *)
Definition lower (s : str) : str := map lower_char s.

(** [s.split(sep)] for a separator of one character or more: the pieces
    between the occurrences of [sep], found from left to right; [skip]
    counts the characters of an occurrence still to pass. *)
Fixpoint split_on (sep : str) (skip : nat) (s : str) : list str :=
  match s with
  | [] => [[]]
  | c :: s' =>
      match skip with
      | S k => split_on sep k s'
      | O =>
          if PyStr.startswith sep s then [] :: split_on sep (length sep - 1) s'
          else match split_on sep 0 s' with
               | l :: ls => (c :: l) :: ls
               | [] => [[c]]
               end
      end
  end.

Definition split_str (sep s : str) : list str := split_on sep 0 s.

(** An entry of [doc_type_mapping]. *)
Record DocTypeInfo := mkDocTypeInfo {
  dt_type : str;
  dt_contains : list str;
  dt_priority : str
}.

(** The dict [doc_type_mapping], in the order of its keys. *)
Definition doc_type_mapping : list (str * DocTypeInfo) :=
  [(lit "loan_handbook",
    mkDocTypeInfo (lit "loan_products")
      [lit "rates"; lit "terms"; lit "amortization"] (lit "high"));
   (lit "regulatory_manual",
    mkDocTypeInfo (lit "compliance")
      [lit "regulations"; lit "requirements"; lit "procedures"] (lit "critical"));
   (lit "rate_sheet",
    mkDocTypeInfo (lit "current_rates")
      [lit "rates"; lit "pricing"; lit "fees"] (lit "high"));
   (lit "policy",
    mkDocTypeInfo (lit "internal_policy")
      [lit "procedures"; lit "guidelines"; lit "standards"] (lit "medium"))].

Definition general_banking : DocTypeInfo :=
  mkDocTypeInfo (lit "general_banking") [lit "general"] (lit "low").

(** The loop of [_identify_document_type]. *)
Fixpoint first_key_in (filename_lower : str) (items : list (str * DocTypeInfo))
    : option DocTypeInfo :=
  match items with
  | [] => None
  | (key, info) :: items' =>
      if PyStr.contains key filename_lower then Some info
      else first_key_in filename_lower items'
  end.

Definition _identify_document_type (filename : str) : DocTypeInfo :=
  let filename_lower := lower filename in
  default general_banking (first_key_in filename_lower doc_type_mapping).

(** [any(term in content for term in terms)] *)
Definition any_in (terms : list str) (content : str) : bool :=
  existsb (fun term => PyStr.contains term content) terms.

(** The list [content_types] that [_enhance_banking_metadata] builds for
    one document. *)
Definition content_types_of (doc : Document) : list str :=
  let content := lower (page_content doc) in
  (if any_in [lit "apr"; lit "loan"; lit "mortgage"; lit "rate"; lit "payment"] content
   then [lit "loan_products"] else [])
  ++ (if any_in [lit "%"; lit "rate"; lit "apr"; lit "fee"; lit "cost"; lit "price"]
           content
      then [lit "rates_pricing"] else [])
  ++ (if any_in [lit "compliance"; lit "regulation"; lit "fdic"; lit "requirement"]
           content
      then [lit "regulatory"] else [])
  ++ (if is_table_kind (chunk_type (metadata doc)) then [lit "tabular_data"] else [])
  ++ (if any_in [lit "amortization"; lit "payment"; lit "principal"; lit "interest"]
           content
      then [lit "calculations"] else []).

(** [metadata[key] = value] for a key kept in [extra]. *)
Definition set_extra (key value : str) (doc : Document) : Document :=
  let md := metadata doc in
  mkDocument (page_content doc)
    (mkMetadata (chunk_type md) (table_id md) (table_title md) (context md)
       (part md) (cross_references md) (numerical_data md)
       (<[key := value]> (extra md))).

(** [_enhance_banking_metadata]: the documents after the call, or [None]
    when a conversion of the numeric extraction raises. *)
Definition enhance_one (doc : Document) : option Document :=
  Numeric._extract_numerical_data
    (set_extra (lit "content_types") (PyStr.join (lit ", ") (content_types_of doc)) doc).

Definition _enhance_banking_metadata (documents : list Document)
    : option (list Document) :=
  Numeric.traverse enhance_one documents.

(** [counts[k] = counts.get(k, 0) + 1] *)
Definition count_up (k : str) (counts : gmap str Z) : gmap str Z :=
  <[k := default 0 (counts !! k) + 1]> counts.

(** The content types read back from the metadata, as
    [get_document_summary] reads them: the pieces of the string, the
    blank ones left out. *)
Definition content_types_read (doc : Document) : list str :=
  List.filter (fun ct => negb (is_nil (PyStr.strip ct)))
    (split_str (lit ", ") (default [] (extra (metadata doc) !! lit "content_types"))).

Definition has_numerical_data (doc : Document) : bool :=
  match numerical_data (metadata doc) with
  | Some _ => true
  | None => false
  end.

Record DocumentSummary := mkDocumentSummary {
  total_chunks : Z;
  document_types : gmap str Z;
  content_types : gmap str Z;
  table_summary : TableSummary;
  files_loaded : Z;
  chunks_with_numerical_data : Z
}.

(** The loop of [get_document_summary]: state (type_counts,
    content_type_counts). *)
Definition summary_loop_step (st : gmap str Z * gmap str Z) (doc : Document)
    : gmap str Z * gmap str Z :=
  let '(type_counts, content_type_counts) := st in
  let doc_type :=
    default (lit "unknown") (extra (metadata doc) !! lit "document_type") in
  (count_up doc_type type_counts,
   fold_left (fun counts ct => count_up ct counts) (content_types_read doc)
     content_type_counts).

Definition get_document_summary (documents : list Document) : DocumentSummary :=
  let '(type_counts, content_type_counts) :=
    fold_left summary_loop_step documents (∅, ∅) in
  mkDocumentSummary (Z.of_nat (length documents)) type_counts content_type_counts
    (get_table_summary documents)
    (Z.of_nat (size (list_to_set
                       (map (fun doc => extra (metadata doc) !! lit "source_file")
                          documents) : gset (option str))))
    (fold_left (fun acc doc => if has_numerical_data doc then acc + 1 else acc)
       documents 0).

(** [get_documents_by_type] *)
Definition get_documents_by_type (documents : list Document) (doc_type : str)
    : list Document :=
  List.filter (fun doc =>
                 bool_decide (extra (metadata doc) !! lit "document_type"
                              = Some doc_type))
    documents.

(** [get_documents_with_tables] *)
Definition get_documents_with_tables (documents : list Document) : list Document :=
  List.filter (fun doc => is_table_kind (chunk_type (metadata doc))) documents.

(** [get_cross_referenced_documents] *)
Definition get_cross_referenced_documents (documents : list Document)
    : list Document :=
  List.filter has_cross_references documents.

(** [_load_single_file] after the file is read: [raw_documents] is what
    the library loader returned for the file, [clock i] the time
    [_get_timestamp] returns at its call for the raw document of index
    [i]. The six keys are written to the metadata of each raw document,
    the documents are split, the chunks are enhanced. *)
Definition add_file_metadata (file_name file_path timestamp : str)
    (doc : Document) : Document :=
  let doc_type_info := _identify_document_type file_name in
  set_extra (lit "load_timestamp") timestamp
    (set_extra (lit "priority_level") (dt_priority doc_type_info)
       (set_extra (lit "contains_topics")
          (PyStr.join (lit ", ") (dt_contains doc_type_info))
          (set_extra (lit "document_type") (dt_type doc_type_info)
             (set_extra (lit "file_path") file_path
                (set_extra (lit "source_file") file_name doc))))).

Definition _load_single_file (table_splitter : TableAwareTextSplitter)
    (file_name file_path : str) (clock : nat -> str)
    (raw_documents : list Document) : option (list Document) :=
  let raw_documents :=
    imap (fun i doc => add_file_metadata file_name file_path (clock i) doc)
      raw_documents in
  let chunked_documents := split_documents table_splitter raw_documents in
  _enhance_banking_metadata chunked_documents.

End Loader.

(** ** The question-answering system: resolving a reference *)

(** [resolve_cross_reference] over the cached documents: the first
    document whose table id is not empty and contains the reference. *)
Fixpoint resolve_cross_reference (documents : list Document) (table_reference : str)
    : option Document :=
  match documents with
  | [] => None
  | doc :: documents' =>
      match table_id (metadata doc) with
      | Some tid =>
          if truthy (Some tid) && PyStr.contains table_reference tid then Some doc
          else resolve_cross_reference documents' table_reference
      | None => resolve_cross_reference documents' table_reference
      end
  end.

(** ** The question-answering system: enhancing a question *)

(** The dict [banking_terms], in the order of its keys. *)
Definition banking_terms : list (str * str) :=
  [(lit "rate", lit "current interest rate");
   (lit "apr", lit "Annual Percentage Rate");
   (lit "mortgage", lit "home loan mortgage");
   (lit "loan", lit "lending product");
   (lit "compliance", lit "regulatory compliance requirement");
   (lit "fdic", lit "FDIC regulatory requirement")].

(** The loop of [_enhance_question]: [enhanced] is the lower-cased
    question, computed once before the loop. *)
Fixpoint enhance_question_loop (question enhanced : str) (items : list (str * str))
    : str :=
  match items with
  | [] => question
  | (term, context) :: items' =>
      if PyStr.contains term enhanced && negb (PyStr.contains context enhanced)
      then question ++ lit " (related to " ++ context ++ lit ")"
      else enhance_question_loop question enhanced items'
  end.

Definition _enhance_question (question : str) : str :=
  enhance_question_loop question (Loader.lower question) banking_terms.

(** ** The generic splitter of the library

    [RecursiveCharacterTextSplitter] is a class of the library
    langchain, which is not part of this code base. This is its
    splitting algorithm ([split_text], [_split_text],
    [_split_text_with_regex], [_merge_splits], [_join_docs]) as the
    library has it, for the arguments with which [__init__] builds the
    object: the eight separators below, taken literally, and the
    defaults [keep_separator=True], [strip_whitespace=True] and
    [length_function=len]. [None]: the call raises. *)

Module LangChain.

(** The argument [separators] of the constructor call. *)
Definition separators : list str :=
  [[PyStr.newline; PyStr.newline]; [PyStr.newline]; lit "."; lit "!"; lit "?";
   lit ","; lit " "; []].

(** [_split_text_with_regex(text, re.escape(separator), True)]: the
    pieces between the occurrences of the separator, each occurrence
    kept at the start of the piece that follows it; for the empty
    separator, the characters; the empty pieces are left out. *)
Definition _split_text_with_regex (text separator : str) : list str :=
  let splits :=
    if is_nil separator then map (fun c => [c]) text
    else match Loader.split_str separator text with
         | [] => []
         | first :: others => first :: map (fun piece => separator ++ piece) others
         end in
  List.filter (fun s => negb (is_nil s)) splits.

(** [_join_docs]: [None] is Python's [None], returned for a text that
    is empty once stripped. *)
Definition _join_docs (docs : list str) (separator : str) : option str :=
  let text := PyStr.strip (PyStr.join separator docs) in
  if is_nil text then None else Some text.

(** [docs.append(doc)] when [doc is not None]. *)
Definition append_doc (docs : list str) (doc : option str) : list str :=
  match doc with
  | Some doc => docs ++ [doc]
  | None => docs
  end.

(** The [while] loop of [_merge_splits], which drops pieces from the
    front of [current_doc]; [None]: [current_doc[0]] on the empty list
    ([IndexError]). *)
Fixpoint pop_loop (chunk_size chunk_overlap _len separator_len : Z)
    (current_doc : list str) (total : Z) : option (list str * Z) :=
  if (total >? chunk_overlap)
     || ((total + _len + (if negb (is_nil current_doc) then separator_len else 0)
          >? chunk_size)
         && (total >? 0))
  then
    match current_doc with
    | [] => None
    | first :: rest =>
        pop_loop chunk_size chunk_overlap _len separator_len rest
          (total - (len first
                    + (if (1 <? length current_doc)%nat then separator_len else 0)))
    end
  else Some (current_doc, total).

(** The [for] loop of [_merge_splits]: state (docs, current_doc,
    total). *)
Definition merge_step (chunk_size chunk_overlap : Z) (separator : str)
    (st : option (list str * list str * Z)) (d : str)
    : option (list str * list str * Z) :=
  match st with
  | None => None
  | Some (docs, current_doc, total) =>
      let separator_len := len separator in
      let _len := len d in
      let flushed :=
        if total + _len + (if negb (is_nil current_doc) then separator_len else 0)
           >? chunk_size
        then
          if negb (is_nil current_doc) then
            match pop_loop chunk_size chunk_overlap _len separator_len
                    current_doc total with
            | Some (current_doc', total') =>
                Some (append_doc docs (_join_docs current_doc separator),
                      current_doc', total')
            | None => None
            end
          else Some (docs, current_doc, total)
        else Some (docs, current_doc, total) in
      match flushed with
      | None => None
      | Some (docs, current_doc, total) =>
          let current_doc := current_doc ++ [d] in
          Some (docs, current_doc,
                total + _len
                + (if (1 <? length current_doc)%nat then separator_len else 0))
      end
  end.

Definition _merge_splits (chunk_size chunk_overlap : Z) (splits : list str)
    (separator : str) : option (list str) :=
  match fold_left (merge_step chunk_size chunk_overlap separator) splits
          (Some ([], [], 0)) with
  | Some (docs, current_doc, _) =>
      Some (append_doc docs (_join_docs current_doc separator))
  | None => None
  end.

(** [final_chunks.extend(self._merge_splits(_good_splits, ""))] when
    [_good_splits] is not empty. *)
Definition extend_merged (chunk_size chunk_overlap : Z)
    (final_chunks _good_splits : list str) : option (list str) :=
  if negb (is_nil _good_splits) then
    match _merge_splits chunk_size chunk_overlap _good_splits [] with
    | Some merged_text => Some (final_chunks ++ merged_text)
    | None => None
    end
  else Some final_chunks.

(** The loop of [_split_text] over the splits: state (final_chunks,
    _good_splits). [recurse] is [None] when [new_separators] is empty,
    and the recursive call with [new_separators] otherwise. *)
Definition split_step (chunk_size chunk_overlap : Z)
    (recurse : option (str -> option (list str)))
    (st : option (list str * list str)) (s : str) : option (list str * list str) :=
  match st with
  | None => None
  | Some (final_chunks, _good_splits) =>
      if len s <? chunk_size then Some (final_chunks, _good_splits ++ [s])
      else
        match extend_merged chunk_size chunk_overlap final_chunks _good_splits with
        | None => None
        | Some final_chunks =>
            match recurse with
            | None => Some (final_chunks ++ [s], [])
            | Some split_further =>
                match split_further s with
                | Some other_info => Some (final_chunks ++ other_info, [])
                | None => None
                end
            end
        end
  end.

(** [_split_text] once the separator is chosen. *)
Definition split_with (chunk_size chunk_overlap : Z)
    (recurse : option (str -> option (list str))) (separator text : str)
    : option (list str) :=
  match fold_left (split_step chunk_size chunk_overlap recurse)
          (_split_text_with_regex text separator) (Some ([], [])) with
  | Some (final_chunks, _good_splits) =>
      extend_merged chunk_size chunk_overlap final_chunks _good_splits
  | None => None
  end.

(** [_split_text]: the separator is the first one of the list that is
    empty or occurs in the text, and the last one of the list when
    there is none; the separators after it are for the pieces that are
    still too long. The empty list has no last element
    ([IndexError]). *)
Fixpoint _split_text (chunk_size chunk_overlap : Z) (separators : list str)
    (text : str) {struct separators} : option (list str) :=
  match separators with
  | [] => None
  | _s :: new_separators =>
      if is_nil _s then split_with chunk_size chunk_overlap None _s text
      else if PyStr.contains _s text then
        split_with chunk_size chunk_overlap
          (match new_separators with
           | [] => None
           | _ :: _ => Some (_split_text chunk_size chunk_overlap new_separators)
           end)
          _s text
      else
        match new_separators with
        | [] => split_with chunk_size chunk_overlap None _s text
        | _ :: _ => _split_text chunk_size chunk_overlap new_separators text
        end
  end.

(** [split_text], which [split_documents] calls on the content of each
    document; the chunks are the texts it returns. *)
Definition split_text (chunk_size chunk_overlap : Z) (text : str)
    : option (list str) :=
  _split_text chunk_size chunk_overlap separators text.

End LangChain.

(** ** Sample data *)

Module Examples.

(** A base splitter that cuts a text every [n] characters. *)
Fixpoint chop (fuel n : nat) (s : str) : list str :=
  match fuel with
  | O => []
  | S fuel' =>
      match s with
      | [] => []
      | _ :: _ => take n s :: chop fuel' n (drop n s)
      end
  end.

Definition fixed_width (n : nat) (s : str) : list str := chop (length s) n s.

Definition small_splitter : TableAwareTextSplitter :=
  mkSplitter 50 10 true (fixed_width 50).

Definition fees_table : str := lit "### Table 2.1: Fees
|Item|Fee|
|---|---|
|Wire|25|
|ATM|3|
|Check|1|
".

Definition fees_section : SectionD :=
  mkSection STable fees_table (Some (lit "2.1")) (Some (lit "Fees"))
    (lit "Table 2.1: Fees").

Definition fees_header : str := lit "### Table 2.1: Fees
|Item|Fee|
|---|---|".

Definition fees_part_2 : Document :=
  mkDocument (lit "### Table 2.1: Fees
|Item|Fee|
|---|---|
|ATM|3|")
    (mkMetadata (Some KTablePart) (Some (lit "2.1")) (Some (lit "Fees"))
       (Some (lit "Table 2.1: Fees (Part 2)")) None None None ∅).

Definition sample_text : str := lit "Fees apply. See Table 2.1 below.

" ++ fees_table ++ lit "Call us.".


(** The third chunk of [sample_document] under [small_splitter]. *)
Definition sample_part_2 : Document :=
  mkDocument (page_content fees_part_2)
    (mkMetadata (Some KTablePart) (Some (lit "2.1")) (Some (lit "Fees"))
       (Some (lit "Table 2.1: Fees (Part 2)")) None
       (Some [mkCrossRef (lit "2.1") (lit "Fees") (lit "Table 2.1")]) None ∅).

Definition plain_splitter : TableAwareTextSplitter :=
  mkSplitter 1000 200 true (fixed_width 1000).

Definition rates_text : str :=
  lit "Rates: see Table 1.1 and refer to Table 1.1 again; also Table 9.9.

### Table 1.1: Rates
|Term|APR|
|---|---|
|12mo|7.5%|
".

Definition rates_document : Document := mkDocument rates_text empty_metadata.

(** The chunks of [rates_document] before the cross-references are
    added: a text chunk and a whole table. *)
Definition rates_chunks : list Document :=
  [mkDocument
     (lit "Rates: see Table 1.1 and refer to Table 1.1 again; also Table 9.9.")
     (mkMetadata (Some KText) None None (Some (lit "Text before 1.1"))
        (Some PartNone) None None ∅);
   mkDocument (lit "### Table 1.1: Rates
|Term|APR|
|---|---|
|12mo|7.5%|
")
     (mkMetadata (Some KTable) (Some (lit "1.1")) (Some (lit "Rates"))
        (Some (lit "Table 1.1: Rates")) None None None ∅)].

Definition rates_refs : list CrossRef :=
  [mkCrossRef (lit "1.1") (lit "Rates") (lit "see Table 1.1");
   mkCrossRef (lit "1.1") (lit "Rates") (lit "refer to Table 1.1")].

(** The text chunk of [rates_chunks] once annotated. *)
Definition rates_text_chunk : Document :=
  mkDocument
    (lit "Rates: see Table 1.1 and refer to Table 1.1 again; also Table 9.9.")
    (mkMetadata (Some KText) None None (Some (lit "Text before 1.1"))
       (Some PartNone) (Some rates_refs) None ∅).



End Examples.

(** ** Notions used in the statements *)

(** The entries a chunk carries: those of its [cross_references] key,
    none when the key is absent. *)
Definition resolved_refs (chunk : Document) : list CrossRef :=
  default [] (cross_references (metadata chunk)).

(** The chunk carries at least one cross-reference. *)
Definition carries_reference (chunk : Document) : bool :=
  negb (is_nil (resolved_refs chunk)).

(** The key [cross_references] is never written with an empty list. *)
Definition reference_key_sound (chunk : Document) : Prop :=
  cross_references (metadata chunk) <> Some [].

(** The chunk has not been annotated yet. *)
Definition unannotated (chunk : Document) : Prop :=
  cross_references (metadata chunk) = None.

(** A string of whitespace only (what [strip] removes). *)
Definition all_space (w : str) : Prop := Forall (fun c => PyStr.isspace c = true) w.

(** [reassembles contents text]: the text is the contents, in order,
    with nothing but whitespace before, between and after them. *)
Inductive reassembles : list str -> str -> Prop :=
| reassembles_nil (w : str) :
    all_space w -> reassembles [] w
| reassembles_cons (w c : str) (cs : list str) (rest : str) :
    all_space w -> reassembles cs rest -> reassembles (c :: cs) (w ++ c ++ rest).

(** The table boundaries of a text, from position [pos] on: each one a
    non-empty span of the text that starts at or after the end of the one
    before, with the text of the span as its content. *)
Fixpoint boundaries_from (text : str) (pos : nat) (tables : list TableD) : Prop :=
  match tables with
  | [] => True
  | t :: tables' =>
      (pos <= t_start t)%nat /\ (t_start t < t_end t)%nat /\
      (t_end t <= length text)%nat /\
      t_content t = PyStr.slice text (t_start t) (t_end t) /\
      boundaries_from text (t_end t) tables'
  end.

(** The words of a regular expression. *)
Inductive lang : Re.regex -> str -> Prop :=
| lang_chr (p : ascii -> bool) (c : ascii) :
    p c = true -> lang (Re.Chr p) [c]
| lang_eps : lang Re.Eps []
| lang_seq (r1 r2 : Re.regex) (w1 w2 : str) :
    lang r1 w1 -> lang r2 w2 -> lang (Re.Seq r1 r2) (w1 ++ w2)
| lang_alt_l (r1 r2 : Re.regex) (w : str) :
    lang r1 w -> lang (Re.Alt r1 r2) w
| lang_alt_r (r1 r2 : Re.regex) (w : str) :
    lang r2 w -> lang (Re.Alt r1 r2) w
| lang_star_nil (g : bool) (r : Re.regex) : lang (Re.Star g r) []
| lang_star_cons (g : bool) (r : Re.regex) (w1 w2 : str) :
    lang r w1 -> lang (Re.Star g r) w2 -> lang (Re.Star g r) (w1 ++ w2).

(** A non-empty string of decimal digits. *)
Definition is_digits (ds : str) : Prop :=
  ds <> [] /\ Forall (fun c => Re.is_digit c = true) ds.

(** What follows does not go on with a digit. *)
Definition no_digit_start (rest : str) : Prop :=
  match rest with
  | [] => True
  | c :: _ => Re.is_digit c = false
  end.

(** A table number: an optional letter of the class [letter], digits, a
    point, digits. *)
Inductive table_number_str (letter : ascii -> bool) : str -> Prop :=
| table_number_plain (d1 d2 : str) :
    is_digits d1 -> is_digits d2 ->
    table_number_str letter (d1 ++ "."%char :: d2)
| table_number_letter (c : ascii) (d1 d2 : str) :
    letter c = true -> is_digits d1 -> is_digits d2 ->
    table_number_str letter (c :: d1 ++ "."%char :: d2).

(** The two long forms of a mention. *)
Inductive mention_verb : str -> Prop :=
| verb_see : mention_verb (lit "see ")
| verb_refer_to : mention_verb (lit "refer to ").

(** The matches of a scan, from position [pos] on: non-empty spans of
    the text, each starting at or after the end of the one before, with
    the text of the span as group 1. *)
Fixpoint spans_from (text : str) (pos : nat) (ms : list Re.rmatch_result) : Prop :=
  match ms with
  | [] => True
  | m :: ms' =>
      (pos <= Re.m_start m)%nat /\ (Re.m_start m < Re.m_end m)%nat /\
      (Re.m_end m <= length text)%nat /\
      Re.m_group1 m = PyStr.slice text (Re.m_start m) (Re.m_end m) /\
      spans_from text (Re.m_end m) ms'
  end.

(** The size the row loop counts for a group of rows. *)
Fixpoint rows_size (rows : list str) : Z :=
  match rows with
  | [] => 0
  | r :: rows' => len r + 1 + rows_size rows'
  end.

(** The part made of the group of rows [g], as the [i]-th part of the
    table of [section]. *)
Definition part_of (section : SectionD) (base_metadata : Metadata)
    (i : nat) (g : list str) : Document :=
  mkDocument
    (header_text_of (s_content section) ++ [PyStr.newline]
     ++ PyStr.join [PyStr.newline] g)
    (part_metadata section base_metadata (Z.of_nat i + 1)).

(** A group of two rows or more fits the budget with the header. *)
Definition fits (self : TableAwareTextSplitter) (section : SectionD)
    (g : list str) : Prop :=
  (2 <= length g)%nat ->
  len (header_text_of (s_content section)) + rows_size g <= chunk_size self.

(** The invariant of the row loop, after the rows [done]. *)
Definition row_invariant (self : TableAwareTextSplitter) (section : SectionD)
    (base_metadata : Metadata) (done : list str)
    (st : list Document * list str * Z) : Prop :=
  let '(chunks, current_chunk_lines, current_size) := st in
  exists groups : list (list str),
    chunks = imap (part_of section base_metadata) groups /\
    concat groups ++ current_chunk_lines = done /\
    Forall (fun g => g <> []) groups /\
    Forall (fits self section) groups /\
    current_size
    = len (header_text_of (s_content section)) + rows_size current_chunk_lines /\
    fits self section current_chunk_lines.

(** ** Further notions *)

(** A line that the classification loop takes for the separator row. *)
Definition is_separator (line : str) : bool :=
  PyStr.startswith (lit "|") line && PyStr.contains (lit "---") line.

(** Parts are closed only when full: the first row of each further group
    did not fit into the group before it. *)
Definition closed_when_full (self : TableAwareTextSplitter) (section : SectionD)
    (groups : list (list str)) : Prop :=
  forall (i : nat) (g : list str) (r : str) (rest : list str),
    groups !! i = Some g ->
    groups !! S i = Some (r :: rest) ->
    chunk_size self
    < len (header_text_of (s_content section)) + rows_size g + (len r + 1).

Module Samples.

(** A table whose rows are not preceded by a separator row. *)
Definition limits_table : str := lit "### Table 3.1: Limits
|Daily|500|
|Weekly|2000|
|Monthly|8000|
".

Definition limits_section : SectionD :=
  mkSection STable limits_table (Some (lit "3.1")) (Some (lit "Limits"))
    (lit "Table 3.1: Limits").

End Samples.

(** The groups of rows made so far by the row loop: the closed parts,
    then the rows being accumulated when there are some. *)
Definition groups_so_far (groups : list (list str)) (cur : list str)
    : list (list str) :=
  match cur with
  | [] => groups
  | _ :: _ => groups ++ [cur]
  end.

(** The invariant of the row loop about how full the parts are. *)
Definition packing_invariant (self : TableAwareTextSplitter) (section : SectionD)
    (base_metadata : Metadata) (done : list str)
    (st : list Document * list str * Z) : Prop :=
  let '(chunks, current_chunk_lines, current_size) := st in
  exists groups : list (list str),
    chunks = imap (part_of section base_metadata) groups /\
    concat groups ++ current_chunk_lines = done /\
    current_size
    = len (header_text_of (s_content section)) + rows_size current_chunk_lines /\
    (current_chunk_lines = [] -> groups = []) /\
    closed_when_full self section (groups_so_far groups current_chunk_lines).

(** The section made of a table. *)
Definition table_section (t : TableD) : SectionD :=
  mkSection STable (t_content t) (Some (t_id t)) (Some (t_title t))
    (lit "Table " ++ t_id t ++ lit ": " ++ t_title t).

Definition is_table_section (s : SectionD) : bool :=
  match s_type s with
  | STable => true
  | SText => false
  end.

(** A text section holds a trimmed, non-empty piece of text. *)
Definition trimmed_text_section (s : SectionD) : Prop :=
  s_type s = SText ->
  exists x : str,
    s_content s = PyStr.strip x /\ PyStr.strip x <> [] /\
    s_table_id s = None /\ s_table_title s = None.

(** The chunk is a table or table-part chunk of the table [tid]. *)
Definition counts_for (tid : str) (chunk : Document) : bool :=
  is_table_kind (chunk_type (metadata chunk))
  && bool_decide (table_id (metadata chunk) = Some tid).

(** The lengths of the contents of chunks, added up. *)
Fixpoint total_length (chunks : list Document) : Z :=
  match chunks with
  | [] => 0
  | c :: chunks' => len (page_content c) + total_length chunks'
  end.

(** What the summary says of the table [tid]: nothing when no chunk
    counts for it; else the title of the first chunk that does, the
    number of those chunks and the total length of their contents. *)
Definition summary_entry (tid : str) (chunks : list Document) : option TableInfo :=
  match List.filter (counts_for tid) chunks with
  | [] => None
  | c :: cs =>
      Some (mkTableInfo (table_title (metadata c)) (Z.of_nat (length (c :: cs)))
              (total_length (c :: cs)))
  end.

(** How often the key [k] occurs in a list of keys. *)
Definition occurrences (k : str) (keys : list str) : Z :=
  Z.of_nat (length (List.filter (fun x => bool_decide (x = k)) keys)).

(** A counter that has counted [n] occurrences of a key. *)
Definition counted (n : Z) : option Z :=
  if n =? 0 then None else Some n.

(** The five content types, each present or not. *)
Definition tags_from (b1 b2 b3 b4 b5 : bool) : list str :=
  (if b1 then [lit "loan_products"] else [])
  ++ (if b2 then [lit "rates_pricing"] else [])
  ++ (if b3 then [lit "regulatory"] else [])
  ++ (if b4 then [lit "tabular_data"] else [])
  ++ (if b5 then [lit "calculations"] else []).

(** The document type a summary counts a document under. *)
Definition document_type_of (doc : Document) : str :=
  default (lit "unknown") (extra (metadata doc) !! lit "document_type").

(** [sub] occurs in [s]. *)
Definition substring (sub s : str) : Prop :=
  exists u v : str, s = u ++ sub ++ v.

(** The table id of the document is not empty and [reference] occurs
    in it. *)
Definition answers (reference : str) (doc : Document) : Prop :=
  exists tid : str,
    table_id (metadata doc) = Some tid /\ tid <> [] /\ substring reference tid.

(** The runs of digits that the term pattern captures in a content are
    all within the limit of [int]. *)
Definition terms_convertible (content : str) : Prop :=
  Forall (fun term => len term <= Numeric.int_max_str_digits)
    (Re.findall Patterns.term_pattern content).



(** * Properties *)

(** ** Loops *)

(** A loop invariant: [P done st] relates the items already processed
    to the state reached. *)
Lemma fold_left_invariant {S X : Type} (f : S -> X -> S) (P : list X -> S -> Prop)
    (s0 : S) :
  P [] s0 ->
  (forall done st x, P done st -> P (done ++ [x]) (f st x)) ->
  forall l, P l (fold_left f l s0).
Proof.
  intros H0 Hstep l.
  induction l as [|x l IH] using rev_ind; [exact H0|].
  rewrite fold_left_app. simpl. apply Hstep, IH.
Qed.

(** ** Strings *)


Lemma len_nonneg (a : str) : 0 <= len a.
Proof. unfold len. lia. Qed.

Lemma rows_size_app (a b : list str) : rows_size (a ++ b) = rows_size a + rows_size b.
Proof. induction a as [|x a IH]; simpl; lia. Qed.

Lemma rows_size_nonneg (a : list str) : 0 <= rows_size a.
Proof. induction a as [|x a IH]; simpl; [lia|]. pose proof (len_nonneg x). lia. Qed.


(** ** Row-splitting of a table *)

Section RowSplitting.

Variable self : TableAwareTextSplitter.
Variable section : SectionD.
Variable base_metadata : Metadata.

Let header_text := header_text_of (s_content section).
Let data_lines := data_lines_of (s_content section).

Lemma part_document_part_of (groups : list (list str)) (g : list str) :
  part_document section base_metadata header_text (imap (part_of section base_metadata) groups) g
  = part_of section base_metadata (length groups) g.
Proof. unfold part_document, part_of. by rewrite length_imap. Qed.

Lemma imap_part_of_snoc (groups : list (list str)) (g : list str) :
  imap (part_of section base_metadata) (groups ++ [g]) = imap (part_of section base_metadata) groups ++ [part_of section base_metadata (length groups) g].
Proof. rewrite imap_app. simpl. by rewrite Nat.add_0_r. Qed.

Lemma row_step_invariant done st line :
  row_invariant self section base_metadata done st ->
  row_invariant self section base_metadata (done ++ [line])
    (row_step self section base_metadata header_text st line).
Proof.
  destruct st as [[chunks cur] size].
  intros (groups & Hchunks & Hdone & Hne & Hfit & Hsize & Hcur).
  unfold row_step, fits, header_text in *.
  destruct ((size + (len line + 1) >? chunk_size self) && negb (is_nil cur)) eqn:Hflush.
  - apply andb_true_iff in Hflush as [_ Hcur_ne].
    exists (groups ++ [cur]). subst chunks.
    rewrite part_document_part_of, imap_part_of_snoc.
    repeat split.
    + rewrite concat_app. simpl. by rewrite app_nil_r, <- Hdone.
    + apply Forall_app. split; [done|]. constructor; [|done].
      destruct cur; [done|congruence].
    + apply Forall_app. split; [done|]. by constructor.
    + simpl. lia.
    + intros Hlen. simpl in Hlen. lia.
  - exists groups. repeat split; try done.
    + rewrite <- Hdone. by rewrite app_assoc.
    + rewrite rows_size_app. simpl. lia.
    + intros Hlen. rewrite rows_size_app. simpl.
      apply andb_false_iff in Hflush as [Hsmall|Hnil].
      * lia.
      * destruct cur; [simpl in Hlen; lia|done].
Qed.

Lemma row_invariant_init :
  row_invariant self section base_metadata [] ([], [], len header_text).
Proof.
  exists []. unfold fits, header_text. simpl.
  repeat split; try done; try constructor; intros; lia.
Qed.

(** What row-splitting returns: the data rows cut into consecutive
    non-empty groups, one part per group, numbered from 1. *)
Lemma split_large_table_groups :
  exists groups : list (list str),
    _split_large_table self section base_metadata = imap (part_of section base_metadata) groups /\
    concat groups = data_lines /\
    Forall (fun g => g <> []) groups /\
    Forall (fits self section) groups.
Proof.
  unfold _split_large_table.
  pose proof (fold_left_invariant
    (row_step self section base_metadata header_text)
    (row_invariant self section base_metadata)
    ([], [], len header_text)) as Hinv.
  specialize (Hinv row_invariant_init).
  specialize (Hinv ltac:(intros; by apply row_step_invariant) data_lines).
  fold header_text. fold data_lines.
  destruct (fold_left _ data_lines _) as [[chunks cur] size].
  destruct Hinv as (groups & -> & Hdone & Hne & Hfit & _ & Hcur).
  destruct cur as [|l cur]; simpl.
  - exists groups. rewrite app_nil_r in Hdone. done.
  - exists (groups ++ [l :: cur]).
    rewrite part_document_part_of, imap_part_of_snoc.
    repeat split.
    + rewrite concat_app. simpl. by rewrite app_nil_r.
    + apply Forall_app. split; [done|]. by constructor.
    + apply Forall_app. split; [done|]. by constructor.
Qed.


End RowSplitting.

(** ** Part labels *)

Lemma to_int_proper (z : Z) : Z.to_int z <> Decimal.Pos Decimal.Nil /\
                              Z.to_int z <> Decimal.Neg Decimal.Nil.
Proof.
  destruct z as [|p|p]; simpl; split; try discriminate;
    intros [= H]; revert H; apply DecimalPos.Unsigned.to_uint_nonnil.
Qed.

Lemma of_int_inj (n m : Z) : PyStr.of_int n = PyStr.of_int m -> n = m.
Proof.
  unfold PyStr.of_int, lit. intros H.
  apply (f_equal string_of_list_ascii) in H.
  rewrite !string_of_list_ascii_of_string in H.
  apply (f_equal NilZero.int_of_string) in H.
  destruct (to_int_proper n) as [Hn1 Hn2], (to_int_proper m) as [Hm1 Hm2].
  rewrite !NilZero.isi in H by assumption.
  injection H as H. apply (f_equal Z.of_int) in H.
  by rewrite !DecimalZ.of_to in H.
Qed.

Lemma part_label_inj (section : SectionD) (n m : Z) :
  part_label section n = part_label section m -> n = m.
Proof.
  unfold part_label. intros H.
  apply app_inv_head in H. apply app_inv_head in H. apply app_inv_tail in H.
  by apply of_int_inj.
Qed.

(** ** The table chunker *)

(** C3. Header duplication: every part that row-splitting makes of a
    table starts with the same header text (the title line, the header
    rows and the separator row, joined by newlines), followed by a
    newline and the rows of the part. *)
Theorem header_duplication (self : TableAwareTextSplitter) (section : SectionD)
    (base_metadata : Metadata) (i : nat) (c : Document) :
  _split_large_table self section base_metadata !! i = Some c ->
  exists rows : list str,
    rows <> [] /\
    page_content c
    = header_text_of (s_content section) ++ [PyStr.newline]
      ++ PyStr.join [PyStr.newline] rows.
Proof.
  intros Hc.
  destruct (split_large_table_groups self section base_metadata)
    as (groups & Heq & _ & Hne & _).
  rewrite Heq, list_lookup_imap in Hc.
  destruct (groups !! i) as [g|] eqn:Hg; [|done].
  injection Hc as <-. exists g. split; [|done].
  by apply (Forall_lookup_1 _ _ _ _ Hne Hg).
Qed.

Lemma header_duplication_witness :
  _split_large_table Examples.small_splitter Examples.fees_section empty_metadata
    !! 1%nat = Some Examples.fees_part_2 /\
  header_text_of Examples.fees_table = Examples.fees_header /\
  exists rows : list str,
    rows <> [] /\
    page_content Examples.fees_part_2
    = header_text_of Examples.fees_table ++ [PyStr.newline]
      ++ PyStr.join [PyStr.newline] rows.
Proof.
  split; [vm_compute; reflexivity|]. split; [vm_compute; reflexivity|].
  apply (header_duplication Examples.small_splitter Examples.fees_section
           empty_metadata 1 Examples.fees_part_2).
  vm_compute; reflexivity.
Defined.

(** C8. Part contiguity: the data rows of the table are cut into
    consecutive groups, the part at position [i] (from 0) of the result
    holds the [i]-th group and is labelled part [i + 1] of the table, and
    different numbers give different labels; so the parts of a table are
    numbered 1, 2, ..., n in row order, without gap or repetition. *)
Theorem part_contiguity (self : TableAwareTextSplitter) (section : SectionD)
    (base_metadata : Metadata) :
  exists groups : list (list str),
    concat groups = data_lines_of (s_content section) /\
    length (_split_large_table self section base_metadata) = length groups /\
    forall (i : nat) (c : Document),
      _split_large_table self section base_metadata !! i = Some c ->
      exists rows : list str,
        groups !! i = Some rows /\
        page_content c
        = header_text_of (s_content section) ++ [PyStr.newline]
          ++ PyStr.join [PyStr.newline] rows /\
        chunk_type (metadata c) = Some KTablePart /\
        table_id (metadata c) = s_table_id section /\
        context (metadata c) = Some (part_label section (Z.of_nat i + 1)) /\
        forall j : nat,
          part_label section (Z.of_nat j + 1) = part_label section (Z.of_nat i + 1) ->
          j = i.
Proof.
  destruct (split_large_table_groups self section base_metadata)
    as (groups & Heq & Hcat & _ & _).
  exists groups. split; [done|]. split; [by rewrite Heq, length_imap|].
  intros i c Hc. rewrite Heq, list_lookup_imap in Hc.
  destruct (groups !! i) as [g|] eqn:Hg; [|done].
  injection Hc as <-. exists g. repeat split.
  intros j Hj. apply part_label_inj in Hj. lia.
Qed.

Lemma part_contiguity_witness :
  _split_large_table Examples.small_splitter Examples.fees_section empty_metadata
    !! 1%nat = Some Examples.fees_part_2 /\
  length (_split_large_table Examples.small_splitter Examples.fees_section
            empty_metadata) = 4%nat /\
  context (metadata Examples.fees_part_2)
  = Some (part_label Examples.fees_section 2).
Proof.
  destruct (part_contiguity Examples.small_splitter Examples.fees_section
              empty_metadata) as (groups & _ & _ & H).
  assert (Hc : _split_large_table Examples.small_splitter Examples.fees_section
                 empty_metadata !! 1%nat = Some Examples.fees_part_2)
    by (vm_compute; reflexivity).
  split; [exact Hc|]. split; [vm_compute; reflexivity|].
  destruct (H 1%nat Examples.fees_part_2 Hc) as (rows & _ & _ & _ & _ & Hctx & _).
  exact Hctx.
Defined.

(** C6. The decision of the table chunker: a table section that fits
    the budget gives exactly one chunk of kind table with the whole
    content, the table id and the table title of the section; a larger
    one is handed to row-splitting, whose chunks are all table parts, so
    that no whole-table chunk comes out. *)
Theorem table_decision (self : TableAwareTextSplitter) (section : SectionD)
    (base_metadata : Metadata) :
  (len (s_content section) <= chunk_size self ->
   exists md : Metadata,
     _process_table_section self section base_metadata
     = [mkDocument (s_content section) md] /\
     chunk_type md = Some KTable /\
     table_id md = s_table_id section /\
     table_title md = s_table_title section) /\
  (chunk_size self < len (s_content section) ->
   _process_table_section self section base_metadata
   = _split_large_table self section base_metadata /\
   forall c : Document,
     c ∈ _process_table_section self section base_metadata ->
     chunk_type (metadata c) = Some KTablePart).
Proof.
  unfold _process_table_section. split; intros Hlen.
  - apply Z.leb_le in Hlen. rewrite Hlen. eexists. repeat split.
  - apply Z.leb_gt in Hlen. rewrite Hlen. split; [done|].
    intros c Hc.
    destruct (split_large_table_groups self section base_metadata)
      as (groups & Heq & _).
    rewrite Heq in Hc. apply list_elem_of_lookup in Hc as [i Hi].
    rewrite list_lookup_imap in Hi.
    destruct (groups !! i); [|done]. by injection Hi as <-.
Qed.

Lemma table_decision_witness :
  (len (s_content Examples.fees_section) <= 1000 /\
   exists md : Metadata,
     _process_table_section (mkSplitter 1000 200 true (fun s => [s]))
       Examples.fees_section empty_metadata
     = [mkDocument (s_content Examples.fees_section) md] /\
     chunk_type md = Some KTable /\
     table_id md = s_table_id Examples.fees_section /\
     table_title md = s_table_title Examples.fees_section) /\
  (50 < len (s_content Examples.fees_section) /\
   _process_table_section Examples.small_splitter Examples.fees_section empty_metadata
   = _split_large_table Examples.small_splitter Examples.fees_section empty_metadata).
Proof.
  split.
  - split; [vm_compute; discriminate|].
    apply (table_decision (mkSplitter 1000 200 true (fun s => [s]))
             Examples.fees_section empty_metadata).
    vm_compute; discriminate.
  - split; [vm_compute; reflexivity|].
    apply (table_decision Examples.small_splitter Examples.fees_section empty_metadata).
    vm_compute; reflexivity.
Defined.

(** ** The chunks of a document *)



(** Annotation with cross-references changes neither the content nor
    the keys other than [cross_references]. *)
Lemma annotate_preserves table_map (c : Document) :
  page_content (annotate table_map c) = page_content c /\
  chunk_type (metadata (annotate table_map c)) = chunk_type (metadata c) /\
  table_id (metadata (annotate table_map c)) = table_id (metadata c) /\
  table_title (metadata (annotate table_map c)) = table_title (metadata c) /\
  context (metadata (annotate table_map c)) = context (metadata c).
Proof. unfold annotate. by destruct (negb _). Qed.


(** ** The table index and the cross-references *)

(** Every key of the table map is the table id of a table chunk. *)
Lemma build_table_map_keys (chunks : list Document) (tid : str) :
  is_Some (build_table_map chunks !! tid) ->
  exists t : Document,
    t ∈ chunks /\
    is_table_kind (chunk_type (metadata t)) = true /\
    table_id (metadata t) = Some tid.
Proof.
  unfold build_table_map.
  pose proof (fold_left_invariant table_map_step
    (fun done (m : gmap str str) => forall tid, is_Some (m !! tid) ->
       exists t : Document, t ∈ done /\
         is_table_kind (chunk_type (metadata t)) = true /\
         table_id (metadata t) = Some tid) ∅) as Hinv.
  apply Hinv; clear Hinv tid.
  - intros tid [x Hx]. by rewrite lookup_empty in Hx.
  - intros done m c IH tid Htid.
    assert (Hold : is_Some (m !! tid) -> exists t : Document, t ∈ done ++ [c] /\
         is_table_kind (chunk_type (metadata t)) = true /\
         table_id (metadata t) = Some tid).
    { intros H. destruct (IH _ H) as (t & Ht & ?). exists t.
      split; [|done]. apply elem_of_app. by left. }
    unfold table_map_step in Htid.
    destruct (is_table_kind (chunk_type (metadata c))) eqn:Hkind; [|by apply Hold].
    destruct (table_id (metadata c)) as [tid'|] eqn:Hid; [|by apply Hold].
    destruct (truthy (Some tid')); [|by apply Hold].
    destruct (decide (tid' = tid)) as [->|Hne].
    + exists c. split; [|done]. apply elem_of_app. right. by left.
    + rewrite lookup_insert_ne in Htid by done. by apply Hold.
Qed.

(** Every entry the resolver makes names a key of the table map. *)
Lemma cross_refs_of_resolved (table_map : gmap str str) (content : str) (r : CrossRef) :
  r ∈ cross_refs_of table_map content ->
  table_map !! referenced_table r = Some (cr_table_title r).
Proof.
  unfold cross_refs_of. intros H.
  apply list_elem_of_In, in_flat_map in H as (m & _ & H).
  unfold cross_ref_of_match in H.
  destruct (Re.search Patterns.table_id_pattern (Re.m_group1 m)) as [idm|]; [|done].
  destruct (table_map !! Re.m_group1 idm) as [title|] eqn:Hl; [|done].
  destruct H as [<-|[]]. done.
Qed.

(** C4. Resolution soundness: after the resolver has run over chunks
    that carried no cross-references yet, every entry of every chunk
    names a key of the table map, which is the table id of a table or
    table-part chunk of the same list; and a mention whose id is not a
    key of the map contributes no entry at all. *)
Theorem reference_resolution_sound (chunks : list Document) (c : Document)
    (refs : list CrossRef) (r : CrossRef) :
  Forall unannotated chunks ->
  c ∈ _enhance_with_cross_references chunks ->
  cross_references (metadata c) = Some refs ->
  r ∈ refs ->
  is_Some (build_table_map chunks !! referenced_table r) /\
  (exists t : Document,
     t ∈ chunks /\
     is_table_kind (chunk_type (metadata t)) = true /\
     table_id (metadata t) = Some (referenced_table r)) /\
  (forall (m idm : Re.rmatch_result),
     m ∈ Re.finditer Patterns.cross_ref_pattern (page_content c) ->
     Re.search Patterns.table_id_pattern (Re.m_group1 m) = Some idm ->
     build_table_map chunks !! Re.m_group1 idm = None ->
     cross_ref_of_match (build_table_map chunks) m = []).
Proof.
  intros Hfresh Hc Hrefs Hr.
  unfold _enhance_with_cross_references in Hc.
  apply list_elem_of_fmap in Hc as (c0 & -> & Hc0).
  assert (Hres : is_Some (build_table_map chunks !! referenced_table r)).
  { unfold annotate in Hrefs.
    destruct (negb (is_nil (cross_refs_of (build_table_map chunks) (page_content c0))))
      eqn:Hnil.
    - simpl in Hrefs. injection Hrefs as <-.
      apply cross_refs_of_resolved in Hr. by eexists.
    - rewrite Forall_forall in Hfresh. apply Hfresh in Hc0.
      unfold unannotated in Hc0. congruence. }
  split; [done|]. split; [by apply build_table_map_keys|].
  intros m idm _ Hid Hnone. unfold cross_ref_of_match. by rewrite Hid, Hnone.
Qed.

Lemma reference_resolution_sound_witness :
  Forall unannotated Examples.rates_chunks /\
  Examples.rates_text_chunk ∈ _enhance_with_cross_references Examples.rates_chunks /\
  is_Some (build_table_map Examples.rates_chunks !! lit "1.1") /\
  exists t : Document,
    t ∈ Examples.rates_chunks /\
    is_table_kind (chunk_type (metadata t)) = true /\
    table_id (metadata t) = Some (lit "1.1").
Proof.
  assert (Hfresh : Forall unannotated Examples.rates_chunks)
    by (repeat constructor).
  assert (Hin : Examples.rates_text_chunk
                  ∈ _enhance_with_cross_references Examples.rates_chunks).
  { apply (list_elem_of_lookup_2 _ 0%nat). vm_compute. reflexivity. }
  split; [exact Hfresh|]. split; [exact Hin|].
  destruct (reference_resolution_sound Examples.rates_chunks
              Examples.rates_text_chunk Examples.rates_refs
              (mkCrossRef (lit "1.1") (lit "Rates") (lit "refer to Table 1.1"))
              Hfresh Hin eq_refl) as (H1 & H2 & _).
  - apply (list_elem_of_lookup_2 _ 1%nat). reflexivity.
  - split; [exact H1|exact H2].
Defined.

(** ** The table summary *)

Lemma count_references (chunks : list Document) (acc : Z) :
  fold_left (fun acc chunk => if has_cross_references chunk then acc + 1 else acc)
    chunks acc
  = acc + Z.of_nat (length (List.filter has_cross_references chunks)).
Proof.
  revert acc. induction chunks as [|c chunks IH]; intros acc; simpl; [lia|].
  rewrite IH. destruct (has_cross_references c); simpl; lia.
Qed.

Lemma annotate_key_sound table_map (c : Document) :
  reference_key_sound c -> reference_key_sound (annotate table_map c).
Proof.
  unfold reference_key_sound, annotate. intros H.
  destruct (cross_refs_of table_map (page_content c)) eqn:E; simpl; [done|].
  discriminate.
Qed.

(** C10. The count of the summary: when no chunk has its
    [cross_references] key written with an empty list (the resolver never
    does that), [cross_references_found] is the number of chunks that
    carry at least one cross-reference; a chunk counts once, however many
    entries it carries. *)
Theorem cross_references_found_counts_chunks (chunks : list Document) :
  Forall reference_key_sound chunks ->
  cross_references_found (get_table_summary chunks)
  = Z.of_nat (length (List.filter carries_reference chunks)).
Proof.
  intros Hsound. unfold get_table_summary. cbn [cross_references_found].
  rewrite count_references, Z.add_0_l. do 2 f_equal.
  induction Hsound as [|c chunks Hc _ IH]; [done|].
  simpl. rewrite IH.
  assert (Heq : has_cross_references c = carries_reference c).
  { unfold has_cross_references, carries_reference, resolved_refs,
      reference_key_sound in *.
    destruct (cross_references (metadata c)) as [[|r refs]|]; done. }
  by rewrite Heq.
Qed.

Lemma cross_references_found_counts_chunks_witness :
  Forall reference_key_sound (_enhance_with_cross_references Examples.rates_chunks) /\
  cross_references_found
    (get_table_summary (_enhance_with_cross_references Examples.rates_chunks))
  = Z.of_nat (length (List.filter carries_reference
                        (_enhance_with_cross_references Examples.rates_chunks))) /\
  length (List.filter carries_reference
            (_enhance_with_cross_references Examples.rates_chunks)) = 2%nat /\
  length (flat_map resolved_refs
            (_enhance_with_cross_references Examples.rates_chunks)) = 3%nat.
Proof.
  assert (Hsound : Forall reference_key_sound
            (_enhance_with_cross_references Examples.rates_chunks)).
  { vm_compute. repeat (constructor; [discriminate|]). constructor. }
  split; [exact Hsound|].
  split; [|split; vm_compute; reflexivity].
  apply (cross_references_found_counts_chunks
           (_enhance_with_cross_references Examples.rates_chunks)).
  exact Hsound.
Defined.

(** ** Numeric extraction *)

(** C9. On the content "$1,250.50 for 12 months at 5.25%" the extraction
    finds the rate 5.25, the dollar amount 1250.50 (the thousands
    separator removed) and the term 12, and stores them under the
    [numerical_data] key of the chunk. *)
Theorem numeric_extraction_example :
  exists d : Document,
    Numeric._extract_numerical_data
      (mkDocument (lit "$1,250.50 for 12 months at 5.25%") empty_metadata)
    = Some d /\
    page_content d = lit "$1,250.50 for 12 months at 5.25%" /\
    numerical_data (metadata d)
    = Some (mkNumericalData (Some [5.25%Q]) (Some [1250.50%Q]) (Some [12])).
Proof. eexists. split; [vm_compute; reflexivity|]. split; reflexivity. Qed.

(** ** Construction *)

(** C7, as the code has it. [__init__] has no check of its own: it fails
    exactly when the construction of the base splitter fails. With the
    library's constructor that is when the overlap is larger than the
    chunk size; an overlap equal to the chunk size, or smaller, is
    accepted and the splitter is built with the arguments as given. *)
Theorem init_rejects_larger_overlap_only
    (split_text : Z -> Z -> str -> list str) (cs co : Z) (ptc : bool) :
  (forall ctor : Z -> Z -> option (str -> list str),
     __init__ ctor cs co ptc = None <-> ctor cs co = None) /\
  (co > cs -> __init__ (RecursiveCharacterTextSplitter split_text) cs co ptc = None) /\
  (co <= cs ->
   __init__ (RecursiveCharacterTextSplitter split_text) cs co ptc
   = Some (mkSplitter cs co ptc (split_text cs co))).
Proof.
  split; [|split].
  - intros ctor. unfold __init__. destruct (ctor cs co); split; congruence.
  - intros H. unfold __init__, RecursiveCharacterTextSplitter.
    destruct (Z.gtb_spec co cs); [done|lia].
  - intros H. unfold __init__, RecursiveCharacterTextSplitter.
    destruct (Z.gtb_spec co cs); [lia|done].
Qed.

Lemma init_rejects_larger_overlap_only_witness :
  (1001 > 1000 /\
   __init__ (RecursiveCharacterTextSplitter (fun cs _ => Examples.fixed_width (Z.to_nat cs)))
     1000 1001 true = None) /\
  (200 <= 1000 /\
   __init__ (RecursiveCharacterTextSplitter (fun cs _ => Examples.fixed_width (Z.to_nat cs)))
     1000 200 true
   = Some (mkSplitter 1000 200 true (Examples.fixed_width (Z.to_nat 1000)))).
Proof.
  split.
  - split; [lia|].
    apply (init_rejects_larger_overlap_only
             (fun cs _ => Examples.fixed_width (Z.to_nat cs)) 1000 1001 true).
    lia.
  - split; [lia|].
    apply (init_rejects_larger_overlap_only
             (fun cs _ => Examples.fixed_width (Z.to_nat cs)) 1000 200 true).
    lia.
Defined.

(** C7 as stated fails: with the overlap equal to the chunk size the
    construction succeeds. *)
Lemma init_accepts_equal_overlap :
  1000 >= 1000 /\
  __init__ (RecursiveCharacterTextSplitter (fun cs _ => Examples.fixed_width (Z.to_nat cs)))
    1000 1000 true <> None.
Proof. split; [lia|]. vm_compute. discriminate. Qed.

(** ** The partitioner *)

Lemma all_space_app (a b : str) : all_space a -> all_space b -> all_space (a ++ b).
Proof. intros. by apply Forall_app. Qed.

Lemma lstrip_decompose (s : str) :
  exists w : str, all_space w /\ s = w ++ PyStr.lstrip s.
Proof.
  induction s as [|c s (w & Hw & IH)].
  { exists []. split; [constructor|reflexivity]. }
  simpl. destruct (PyStr.isspace c) eqn:Hc.
  - exists (c :: w). split; [by constructor|]. simpl. by rewrite <- IH.
  - exists []. split; [constructor|reflexivity].
Qed.

Lemma rstrip_decompose (s : str) :
  exists w : str, all_space w /\ s = PyStr.rstrip s ++ w.
Proof.
  destruct (lstrip_decompose (rev s)) as (w & Hw & Heq).
  exists (rev w). split; [by apply Forall_rev|].
  unfold PyStr.rstrip. rewrite <- rev_app_distr, <- Heq. by rewrite rev_involutive.
Qed.

(** What [strip] removes is whitespace at both ends. *)
Lemma strip_decompose (s : str) :
  exists w1 w2 : str, all_space w1 /\ all_space w2 /\ s = w1 ++ PyStr.strip s ++ w2.
Proof.
  destruct (lstrip_decompose s) as (w1 & Hw1 & H1).
  destruct (rstrip_decompose (PyStr.lstrip s)) as (w2 & Hw2 & H2).
  exists w1, w2. unfold PyStr.strip. by rewrite <- H2.
Qed.

Lemma reassembles_space (cs : list str) (p w : str) :
  reassembles cs p -> all_space w -> reassembles cs (p ++ w).
Proof.
  induction 1 as [w0 Hw0|w0 c cs rest Hw0 Hrest IH]; intros Hw.
  - constructor. by apply all_space_app.
  - rewrite <- !app_assoc. constructor; [done|]. by apply IH.
Qed.

Lemma reassembles_snoc (cs : list str) (p c w : str) :
  reassembles cs p -> all_space w -> reassembles (cs ++ [c]) (p ++ c ++ w).
Proof.
  induction 1 as [w0 Hw0|w0 c0 cs rest Hw0 Hrest IH]; intros Hw.
  - simpl. constructor; [done|]. by constructor.
  - rewrite <- !app_assoc. simpl. constructor; [done|]. by apply IH.
Qed.

(** A section appended after a gap of the text. *)
Lemma reassembles_gap (cs : list str) (p gap : str) (ctx : str) sections :
  map s_content sections = cs ->
  reassembles cs p ->
  reassembles
    (map s_content
       (if negb (is_nil (PyStr.strip gap))
        then sections ++ [mkSection SText (PyStr.strip gap) None None ctx]
        else sections))
    (p ++ gap).
Proof.
  intros <- Hp.
  destruct (strip_decompose gap) as (w1 & w2 & Hw1 & Hw2 & Hgap).
  destruct (PyStr.strip gap) as [|a g] eqn:Hstrip; simpl.
  - rewrite Hgap. simpl. by apply reassembles_space, all_space_app.
  - rewrite map_app. simpl map. rewrite Hgap, app_assoc.
    apply reassembles_snoc; [|done]. by apply reassembles_space.
Qed.

Lemma take_slice (text : str) (a b : nat) :
  (a <= b)%nat -> take b text = take a text ++ PyStr.slice text a b.
Proof.
  intros H. unfold PyStr.slice.
  replace b with (a + (b - a))%nat at 1 by lia. by rewrite take_take_drop.
Qed.

Lemma around_step_reassembles (text : str) sections (last_end : nat) (t : TableD) :
  (last_end <= t_start t)%nat ->
  (t_start t < t_end t)%nat ->
  t_content t = PyStr.slice text (t_start t) (t_end t) ->
  reassembles (map s_content sections) (take last_end text) ->
  reassembles (map s_content (around_step text (sections, last_end) t).1)
    (take (t_end t) text).
Proof.
  intros Hle Hlt Hcontent Hp.
  rewrite (take_slice text (t_start t) (t_end t)) by lia.
  rewrite <- Hcontent. unfold around_step. cbn [fst].
  rewrite map_app. simpl map.
  match goal with
  | |- reassembles (?cs ++ _) _ =>
      assert (Hgap : reassembles cs (take (t_start t) text))
  end.
  { destruct (Nat.ltb_spec last_end (t_start t)) as [Hgap|Hnogap].
    - rewrite (take_slice text last_end (t_start t)) by lia.
      by apply (reassembles_gap (map s_content sections)).
    - by replace (t_start t) with last_end by lia. }
  pose proof (reassembles_snoc _ _ (t_content t) [] Hgap ltac:(constructor)) as R.
  by rewrite app_nil_r in R.
Qed.

Lemma around_fold_reassembles (text : str) (tables : list TableD) :
  forall sections (last_end : nat),
    boundaries_from text last_end tables ->
    (last_end <= length text)%nat ->
    reassembles (map s_content sections) (take last_end text) ->
    reassembles
      (map s_content (fold_left (around_step text) tables (sections, last_end)).1)
      (take (fold_left (around_step text) tables (sections, last_end)).2 text) /\
    ((fold_left (around_step text) tables (sections, last_end)).2 <= length text)%nat.
Proof.
  induction tables as [|t tables IH]; intros sections last_end Hb Hlen Hp.
  - done.
  - destruct Hb as (Hle & Hlt & Hend & Hcontent & Hb).
    cbn [fold_left].
    pose proof (around_step_reassembles text sections last_end t Hle Hlt Hcontent Hp)
      as Hstep.
    destruct (around_step text (sections, last_end) t) as [sections' last_end'] eqn:E.
    assert (last_end' = t_end t) as ->.
    { unfold around_step in E. by injection E. }
    by apply IH.
Qed.

(** The sections make up the text again. *)
Lemma sections_reassemble (text : str) (tables : list TableD) :
  boundaries_from text 0 tables ->
  reassembles (map s_content (_split_around_tables text tables)) text.
Proof.
  intros Hb.
  destruct (around_fold_reassembles text tables [] 0%nat Hb ltac:(lia)
              ltac:(constructor; constructor)) as [Hp Hlen].
  unfold _split_around_tables.
  destruct (fold_left (around_step text) tables ([], 0%nat)) as [sections last_end].
  cbn [fst snd] in Hp, Hlen.
  destruct (Nat.ltb_spec last_end (length text)) as [Hrest|Hnorest].
  - pose proof (reassembles_gap (map s_content sections) (take last_end text)
                  (PyStr.slice_from text last_end) (lit "Text after tables")
                  sections eq_refl Hp) as R.
    unfold PyStr.slice_from in *. by rewrite take_drop in R.
  - by rewrite take_ge in Hp by lia.
Qed.


(** C2. Round trip of the partitioner: for the table boundaries of a
    text (sorted, not overlapping, each with the text of its span as
    content), the contents of the sections, in the order they are
    emitted, make up the text again, with nothing but whitespace (what
    the trimming of the text sections removed) before, between and after
    them. *)
Theorem concatenation_round_trip (text : str) (tables : list TableD) :
  boundaries_from text 0 tables ->
  reassembles (map s_content (_split_around_tables text tables)) text.
Proof. apply sections_reassemble. Qed.

Lemma concatenation_round_trip_witness :
  boundaries_from Examples.sample_text 0 (_extract_tables Examples.sample_text) /\
  reassembles
    (map s_content
       (_split_around_tables Examples.sample_text
          (_extract_tables Examples.sample_text)))
    Examples.sample_text.
Proof.
  assert (Hb : boundaries_from Examples.sample_text 0
                 (_extract_tables Examples.sample_text)).
  { vm_compute. repeat split; lia. }
  split; [exact Hb|].
  apply (concatenation_round_trip Examples.sample_text
           (_extract_tables Examples.sample_text)).
  exact Hb.
Defined.

(** ** The matcher *)

Section MatcherFacts.

Context {A : Type}.

Lemma star_loop_sound (g : bool) (r : Re.regex)
    (IH : forall s (k : str -> option A) v,
        Re.rmatch r s k = Some v ->
        exists w s', s = w ++ s' /\ lang r w /\ k s' = Some v)
    (k : str -> option A) (v : A) :
  forall fuel s,
    Re.star_loop g (Re.rmatch r) k fuel s = Some v ->
    exists w s', s = w ++ s' /\ lang (Re.Star g r) w /\ k s' = Some v.
Proof.
  assert (Hstop : forall s, k s = Some v ->
            exists w s', s = w ++ s' /\ lang (Re.Star g r) w /\ k s' = Some v).
  { intros s Hk. exists [], s. split; [done|]. split; [constructor|done]. }
  induction fuel as [|fuel IHf]; intros s H; simpl in H; [by apply Hstop|].
  assert (Hmore : Re.rmatch r s (fun s' =>
              if (length s' <? length s)%nat
              then Re.star_loop g (Re.rmatch r) k fuel s' else None) = Some v ->
            exists w s', s = w ++ s' /\ lang (Re.Star g r) w /\ k s' = Some v).
  { intros Hb. apply IH in Hb as (w1 & s1 & -> & Hw1 & Hb).
    destruct (length s1 <? length (w1 ++ s1))%nat; [|done].
    apply IHf in Hb as (w2 & s2 & -> & Hw2 & Hk).
    exists (w1 ++ w2), s2. split; [by rewrite app_assoc|].
    split; [by constructor|done]. }
  destruct g.
  - destruct (Re.rmatch r s _) as [v'|] eqn:Hb.
    + injection H as ->. by apply Hmore.
    + by apply Hstop.
  - destruct (k s) as [v'|] eqn:Hk.
    + injection H as ->. by apply Hstop.
    + by apply Hmore.
Qed.

(** A successful match consumes a word of the expression and hands the
    rest to the continuation. *)
Lemma rmatch_sound (r : Re.regex) :
  forall s (k : str -> option A) v,
    Re.rmatch r s k = Some v ->
    exists w s', s = w ++ s' /\ lang r w /\ k s' = Some v.
Proof.
  induction r as [p| |r1 IH1 r2 IH2|r1 IH1 r2 IH2|g r IH]; intros s k v H; simpl in H.
  - destruct s as [|c s]; [done|]. destruct (p c) eqn:Hp; [|done].
    exists [c], s. split; [done|]. split; [by constructor|done].
  - exists [], s. split; [done|]. split; [constructor|done].
  - apply IH1 in H as (w1 & s1 & -> & Hw1 & H).
    apply IH2 in H as (w2 & s2 & -> & Hw2 & H).
    exists (w1 ++ w2), s2. split; [by rewrite app_assoc|].
    split; [by constructor|done].
  - destruct (Re.rmatch r1 s k) as [v'|] eqn:H1.
    + injection H as ->. apply IH1 in H1 as (w & s' & -> & Hw & Hk).
      exists w, s'. split; [done|]. split; [by apply lang_alt_l|done].
    + apply IH2 in H as (w & s' & -> & Hw & Hk).
      exists w, s'. split; [done|]. split; [by apply lang_alt_r|done].
  - by apply (star_loop_sound g r IH) in H.
Qed.

Lemma star_loop_ext (g : bool) (body : str -> (str -> option A) -> option A)
    (k1 k2 : str -> option A) :
  (forall s c1 c2, (forall x, c1 x = c2 x) -> body s c1 = body s c2) ->
  (forall x, k1 x = k2 x) ->
  forall fuel s, Re.star_loop g body k1 fuel s = Re.star_loop g body k2 fuel s.
Proof.
  intros Hbody Hk. induction fuel as [|fuel IH]; intros s; simpl; [done|].
  rewrite (Hbody s _ (fun s' => if (length s' <? length s)%nat
                                then Re.star_loop g body k2 fuel s' else None)).
  - by rewrite Hk.
  - intros x. by destruct (length x <? length s)%nat.
Qed.

(** The result depends on the continuation through its values only. *)
Lemma rmatch_ext (r : Re.regex) :
  forall s (k1 k2 : str -> option A),
    (forall x, k1 x = k2 x) -> Re.rmatch r s k1 = Re.rmatch r s k2.
Proof.
  induction r as [p| |r1 IH1 r2 IH2|r1 IH1 r2 IH2|g r IH]; intros s k1 k2 Hk; simpl.
  - destruct s as [|c s]; [done|]. by destruct (p c).
  - done.
  - apply IH1. intros x. by apply IH2.
  - by rewrite (IH1 s k1 k2 Hk), (IH2 s k1 k2 Hk).
  - by apply star_loop_ext.
Qed.

Lemma rmatch_none (r : Re.regex) (s : str) (k : str -> option A) :
  (forall x, k x = None) -> Re.rmatch r s k = None.
Proof.
  intros Hk. destruct (Re.rmatch r s k) as [v|] eqn:H; [|done].
  apply rmatch_sound in H as (w & s' & _ & _ & H). by rewrite Hk in H.
Qed.

Lemma star_loop_nil (g : bool) (r : Re.regex) (k : str -> option A) (fuel : nat) :
  Re.star_loop g (Re.rmatch r) k fuel [] = k [].
Proof.
  destruct fuel as [|fuel]; [done|]. simpl.
  rewrite (rmatch_none r [] _) by done. by destruct g, (k []).
Qed.

(** The loop of a repetition never runs out of fuel: any fuel that is
    at least the length of the text gives the same result. *)
Lemma star_loop_fuel (g : bool) (r : Re.regex) (k : str -> option A) :
  forall (f1 f2 : nat) (s : str),
    (length s <= f1)%nat -> (length s <= f2)%nat ->
    Re.star_loop g (Re.rmatch r) k f1 s = Re.star_loop g (Re.rmatch r) k f2 s.
Proof.
  induction f1 as [|f1 IH]; intros f2 s H1 H2.
  - destruct s; [|simpl in H1; lia]. by rewrite !star_loop_nil.
  - destruct f2 as [|f2].
    { destruct s; [|simpl in H2; lia]. by rewrite !star_loop_nil. }
    simpl.
    rewrite (rmatch_ext r s _
               (fun s' => if (length s' <? length s)%nat
                          then Re.star_loop g (Re.rmatch r) k f2 s' else None)).
    + done.
    + intros x. destruct (Nat.ltb_spec (length x) (length s)); [|done].
      apply IH; lia.
Qed.

End MatcherFacts.

(** The three lengths [match_at] returns are those of a word of each
    part of the pattern, one after the other at the start of the text. *)
Lemma match_at_sound (p : Re.pattern) (s : str) (a b e : nat) :
  Re.match_at p s = Some (a, b, e) ->
  exists w1 w2 w3 s' : str,
    s = w1 ++ w2 ++ w3 ++ s' /\
    lang (Re.before_group p) w1 /\ lang (Re.group p) w2 /\
    lang (Re.after_group p) w3 /\
    a = length w1 /\ b = (length w1 + length w2)%nat /\
    e = (length w1 + length w2 + length w3)%nat.
Proof.
  unfold Re.match_at. intros H.
  apply rmatch_sound in H as (w1 & s1 & Hs & Hw1 & H).
  apply rmatch_sound in H as (w2 & s2 & -> & Hw2 & H).
  apply rmatch_sound in H as (w3 & s3 & -> & Hw3 & H).
  exists w1, w2, w3, s3. injection H as <- <- <-. subst s.
  repeat split; try done; rewrite !length_app; lia.
Qed.

(** ** The scan of [finditer] *)

Lemma scan_skip (p : Re.pattern) (w rest : str) (pos : nat) :
  Re.scan p (length w) pos (w ++ rest) = Re.scan p 0 (pos + length w) rest.
Proof.
  revert pos. induction w as [|c w IH]; intros pos; simpl.
  - by rewrite Nat.add_0_r.
  - rewrite IH. f_equal. lia.
Qed.

(** Every match of a scan lies after the characters still to pass. *)
Lemma scan_start_ge (p : Re.pattern) (s : str) :
  forall skip pos,
    Forall (fun m => (pos + skip <= Re.m_start m)%nat) (Re.scan p skip pos s).
Proof.
  induction s as [|c s IH]; intros skip pos.
  - destruct skip; simpl; [|constructor].
    destruct (Re.match_at p []) as [[[a b] e]|]; [|constructor].
    constructor; [simpl; lia|constructor].
  - destruct skip as [|skip]; simpl.
    + destruct (Re.match_at p (c :: s)) as [[[a b] e]|].
      * constructor; [simpl; lia|].
        eapply Forall_impl; [apply IH|]. simpl. intros m Hm. lia.
      * eapply Forall_impl; [apply IH|]. simpl. intros m Hm. lia.
    + eapply Forall_impl; [apply IH|]. simpl. intros m Hm. lia.
Qed.

Section ScanAround.

Variable p : Re.pattern.
Variable Y : str.

(** No match that starts before [Y] reaches into [Y]. *)
Hypothesis no_crossing :
  forall (u : str) (a b e : nat),
    u <> [] -> Re.match_at p (u ++ Y) = Some (a, b, e) -> (e <= length u)%nat.

(** Then the scan of [pre ++ Y] is a scan of matches inside [pre]
    followed by the scan of [Y]. *)
Lemma scan_before (pre : str) :
  forall skip pos,
    (skip <= length pre)%nat ->
    exists ms : list Re.rmatch_result,
      Re.scan p skip pos (pre ++ Y) = ms ++ Re.scan p 0 (pos + length pre) Y /\
      Forall (fun m => (Re.m_end m <= pos + length pre)%nat) ms.
Proof.
  induction pre as [|c pre IH]; intros skip pos Hskip.
  - exists []. simpl in *. replace skip with 0%nat by lia.
    by rewrite Nat.add_0_r.
  - destruct skip as [|skip].
    + change (Re.scan p 0 pos ((c :: pre) ++ Y)) with
        (match Re.match_at p ((c :: pre) ++ Y) with
         | Some m => Re.result_at pos ((c :: pre) ++ Y) m
                     :: Re.scan p (Nat.pred m.2) (S pos) (pre ++ Y)
         | None => Re.scan p 0 (S pos) (pre ++ Y)
         end).
      destruct (Re.match_at p ((c :: pre) ++ Y)) as [[[a b] e]|] eqn:Hm.
      * pose proof (no_crossing (c :: pre) a b e ltac:(done) Hm) as He.
        simpl in He.
        destruct (IH (Nat.pred e) (S pos) ltac:(simpl; lia)) as (ms & Heq & Hms).
        exists (Re.result_at pos ((c :: pre) ++ Y) (a, b, e) :: ms).
        cbn [snd]. rewrite Heq. split.
        -- replace (pos + length (c :: pre))%nat with (S pos + length pre)%nat
             by (simpl; lia). done.
        -- constructor; [simpl; lia|].
           eapply Forall_impl; [exact Hms|]. simpl. intros m H. lia.
      * destruct (IH 0%nat (S pos) ltac:(lia)) as (ms & Heq & Hms).
        exists ms. rewrite Heq. split.
        -- replace (pos + length (c :: pre))%nat with (S pos + length pre)%nat
             by (simpl; lia). done.
        -- eapply Forall_impl; [exact Hms|]. simpl. intros m H. lia.
    + destruct (IH skip (S pos) ltac:(simpl in Hskip; lia)) as (ms & Heq & Hms).
      exists ms. simpl. rewrite Heq. split.
      * replace (pos + S (length pre))%nat with (S pos + length pre)%nat
             by (simpl; lia). done.
      * eapply Forall_impl; [exact Hms|]. simpl. intros m H. lia.
Qed.

End ScanAround.

(** A match at the start of the scanned text is reported, and the scan
    goes on after it. *)
Lemma scan_match_here (p : Re.pattern) (w rest : str) (pos : nat) :
  w <> [] ->
  Re.match_at p (w ++ rest) = Some (0%nat, length w, length w) ->
  Re.scan p 0 pos (w ++ rest)
  = Re.mkMatch pos (pos + length w) w :: Re.scan p 0 (pos + length w) rest.
Proof.
  intros Hw Hm. destruct w as [|c w]; [done|].
  simpl app in *. cbn [Re.scan]. rewrite Hm. cbn [snd Nat.pred length].
  f_equal.
  - unfold Re.result_at, PyStr.slice. f_equal.
    rewrite drop_0, Nat.sub_0_r. apply (take_app_length (c :: w)).
  - rewrite (scan_skip p w rest (S pos)). f_equal. lia.
Qed.

(** ** Matching literals and numbers *)

Section Greedy.

Context {A : Type}.
Implicit Types (k : str -> option A) (v : A).

Lemma eqb_char_refl (c : ascii) : PyStr.eqb_char c c = true.
Proof. apply Ascii.eqb_refl. Qed.

(** A literal matches itself. *)
Lemma rmatch_text (w rest : str) k :
  Re.rmatch (Re.seq_of Re.chr w) (w ++ rest) k = k rest.
Proof.
  induction w as [|c w IH]; [done|].
  destruct w as [|c' w].
  - simpl. by rewrite eqb_char_refl.
  - change (Re.seq_of Re.chr (c :: c' :: w))
      with (Re.Seq (Re.chr c) (Re.seq_of Re.chr (c' :: w))).
    cbn [Re.rmatch Re.chr app]. by rewrite eqb_char_refl.
Qed.

Lemma rmatch_text_i (w rest : str) k :
  Re.rmatch (Re.seq_of Re.chr_i w) (w ++ rest) k = k rest.
Proof.
  induction w as [|c w IH]; [done|].
  destruct w as [|c' w].
  - simpl. by rewrite eqb_char_refl.
  - change (Re.seq_of Re.chr_i (c :: c' :: w))
      with (Re.Seq (Re.chr_i c) (Re.seq_of Re.chr_i (c' :: w))).
    cbn [Re.rmatch Re.chr_i app]. by rewrite eqb_char_refl.
Qed.

(** A sequence that starts with a character class fails on a text that
    starts with a character outside the class. *)
Lemma rmatch_first_mismatch (q : ascii -> bool) (r : Re.regex) (x : ascii)
    (s : str) k :
  q x = false -> Re.rmatch (Re.Seq (Re.Chr q) r) (x :: s) k = None.
Proof. intros H. simpl. by rewrite H. Qed.

(** A greedy run of digits takes all the digits there are, when the
    match can go on from there. *)
Lemma star_digits_greedy (ds rest : str) k v :
  Forall (fun c => Re.is_digit c = true) ds ->
  no_digit_start rest ->
  k rest = Some v ->
  forall fuel,
    (length (ds ++ rest) <= fuel)%nat ->
    Re.star_loop true (Re.rmatch Re.digit) k fuel (ds ++ rest) = Some v.
Proof.
  intros Hds Hrest Hk. induction Hds as [|d ds Hd _ IH]; intros fuel Hfuel.
  - simpl. destruct fuel as [|fuel]; [done|]. simpl.
    destruct rest as [|c rest]; [done|]. simpl in Hrest. by rewrite Hrest.
  - destruct fuel as [|fuel]; [simpl in Hfuel; lia|].
    simpl. rewrite Hd.
    destruct (Nat.ltb_spec (length (ds ++ rest)) (S (length (ds ++ rest))));
      [|lia].
    rewrite IH; [done|]. simpl in Hfuel. lia.
Qed.

Lemma plus_digits_greedy (ds rest : str) k v :
  is_digits ds -> no_digit_start rest -> k rest = Some v ->
  Re.rmatch (Re.plus Re.digit) (ds ++ rest) k = Some v.
Proof.
  intros [Hne Hds] Hrest Hk. destruct ds as [|d ds]; [done|].
  apply Forall_cons in Hds as [Hd Hds].
  simpl. rewrite Hd. by apply star_digits_greedy.
Qed.

(** An optional character: taken when it is there and the match goes
    on; passed over when the text starts with another character. *)
Lemma rmatch_opt_take (q : ascii -> bool) (r : Re.regex) (c : ascii) (s : str) k v :
  q c = true -> Re.rmatch r s k = Some v ->
  Re.rmatch (Re.Seq (Re.opt (Re.Chr q)) r) (c :: s) k = Some v.
Proof. intros Hc Hr. simpl. by rewrite Hc, Hr. Qed.

Lemma rmatch_opt_skip (q : ascii -> bool) (r : Re.regex) (c : ascii) (s : str) k :
  q c = false ->
  Re.rmatch (Re.Seq (Re.opt (Re.Chr q)) r) (c :: s) k = Re.rmatch r (c :: s) k.
Proof. intros Hc. simpl. by rewrite Hc. Qed.

(** A table number followed by no digit is matched whole. *)
Lemma table_number_greedy (letter : ascii -> bool) (id rest : str) k v :
  (forall c, Re.is_digit c = true -> letter c = false) ->
  table_number_str letter id ->
  no_digit_start rest ->
  k rest = Some v ->
  Re.rmatch
    (Re.Seq (Re.opt (Re.Chr letter))
       (Re.Seq (Re.plus Re.digit) (Re.Seq (Re.chr ".") (Re.plus Re.digit))))
    (id ++ rest) k = Some v.
Proof.
  intros Hletter Hid Hrest Hk.
  assert (Hnum : forall d1 d2, is_digits d1 -> is_digits d2 ->
    Re.rmatch (Re.Seq (Re.plus Re.digit) (Re.Seq (Re.chr ".") (Re.plus Re.digit)))
      (d1 ++ "."%char :: d2 ++ rest) k = Some v).
  { intros d1 d2 H1 H2.
    change (Re.rmatch (Re.plus Re.digit) (d1 ++ "."%char :: d2 ++ rest)
              (fun s' => Re.rmatch (Re.Seq (Re.chr ".") (Re.plus Re.digit)) s' k)
            = Some v).
    apply plus_digits_greedy; [done|done|].
    change (Re.rmatch (Re.plus Re.digit) (d2 ++ rest) k = Some v).
    by apply plus_digits_greedy. }
  destruct Hid as [d1 d2 H1 H2|c d1 d2 Hc H1 H2].
  - rewrite <- app_assoc. simpl app.
    destruct d1 as [|d d1]; [by destruct H1|].
    assert (Hd : Re.is_digit d = true) by (destruct H1 as [_ H]; by inversion H).
    simpl app. rewrite rmatch_opt_skip by auto.
    by apply (Hnum (d :: d1) d2).
  - simpl app. rewrite <- app_assoc. simpl app.
    apply rmatch_opt_take; [done|]. by apply Hnum.
Qed.

Lemma rmatch_text_mismatch (c x : ascii) (w s : str) k :
  x <> c -> Re.rmatch (Re.seq_of Re.chr (c :: w)) (x :: s) k = None.
Proof.
  intros Hx.
  assert (Hf : PyStr.eqb_char c x = false).
  { apply Ascii.eqb_neq. congruence. }
  destruct w; simpl; by rewrite Hf.
Qed.

Lemma rmatch_text_i_mismatch (c x : ascii) (w s : str) (r : Re.regex) k :
  Re.to_lower x <> Re.to_lower c ->
  Re.rmatch (Re.Seq (Re.seq_of Re.chr_i (c :: w)) r) (x :: s) k = None.
Proof.
  intros Hx.
  assert (Hf : PyStr.eqb_char (Re.to_lower x) (Re.to_lower c) = false).
  { by apply Ascii.eqb_neq. }
  destruct w; simpl; by rewrite Hf.
Qed.

End Greedy.

(** ** The cross-reference pattern on a mention *)

Lemma digit_not_letter (c : ascii) :
  Re.is_digit c = true -> Re.is_upper c || Re.is_lower c = false.
Proof.
  unfold Re.is_digit, Re.is_upper, Re.is_lower.
  generalize (nat_of_ascii c). intros n H.
  apply andb_true_iff in H as [H1 H2].
  apply Nat.leb_le in H1, H2.
  destruct (Nat.leb_spec 65 n), (Nat.leb_spec n 90), (Nat.leb_spec 97 n),
    (Nat.leb_spec n 122); simpl; try done; lia.
Qed.

Lemma digit_not_upper (c : ascii) : Re.is_digit c = true -> Re.is_upper c = false.
Proof. intros H%digit_not_letter. by apply orb_false_iff in H as [? _]. Qed.

Lemma table_number_str_any_case (id : str) :
  table_number_str Re.is_upper id ->
  table_number_str (fun c => Re.is_upper c || Re.is_lower c) id.
Proof.
  intros [d1 d2 H1 H2|c d1 d2 Hc H1 H2]; [by constructor|].
  constructor; [|done|done]. by rewrite Hc.
Qed.

Lemma length_table_number_pos (letter : ascii -> bool) (id : str) :
  table_number_str letter id -> id <> [].
Proof.
  intros [d1 d2 [H1 _] H2|c d1 d2 Hc H1 H2]; [|done].
  by destruct d1.
Qed.

(** At the start of a long mention the pattern matches the whole mention,
    through its first or second alternative. *)
Lemma cross_ref_match_mention (verb id post : str) :
  mention_verb verb ->
  table_number_str Re.is_upper id ->
  no_digit_start post ->
  Re.match_at Patterns.cross_ref_pattern ((verb ++ lit "Table " ++ id) ++ post)
  = Some (0%nat, length (verb ++ lit "Table " ++ id),
          length (verb ++ lit "Table " ++ id)).
Proof.
  intros Hverb Hid%table_number_str_any_case Hpost.
  set (s := (verb ++ lit "Table " ++ id) ++ post).
  set (k := fun s2 : str =>
         Some (length s - length s, length s - length s2, length s - length s2)%nat).
  assert (Hk : k post = Some (0%nat, length (verb ++ lit "Table " ++ id),
                              length (verb ++ lit "Table " ++ id))).
  { unfold k, s. rewrite !length_app. do 2 f_equal; [f_equal|]; lia. }
  assert (Hnum : Re.rmatch Patterns.table_number_i (id ++ post) k
                 = Some (0%nat, length (verb ++ lit "Table " ++ id),
                         length (verb ++ lit "Table " ++ id))).
  { apply (table_number_greedy (fun c => Re.is_upper c || Re.is_lower c));
      auto using digit_not_letter. }
  change (Re.match_at Patterns.cross_ref_pattern s)
    with (Re.rmatch (Re.group Patterns.cross_ref_pattern) s k).
  destruct Hverb.
  - change (match Re.rmatch (Re.text_i "see Table ") s
                    (fun s' => Re.rmatch Patterns.table_number_i s' k) with
            | Some v => Some v
            | None => Re.rmatch
                        (Re.Alt (Patterns.cat [Re.text_i "refer to Table ";
                                               Patterns.table_number_i])
                           (Patterns.cat [Re.text_i "Table ";
                                          Patterns.table_number_i])) s k
            end = Some (0%nat, length (lit "see " ++ lit "Table " ++ id),
                        length (lit "see " ++ lit "Table " ++ id))).
    unfold Re.text_i, s.
    change ((lit "see " ++ lit "Table " ++ id) ++ post)
      with (lit "see Table " ++ id ++ post).
    by rewrite rmatch_text_i, Hnum.
  - change (match Re.rmatch (Re.Seq (Re.text_i "see Table ") Patterns.table_number_i)
                    s k with
            | Some v => Some v
            | None =>
                match Re.rmatch (Re.text_i "refer to Table ") s
                        (fun s' => Re.rmatch Patterns.table_number_i s' k) with
                | Some v => Some v
                | None => Re.rmatch (Patterns.cat [Re.text_i "Table ";
                                                   Patterns.table_number_i]) s k
                end
            end = Some (0%nat, length (lit "refer to " ++ lit "Table " ++ id),
                        length (lit "refer to " ++ lit "Table " ++ id))).
    unfold Re.text_i, s.
    change ((lit "refer to " ++ lit "Table " ++ id) ++ post)
      with ("r"%char :: lit "efer to Table " ++ id ++ post).
    change (Re.seq_of Re.chr_i (lit "see Table "))
      with (Re.seq_of Re.chr_i ("s"%char :: lit "ee Table ")).
    rewrite (rmatch_text_i_mismatch "s" "r") by (vm_compute; discriminate).
    change ("r"%char :: lit "efer to Table " ++ id ++ post)
      with (lit "refer to Table " ++ id ++ post).
    by rewrite rmatch_text_i, Hnum.
Qed.

(** ** The words of the patterns *)

Lemma lang_chr_inv (q : ascii -> bool) (w : str) :
  lang (Re.Chr q) w -> exists c, w = [c] /\ q c = true.
Proof. inversion 1; subst. by eexists. Qed.

Lemma lang_eps_inv (w : str) : lang Re.Eps w -> w = [].
Proof. by inversion 1. Qed.

Lemma lang_seq_inv (r1 r2 : Re.regex) (w : str) :
  lang (Re.Seq r1 r2) w ->
  exists w1 w2, w = w1 ++ w2 /\ lang r1 w1 /\ lang r2 w2.
Proof. inversion 1; subst. by eexists _, _. Qed.

Lemma lang_alt_inv (r1 r2 : Re.regex) (w : str) :
  lang (Re.Alt r1 r2) w -> lang r1 w \/ lang r2 w.
Proof. inversion 1; subst; auto. Qed.

(** The words of a literal under [re.IGNORECASE]: the literal, in any
    case. *)
Lemma lang_text_i (t w : str) :
  lang (Re.seq_of Re.chr_i t) w -> map Re.to_lower w = map Re.to_lower t.
Proof.
  revert w. induction t as [|c t IH]; intros w H.
  - apply lang_eps_inv in H. by subst.
  - destruct t as [|c' t].
    + apply lang_chr_inv in H as (x & -> & Hx).
      apply Ascii.eqb_eq in Hx. simpl. by rewrite Hx.
    + change (Re.seq_of Re.chr_i (c :: c' :: t))
        with (Re.Seq (Re.chr_i c) (Re.seq_of Re.chr_i (c' :: t))) in H.
      apply lang_seq_inv in H as (w1 & w2 & -> & H1 & H2).
      apply lang_chr_inv in H1 as (x & -> & Hx).
      apply Ascii.eqb_eq in Hx. simpl. rewrite Hx. f_equal. by apply IH.
Qed.

Lemma lang_star_digits (g : bool) (w : str) :
  lang (Re.Star g Re.digit) w -> Forall (fun c => Re.is_digit c = true) w.
Proof.
  remember (Re.Star g Re.digit) as r eqn:Hr. intros H.
  induction H as [| | | | | |g' r' w1 w2 H1 _ H2 IH2]; try done.
  injection Hr as -> ->.
  apply lang_chr_inv in H1 as (c & -> & Hc).
  constructor; [done|]. by apply IH2.
Qed.

Lemma lang_plus_digits (w : str) : lang (Re.plus Re.digit) w -> is_digits w.
Proof.
  intros H. apply lang_seq_inv in H as (w1 & w2 & -> & H1 & H2).
  apply lang_chr_inv in H1 as (c & -> & Hc).
  apply lang_star_digits in H2. split; [done|]. by constructor.
Qed.

(** The words of a table number pattern. *)
Lemma lang_table_number (letter : ascii -> bool) (w : str) :
  lang (Re.Seq (Re.opt (Re.Chr letter))
          (Re.Seq (Re.plus Re.digit) (Re.Seq (Re.chr ".") (Re.plus Re.digit)))) w ->
  table_number_str letter w.
Proof.
  intros H.
  apply lang_seq_inv in H as (l & w1 & -> & Hl & H).
  apply lang_seq_inv in H as (d1 & w2 & -> & Hd1 & H).
  apply lang_seq_inv in H as (pt & d2 & -> & Hpt & Hd2).
  apply lang_plus_digits in Hd1, Hd2.
  apply lang_chr_inv in Hpt as (c & -> & Hc).
  apply Ascii.eqb_eq in Hc. subst c.
  apply lang_alt_inv in Hl as [Hl|Hl].
  - apply lang_chr_inv in Hl as (c & -> & Hc). by constructor.
  - apply lang_eps_inv in Hl as ->. by constructor.
Qed.

(** The words of the cross-reference pattern: one of the three openings,
    in any case, and a table number. *)
Lemma lang_cross_ref (w : str) :
  lang (Re.group Patterns.cross_ref_pattern) w ->
  exists opening number : str,
    w = opening ++ number /\
    (map Re.to_lower opening = lit "see table " \/
     map Re.to_lower opening = lit "refer to table " \/
     map Re.to_lower opening = lit "table ") /\
    table_number_str (fun c => Re.is_upper c || Re.is_lower c) number.
Proof.
  intros H.
  assert (Hone : forall t,
    lang (Re.Seq (Re.text_i t) Patterns.table_number_i) w ->
    exists opening number : str,
      w = opening ++ number /\
      map Re.to_lower opening = map Re.to_lower (lit t) /\
      table_number_str (fun c => Re.is_upper c || Re.is_lower c) number).
  { intros t Ht. apply lang_seq_inv in Ht as (o & n & -> & Ho & Hn).
    exists o, n. split; [done|]. split; [by apply lang_text_i|].
    by apply lang_table_number. }
  apply lang_alt_inv in H as [H|H]; [|apply lang_alt_inv in H as [H|H]];
    apply Hone in H as (o & n & -> & Ho & Hn); exists o, n;
    (split; [done|]); (split; [|done]); rewrite Ho; auto.
Qed.

(** ** No match reaches into a mention *)

Lemma digits_and_point (d1 d2 : str) :
  is_digits d1 -> is_digits d2 ->
  Forall (fun c => Re.is_digit c = true \/ c = "."%char) (d1 ++ "."%char :: d2).
Proof.
  intros [_ H1] [_ H2]. apply Forall_app. split.
  - eapply Forall_impl; [exact H1|]. auto.
  - constructor; [by right|]. eapply Forall_impl; [exact H2|]. auto.
Qed.

(** Inside a table number, a character that is neither a digit nor the
    point can only be the leading letter, and a digit follows it. *)
Lemma table_number_inner (letter : ascii -> bool) (number l w' : str) (x0 : ascii) :
  table_number_str letter number ->
  number = l ++ x0 :: w' ->
  Re.is_digit x0 = false -> x0 <> "."%char ->
  l = [] /\ exists d t, w' = d :: t /\ Re.is_digit d = true.
Proof.
  intros Hn Heq Hx0 Hpt.
  assert (Hno : forall d1 d2 a b, is_digits d1 -> is_digits d2 ->
            d1 ++ "."%char :: d2 = a ++ x0 :: b -> False).
  { intros d1 d2 a b H1 H2 E.
    pose proof (digits_and_point d1 d2 H1 H2) as Hall.
    rewrite E in Hall. apply Forall_app in Hall as [_ Hall].
    apply Forall_cons in Hall as [[Hd|Hp] _]; congruence. }
  destruct Hn as [d1 d2 H1 H2|c d1 d2 Hc H1 H2].
  - by destruct (Hno d1 d2 l w' H1 H2).
  - destruct l as [|y l]; simpl in Heq.
    + injection Heq as -> Hw. split; [done|].
      destruct d1 as [|d d1]; [by destruct H1|].
      exists d, (d1 ++ "."%char :: d2). split; [by rewrite <- Hw|].
      destruct H1 as [_ H1]. by inversion H1.
    + injection Heq as -> Heq. by destruct (Hno d1 d2 l w' H1 H2).
Qed.

(** In a concrete string, the possible places of a character. *)
Ltac places H :=
  repeat match type of H with
         | ?a ++ _ :: _ = [] => destruct a; discriminate H
         | ?a ++ _ :: _ = _ :: _ =>
             destruct a as [|? a]; simpl in H;
             [try discriminate H | injection H as ? H]
         end.

(** A word of the cross-reference pattern cannot run over the first
    characters of a mention that starts after the word does. *)
Lemma mention_start_not_inside (u w' : str) (x0 : ascii) :
  u <> [] ->
  x0 = "s"%char \/ x0 = "r"%char ->
  w' = [] \/ (exists t, w' = "e"%char :: t) ->
  ~ lang (Re.group Patterns.cross_ref_pattern) (u ++ x0 :: w').
Proof.
  intros Hu Hx0 Hw' H.
  assert (Hnd : Re.is_digit x0 = false) by (by destruct Hx0 as [->| ->]).
  assert (Hnp : x0 <> "."%char) by (by destruct Hx0 as [->| ->]).
  assert (Hlow : Re.to_lower x0 = x0) by (by destruct Hx0 as [->| ->]).
  assert (Hin : forall number l, table_number_str
                  (fun c => Re.is_upper c || Re.is_lower c) number ->
                number = l ++ x0 :: w' -> False).
  { intros number l Hn E.
    destruct (table_number_inner _ _ _ _ _ Hn E Hnd Hnp) as (_ & d & t & -> & Hd).
    destruct Hw' as [Hw'|[t' Hw']]; [done|].
    injection Hw' as -> _. done. }
  apply lang_cross_ref in H as (opening & number & E & Hopen & Hn).
  apply app_eq_app in E as [l [[-> E]|[-> E]]]; [by eapply Hin|].
  destruct l as [|y l]; [by apply (Hin number [])|].
  simpl in E. injection E as <- ->.
  rewrite map_app in Hopen. simpl in Hopen. rewrite Hlow in Hopen.
  destruct u as [|u0 u]; [done|]. simpl in Hopen.
  remember (map Re.to_lower u) as a eqn:Ea. clear Ea.
  remember (map Re.to_lower l) as b eqn:Eb.
  destruct Hopen as [Ho|[Ho|Ho]]; injection Ho as _ Ho;
    destruct Hx0 as [->| ->]; places Ho.
  injection Ho as ->.
  destruct l as [|z l]; [discriminate Eb|].
  simpl in Eb. injection Eb as Hz _.
  destruct Hw' as [Hw'|[t' Hw']]; [discriminate Hw'|].
  simpl in Hw'. injection Hw' as -> _. discriminate Hz.
Qed.

Lemma mention_starts (verb id post : str) :
  mention_verb verb ->
  exists (x0 : ascii) (tl : str),
    (verb ++ lit "Table " ++ id) ++ post = x0 :: "e"%char :: tl /\
    (x0 = "s"%char \/ x0 = "r"%char).
Proof. intros []; eexists _, _; split; try reflexivity; auto. Qed.

(** No match of the cross-reference pattern that starts before a long
    mention ends inside it or after it. *)
Lemma mention_no_crossing (verb id post u : str) (a b e : nat) :
  mention_verb verb ->
  u <> [] ->
  Re.match_at Patterns.cross_ref_pattern (u ++ (verb ++ lit "Table " ++ id) ++ post)
  = Some (a, b, e) ->
  (e <= length u)%nat.
Proof.
  intros Hverb Hu Hm.
  destruct (mention_starts verb id post Hverb) as (x0 & tl & HY & Hx0).
  rewrite HY in Hm.
  apply match_at_sound in Hm as (w1 & w2 & w3 & s' & E & H1 & H2 & H3 & _ & _ & ->).
  apply lang_eps_inv in H1 as ->. apply lang_eps_inv in H3 as ->.
  cbn [app length] in E |- *. rewrite Nat.add_0_r.
  apply app_eq_app in E as [l [[-> E]|[-> E]]].
  - rewrite length_app. lia.
  - destruct l as [|y w']; [rewrite app_nil_r; lia|].
    simpl in E. injection E as <- E.
    exfalso. apply (mention_start_not_inside u w' x0 Hu Hx0); [|done].
    destruct w' as [|z w']; [by left|]. right. simpl in E.
    injection E as <- _. by eexists.
Qed.

(** ** The table id of a mention *)

Lemma match_at_table_id_mismatch (x : ascii) (s : str) :
  x <> "T"%char -> Re.match_at Patterns.table_id_pattern (x :: s) = None.
Proof.
  intros Hx. unfold Re.match_at.
  change (Re.before_group Patterns.table_id_pattern)
    with (Re.seq_of Re.chr ("T"%char :: lit "able ")).
  by apply rmatch_text_mismatch.
Qed.

Lemma search_from_skip (u s : str) :
  Forall (fun x => x <> "T"%char) u ->
  forall pos,
    Re.search_from Patterns.table_id_pattern pos (u ++ s)
    = Re.search_from Patterns.table_id_pattern (pos + length u) s.
Proof.
  induction 1 as [|x u Hx _ IH]; intros pos; simpl app.
  - by rewrite Nat.add_0_r.
  - cbn [Re.search_from]. rewrite match_at_table_id_mismatch by done.
    rewrite IH. f_equal. simpl. lia.
Qed.

Lemma match_at_table_id_here (id : str) :
  table_number_str Re.is_upper id ->
  Re.match_at Patterns.table_id_pattern (lit "Table " ++ id)
  = Some (6, 6 + length id, 6 + length id)%nat.
Proof.
  intros Hid. unfold Re.match_at.
  change (Re.before_group Patterns.table_id_pattern)
    with (Re.seq_of Re.chr (lit "Table ")).
  rewrite rmatch_text.
  rewrite <- (app_nil_r id) at 1.
  apply (table_number_greedy Re.is_upper);
    [auto using digit_not_upper|done|done|].
  cbn [Re.after_group Patterns.table_id_pattern Re.rmatch].
  rewrite length_app. change (length (lit "Table ")) with 6%nat.
  change (length (@nil ascii)) with 0%nat. rewrite Nat.sub_0_r.
  by replace (6 + length id - length id)%nat with 6%nat by lia.
Qed.

(** The search for the table id in a long mention finds the id. *)
Lemma search_table_id_mention (verb id : str) :
  mention_verb verb ->
  table_number_str Re.is_upper id ->
  exists m : Re.rmatch_result,
    Re.search Patterns.table_id_pattern (verb ++ lit "Table " ++ id) = Some m /\
    Re.m_group1 m = id.
Proof.
  intros Hverb Hid. unfold Re.search.
  rewrite search_from_skip
    by (destruct Hverb; repeat (constructor; [discriminate|]); constructor).
  pose proof (match_at_table_id_here id Hid) as Hm.
  change (lit "Table " ++ id) with ("T"%char :: lit "able " ++ id) in *.
  cbn [Re.search_from]. rewrite Hm. eexists. split; [done|].
  unfold Re.result_at. cbn [Re.m_group1].
  unfold PyStr.slice.
  replace (6 + length id - 6)%nat with (length id) by lia.
  change (drop 6 ("T"%char :: lit "able " ++ id)) with id. by rewrite firstn_all.
Qed.

(** ** Mentions are counted once *)

(** C5. A long mention — "see Table <id>" or "refer to Table <id>", the
    id not followed by one more digit — anywhere in a content is one
    match of the scan, with the whole mention as its text: every other
    match ends before the mention starts or starts after it ends, so the
    shorter "Table <id>" inside the mention is no match of its own. The
    mention gives exactly one cross-reference entry when its id is a key
    of the table map (none otherwise), and the reference text of that
    entry is the whole mention. *)
Theorem nested_mention_counted_once (table_map : gmap str str)
    (pre verb id post : str) :
  mention_verb verb ->
  table_number_str Re.is_upper id ->
  no_digit_start post ->
  exists before after : list Re.rmatch_result,
    Re.finditer Patterns.cross_ref_pattern
      (pre ++ (verb ++ lit "Table " ++ id) ++ post)
    = before
      ++ Re.mkMatch (length pre) (length pre + length (verb ++ lit "Table " ++ id))
           (verb ++ lit "Table " ++ id)
      :: after /\
    Forall (fun m => (Re.m_end m <= length pre)%nat) before /\
    Forall (fun m => (length pre + length (verb ++ lit "Table " ++ id)
                      <= Re.m_start m)%nat) after /\
    cross_refs_of table_map (pre ++ (verb ++ lit "Table " ++ id) ++ post)
    = flat_map (cross_ref_of_match table_map) before
      ++ match table_map !! id with
         | Some title => [mkCrossRef id title (verb ++ lit "Table " ++ id)]
         | None => []
         end
      ++ flat_map (cross_ref_of_match table_map) after.
Proof.
  intros Hverb Hid Hpost.
  set (mention := verb ++ lit "Table " ++ id).
  destruct (scan_before Patterns.cross_ref_pattern (mention ++ post)
              ltac:(intros u a b e; by apply mention_no_crossing)
              pre 0%nat 0%nat ltac:(lia)) as (before & Hscan & Hbefore).
  assert (Hne : mention <> []) by (unfold mention; by destruct Hverb).
  rewrite (scan_match_here Patterns.cross_ref_pattern mention post _ Hne
             (cross_ref_match_mention verb id post Hverb Hid Hpost)) in Hscan.
  simpl in Hscan, Hbefore.
  exists before, (Re.scan Patterns.cross_ref_pattern 0
                    (length pre + length mention) post).
  assert (Hfind : Re.finditer Patterns.cross_ref_pattern (pre ++ mention ++ post)
                  = before
                    ++ Re.mkMatch (length pre) (length pre + length mention) mention
                    :: Re.scan Patterns.cross_ref_pattern 0
                         (length pre + length mention) post) by exact Hscan.
  split; [exact Hfind|]. split; [exact Hbefore|]. split.
  - eapply Forall_impl; [apply scan_start_ge|]. simpl. intros m Hm. lia.
  - unfold cross_refs_of. rewrite Hfind, flat_map_app. f_equal.
    cbn [flat_map]. f_equal.
    destruct (search_table_id_mention verb id Hverb Hid) as (m & Hs & Hg).
    unfold cross_ref_of_match. cbn [Re.m_group1]. fold mention in Hs.
    rewrite Hs, Hg. by destruct (table_map !! id).
Qed.

Lemma nested_mention_counted_once_witness :
  exists before after : list Re.rmatch_result,
    Re.finditer Patterns.cross_ref_pattern (lit "Rates: see Table 1.1 for details.")
    = before ++ Re.mkMatch 7 20 (lit "see Table 1.1") :: after /\
    Forall (fun m => (Re.m_end m <= 7)%nat) before /\
    Forall (fun m => (20 <= Re.m_start m)%nat) after /\
    cross_refs_of {[ lit "1.1" := lit "Rates" ]} (lit "Rates: see Table 1.1 for details.")
    = flat_map (cross_ref_of_match {[ lit "1.1" := lit "Rates" ]}) before
      ++ [mkCrossRef (lit "1.1") (lit "Rates") (lit "see Table 1.1")]
      ++ flat_map (cross_ref_of_match {[ lit "1.1" := lit "Rates" ]}) after.
Proof.
  destruct (nested_mention_counted_once {[ lit "1.1" := lit "Rates" ]}
              (lit "Rates: ") (lit "see ") (lit "1.1") (lit " for details."))
    as (before & after & H1 & H2 & H3 & H4).
  - constructor.
  - apply (table_number_plain Re.is_upper (lit "1") (lit "1"));
      (split; [discriminate|repeat constructor]).
  - reflexivity.
  - rewrite lookup_singleton_eq in H4.
    exists before, after.
    split; [exact H1|]. split; [exact H2|]. split; [exact H3|exact H4].
Defined.

(** ** The table boundaries of a text *)

Lemma spans_from_weaken (text : str) (pos pos' : nat) ms :
  (pos' <= pos)%nat -> spans_from text pos ms -> spans_from text pos' ms.
Proof. destruct ms as [|m ms]; [done|]. simpl. intros ? (? & ?). split; [lia|done]. Qed.

Section WholeMatchScan.

Variable p : Re.pattern.
Hypothesis before_eps : Re.before_group p = Re.Eps.
Hypothesis after_eps : Re.after_group p = Re.Eps.
Hypothesis words_not_empty : forall w, lang (Re.group p) w -> w <> [].

Lemma match_at_whole (s : str) (a b e : nat) :
  Re.match_at p s = Some (a, b, e) ->
  a = 0%nat /\ b = e /\ (0 < e <= length s)%nat.
Proof.
  intros H.
  apply match_at_sound in H as (w1 & w2 & w3 & s' & -> & H1 & H2 & H3 & -> & -> & ->).
  rewrite before_eps in H1. rewrite after_eps in H3.
  apply lang_eps_inv in H1 as ->. apply lang_eps_inv in H3 as ->.
  apply words_not_empty in H2. destruct w2; [done|].
  rewrite !length_app. simpl. lia.
Qed.

(** The matches of a scan are spans of the text, in order and disjoint. *)
Lemma scan_spans (s : str) :
  forall (skip pos : nat) (prefix : str),
    length prefix = pos ->
    spans_from (prefix ++ s) (pos + skip) (Re.scan p skip pos s).
Proof.
  induction s as [|c s IH]; intros skip pos prefix Hpos.
  - destruct skip; [|done]. simpl.
    destruct (Re.match_at p []) as [[[a b] e]|] eqn:Hm; [|done].
    apply match_at_whole in Hm. simpl in Hm. lia.
  - assert (Hnext : forall skip',
              spans_from (prefix ++ c :: s) (S pos + skip')
                (Re.scan p skip' (S pos) s)).
    { intros skip'. replace (prefix ++ c :: s) with ((prefix ++ [c]) ++ s)
        by (by rewrite <- app_assoc).
      apply IH. rewrite length_app. simpl. lia. }
    destruct skip as [|skip].
    + cbn [Re.scan].
      destruct (Re.match_at p (c :: s)) as [[[a b] e]|] eqn:Hm.
      * apply match_at_whole in Hm as (-> & -> & He).
        cbn [spans_from Re.result_at Re.m_start Re.m_end Re.m_group1 snd].
        split; [lia|]. split; [lia|]. split.
        { rewrite length_app. lia. }
        split.
        { unfold PyStr.slice. rewrite drop_0, Nat.sub_0_r.
          replace (pos + e - pos)%nat with e by lia.
          by rewrite <- Hpos, drop_app_length. }
        eapply spans_from_weaken; [|apply (Hnext (Nat.pred e))]. lia.
      * eapply spans_from_weaken; [|apply (Hnext 0%nat)]. lia.
    + cbn [Re.scan]. eapply spans_from_weaken; [|apply (Hnext skip)]. lia.
Qed.

End WholeMatchScan.

(** The words of a literal: the literal. *)
Lemma lang_text (t w : str) : lang (Re.seq_of Re.chr t) w -> w = t.
Proof.
  revert w. induction t as [|c t IH]; intros w H.
  - by apply lang_eps_inv in H.
  - destruct t as [|c' t].
    + apply lang_chr_inv in H as (x & -> & Hx).
      apply Ascii.eqb_eq in Hx. by subst.
    + change (Re.seq_of Re.chr (c :: c' :: t))
        with (Re.Seq (Re.chr c) (Re.seq_of Re.chr (c' :: t))) in H.
      apply lang_seq_inv in H as (w1 & w2 & -> & H1 & H2).
      apply lang_chr_inv in H1 as (x & -> & Hx).
      apply Ascii.eqb_eq in Hx. subst x. simpl. f_equal. by apply IH.
Qed.

Lemma table_pattern_words_not_empty (w : str) :
  lang (Re.group Patterns.table_pattern) w -> w <> [].
Proof.
  intros H. apply lang_seq_inv in H as (w1 & w2 & -> & H1 & _).
  apply lang_text in H1 as ->. done.
Qed.

Lemma boundaries_of_spans (text : str) (f : Re.rmatch_result -> TableD) :
  (forall m, t_start (f m) = Re.m_start m /\ t_end (f m) = Re.m_end m /\
             t_content (f m) = Re.m_group1 m) ->
  forall ms pos, spans_from text pos ms -> boundaries_from text pos (map f ms).
Proof.
  intros Hf. induction ms as [|m ms IH]; intros pos H; [done|].
  destruct H as (H1 & H2 & H3 & H4 & H5).
  destruct (Hf m) as (Es & Ee & Ec). simpl.
  rewrite Es, Ee, Ec. repeat split; try done. rewrite <- Ee at 1.
  rewrite Ee. by apply IH.
Qed.

(** The tables found in a text are table boundaries of that text. *)
Lemma extract_tables_boundaries (text : str) :
  boundaries_from text 0 (_extract_tables text).
Proof.
  unfold _extract_tables. apply boundaries_of_spans; [done|].
  apply (scan_spans Patterns.table_pattern eq_refl eq_refl
           table_pattern_words_not_empty text 0%nat 0%nat []).
  done.
Qed.

(** The sections of a document, as the pipeline computes them from the
    tables it finds, make up the text of the document again. *)
Corollary document_sections_reassemble (text : str) :
  reassembles (map s_content (_split_around_tables text (_extract_tables text))) text.
Proof. apply sections_reassemble, extract_tables_boundaries. Qed.

(** * Further properties of the code *)

(** ** Row-splitting: edge cases *)

Lemma classify_no_separator (lines : list str) :
  Forall (fun line => is_separator line = false) lines ->
  forall header_lines,
    fold_left classify_step lines (header_lines, [], true)
    = (header_lines ++ lines, [], true).
Proof.
  induction 1 as [|line lines Hline _ IH]; intros header_lines; cbn [fold_left].
  - by rewrite app_nil_r.
  - unfold is_separator in Hline.
    replace (classify_step (header_lines, [], true) line)
      with (header_lines ++ [line], @nil str, true).
    + rewrite IH. by rewrite <- app_assoc.
    + unfold classify_step. rewrite Hline.
      destruct (PyStr.startswith (lit "###") line); [done|].
      by destruct (PyStr.startswith (lit "|") line).
Qed.

(** X1. A table without a separator row has no data line for the
    classification loop, so row-splitting returns no part at all: such a
    table, when it is larger than the chunk size, leaves no chunk. *)
Theorem table_without_separator_dropped (self : TableAwareTextSplitter)
    (section : SectionD) (base_metadata : Metadata) :
  Forall (fun line => is_separator line = false)
    (PyStr.split PyStr.newline (s_content section)) ->
  _split_large_table self section base_metadata = [] /\
  (chunk_size self < len (s_content section) ->
   _process_table_section self section base_metadata = []).
Proof.
  intros Hsep.
  assert (Hsplit : _split_large_table self section base_metadata = []).
  { unfold _split_large_table, data_lines_of, classify.
    by rewrite (classify_no_separator _ Hsep []). }
  split; [done|]. intros Hlen. unfold _process_table_section.
  apply Z.leb_gt in Hlen. by rewrite Hlen.
Qed.

Lemma table_without_separator_dropped_witness :
  Forall (fun line => is_separator line = false)
    (PyStr.split PyStr.newline (s_content Samples.limits_section)) /\
  50 < len (s_content Samples.limits_section) /\
  _process_table_section Examples.small_splitter Samples.limits_section empty_metadata
  = [].
Proof.
  assert (Hsep : Forall (fun line => is_separator line = false)
            (PyStr.split PyStr.newline (s_content Samples.limits_section))).
  { vm_compute. repeat (constructor; [reflexivity|]). constructor. }
  split; [exact Hsep|]. split; [vm_compute; reflexivity|].
  apply (table_without_separator_dropped Examples.small_splitter
           Samples.limits_section empty_metadata Hsep).
  vm_compute. reflexivity.
Defined.

Lemma length_concat_nonempty {X : Type} (groups : list (list X)) :
  Forall (fun g => g <> []) groups -> (length groups <= length (concat groups))%nat.
Proof.
  induction 1 as [|g groups Hg _ IH]; simpl; [lia|].
  rewrite length_app. destruct g; [done|]. simpl. lia.
Qed.

(** X2. Row-splitting returns at least one part exactly when the table
    has a data line, and never more parts than data lines. *)
Theorem parts_count (self : TableAwareTextSplitter) (section : SectionD)
    (base_metadata : Metadata) :
  (length (_split_large_table self section base_metadata)
   <= length (data_lines_of (s_content section)))%nat /\
  (_split_large_table self section base_metadata = [] <->
   data_lines_of (s_content section) = []).
Proof.
  destruct (split_large_table_groups self section base_metadata)
    as (groups & -> & Hcat & Hne & _).
  rewrite length_imap, <- Hcat. split; [by apply length_concat_nonempty|].
  split.
  - intros H. apply (f_equal length) in H. rewrite length_imap in H.
    by destruct groups.
  - intros H. destruct groups as [|g groups]; [done|].
    apply Forall_cons in Hne as [Hg _]. simpl in H. by destruct g.
Qed.

(** ** Row-splitting: how full the parts are *)

Lemma closed_when_full_close (self : TableAwareTextSplitter) (section : SectionD)
    (groups : list (list str)) (g : list str) (r : str) :
  closed_when_full self section (groups ++ [g]) ->
  chunk_size self
  < len (header_text_of (s_content section)) + rows_size g + (len r + 1) ->
  closed_when_full self section ((groups ++ [g]) ++ [[r]]).
Proof.
  intros IH Hfull i g0 r0 rest0 H1 H2.
  destruct (decide (S i < length (groups ++ [g]))%nat) as [Hi|Hi].
  - rewrite lookup_app_l in H1 by lia. rewrite lookup_app_l in H2 by lia.
    by apply (IH i g0 r0 rest0).
  - rewrite lookup_app_r in H2 by lia.
    destruct (S i - length (groups ++ [g]))%nat as [|n] eqn:E; [|done].
    injection H2 as <- <-.
    assert (i = length groups) as -> by (rewrite length_app in *; simpl in *; lia).
    rewrite lookup_app_l in H1 by (rewrite length_app; simpl; lia).
    rewrite lookup_app_r in H1 by lia.
    rewrite Nat.sub_diag in H1. by injection H1 as <-.
Qed.

Lemma closed_when_full_grow (self : TableAwareTextSplitter) (section : SectionD)
    (groups : list (list str)) (r line : str) (rest : list str) :
  closed_when_full self section (groups ++ [r :: rest]) ->
  closed_when_full self section (groups ++ [(r :: rest) ++ [line]]).
Proof.
  intros IH i g0 r0 rest0 H1 H2.
  destruct (decide (S i < length groups)%nat) as [Hi|Hi].
  - rewrite lookup_app_l in H1 by lia. rewrite lookup_app_l in H2 by lia.
    apply (IH i g0 r0 rest0); by rewrite lookup_app_l by lia.
  - rewrite lookup_app_r in H2 by lia.
    destruct (S i - length groups)%nat as [|n] eqn:E; [|done].
    injection H2 as <- <-.
    rewrite lookup_app_l in H1 by lia.
    apply (IH i g0 r rest).
    + by rewrite lookup_app_l by lia.
    + rewrite lookup_app_r by lia. by rewrite E.
Qed.

Lemma row_step_packing (self : TableAwareTextSplitter) (section : SectionD)
    (base_metadata : Metadata) done st line :
  packing_invariant self section base_metadata done st ->
  packing_invariant self section base_metadata (done ++ [line])
    (row_step self section base_metadata (header_text_of (s_content section)) st line).
Proof.
  destruct st as [[chunks cur] size].
  intros (groups & -> & Hdone & -> & Hnil & Hfull).
  unfold row_step.
  destruct ((len (header_text_of (s_content section)) + rows_size cur
             + (len line + 1) >? chunk_size self) && negb (is_nil cur)) eqn:Hflush.
  - apply andb_true_iff in Hflush as [Hover Hcur].
    destruct cur as [|r rest]; [done|]. simpl groups_so_far in Hfull.
    exists (groups ++ [r :: rest]).
    rewrite part_document_part_of, imap_part_of_snoc.
    split; [done|]. split.
    { rewrite concat_app. simpl. by rewrite app_nil_r, <- Hdone. }
    split; [simpl; lia|]. split; [done|].
    simpl groups_so_far. apply closed_when_full_close; [done|]. lia.
  - exists groups. split; [done|]. split.
    { rewrite <- Hdone. by rewrite app_assoc. }
    split; [rewrite rows_size_app; simpl; lia|].
    split; [by destruct cur|].
    destruct cur as [|r rest].
    + rewrite (Hnil eq_refl). intros i g0 r0 rest0 H1 H2.
      simpl in H2. by destruct i.
    + simpl groups_so_far in *. by apply closed_when_full_grow.
Qed.

(** X3. Row-splitting packs the rows greedily: the data lines are cut
    into consecutive groups, one part per group, and a part is closed
    only when the next row no longer fits, that is, the header, the rows
    of a part and the first row of the part after it exceed the chunk
    size together. *)
Theorem parts_closed_when_full (self : TableAwareTextSplitter) (section : SectionD)
    (base_metadata : Metadata) :
  exists groups : list (list str),
    _split_large_table self section base_metadata
    = imap (part_of section base_metadata) groups /\
    concat groups = data_lines_of (s_content section) /\
    closed_when_full self section groups.
Proof.
  unfold _split_large_table.
  pose proof (fold_left_invariant
    (row_step self section base_metadata (header_text_of (s_content section)))
    (packing_invariant self section base_metadata)
    ([], [], len (header_text_of (s_content section)))) as Hinv.
  assert (H0 : packing_invariant self section base_metadata []
                 ([], [], len (header_text_of (s_content section)))).
  { exists []. repeat split; simpl; try done; try lia.
    all: intros i g r rest H; by destruct i. }
  specialize (Hinv H0 ltac:(intros; by apply row_step_packing)
                (data_lines_of (s_content section))).
  destruct (fold_left _ (data_lines_of (s_content section)) _)
    as [[chunks cur] size].
  destruct Hinv as (groups & -> & Hdone & _ & Hnil & Hfull).
  destruct cur as [|l cur]; simpl.
  - exists groups. rewrite app_nil_r in Hdone. done.
  - exists (groups ++ [l :: cur]).
    rewrite part_document_part_of, imap_part_of_snoc.
    split; [done|]. split; [|done].
    rewrite concat_app. simpl. by rewrite app_nil_r.
Qed.

(** ** Text sections *)

Lemma text_documents_contents section base_metadata n i texts :
  map page_content (text_documents section base_metadata n i texts) = texts.
Proof.
  revert i. induction texts as [|t texts IH]; intros i; simpl; [done|].
  by rewrite IH.
Qed.

Lemma text_documents_lookup section base_metadata n i0 texts (j : nat) (c : Document) :
  text_documents section base_metadata n i0 texts !! j = Some c ->
  texts !! j = Some (page_content c) /\
  metadata c
  = mkMetadata (Some KText) (table_id base_metadata) (table_title base_metadata)
      (Some (s_context section))
      (Some (if (1 <? n)%nat then PartNumber (i0 + Z.of_nat j + 1) else PartNone))
      (cross_references base_metadata) (numerical_data base_metadata)
      (extra base_metadata).
Proof.
  revert i0 j. induction texts as [|t texts IH]; intros i0 j H; [done|].
  destruct j as [|j]; simpl in H.
  - injection H as <-. simpl. split; [done|]. by rewrite Z.add_0_r.
  - apply IH in H as [H1 H2]. split; [done|]. rewrite H2.
    by replace (i0 + 1 + Z.of_nat j + 1) with (i0 + Z.of_nat (S j) + 1) by lia.
Qed.

(** X4. A text section gives the pieces of the base splitter, in order
    and unmodified, as chunks of kind text with the context of the
    section; every other key is as in the base metadata. The key [part]
    is always written: with the number of the chunk, from 1, when there
    are several chunks, and with the value [None] when there is a single
    chunk. *)
Theorem text_section_chunks (self : TableAwareTextSplitter) (section : SectionD)
    (base_metadata : Metadata) :
  map page_content (_process_text_section self section base_metadata)
  = base_splitter self (s_content section) /\
  forall (j : nat) (c : Document),
    _process_text_section self section base_metadata !! j = Some c ->
    metadata c
    = mkMetadata (Some KText) (table_id base_metadata) (table_title base_metadata)
        (Some (s_context section))
        (Some (if (1 <? length (base_splitter self (s_content section)))%nat
               then PartNumber (Z.of_nat j + 1) else PartNone))
        (cross_references base_metadata) (numerical_data base_metadata)
        (extra base_metadata).
Proof.
  unfold _process_text_section. split; [apply text_documents_contents|].
  intros j c H. apply text_documents_lookup in H as [_ ->].
  by rewrite Z.add_0_l.
Qed.

Lemma text_section_chunks_witness :
  _process_text_section Examples.small_splitter
    (mkSection SText (lit "Fees apply to every wire transfer, domestic or international, without exception.")
       None None (lit "Text after tables")) empty_metadata
    !! 1%nat
  = Some (mkDocument (lit "ernational, without exception.")
            (mkMetadata (Some KText) None None (Some (lit "Text after tables"))
               (Some (PartNumber 2)) None None ∅)) /\
  metadata (mkDocument (lit "ernational, without exception.")
              (mkMetadata (Some KText) None None (Some (lit "Text after tables"))
                 (Some (PartNumber 2)) None None ∅))
  = mkMetadata (Some KText) None None (Some (lit "Text after tables"))
      (Some (PartNumber 2)) None None ∅.
Proof.
  assert (Hc : _process_text_section Examples.small_splitter
    (mkSection SText (lit "Fees apply to every wire transfer, domestic or international, without exception.")
       None None (lit "Text after tables")) empty_metadata
    !! 1%nat
  = Some (mkDocument (lit "ernational, without exception.")
            (mkMetadata (Some KText) None None (Some (lit "Text after tables"))
               (Some (PartNumber 2)) None None ∅))).
  { vm_compute. reflexivity. }
  split; [exact Hc|].
  destruct (text_section_chunks Examples.small_splitter
    (mkSection SText (lit "Fees apply to every wire transfer, domestic or international, without exception.")
       None None (lit "Text after tables")) empty_metadata) as [_ H].
  exact (H 1%nat _ Hc).
Defined.

(** ** The sections of the partitioner *)

Lemma lstrip_head (s : str) :
  PyStr.lstrip s = [] \/
  exists c t, PyStr.lstrip s = c :: t /\ PyStr.isspace c = false.
Proof.
  induction s as [|c s IH]; [by left|].
  simpl. destruct (PyStr.isspace c) eqn:Hc; [done|]. right. by eexists _, _.
Qed.

Lemma lstrip_idempotent (s : str) : PyStr.lstrip (PyStr.lstrip s) = PyStr.lstrip s.
Proof.
  destruct (lstrip_head s) as [->|(c & t & -> & Hc)]; [done|].
  simpl. by rewrite Hc.
Qed.

Lemma rstrip_idempotent (s : str) : PyStr.rstrip (PyStr.rstrip s) = PyStr.rstrip s.
Proof. unfold PyStr.rstrip. by rewrite rev_involutive, lstrip_idempotent. Qed.

(** Trimming a trimmed string changes nothing. *)
Lemma strip_idempotent (s : str) : PyStr.strip (PyStr.strip s) = PyStr.strip s.
Proof.
  unfold PyStr.strip.
  assert (Hl : PyStr.lstrip (PyStr.rstrip (PyStr.lstrip s))
               = PyStr.rstrip (PyStr.lstrip s)).
  { destruct (rstrip_decompose (PyStr.lstrip s)) as (w & _ & Hy).
    destruct (PyStr.rstrip (PyStr.lstrip s)) as [|c t] eqn:Hz; [done|].
    destruct (lstrip_head s) as [Hnil|(c' & t' & Hs & Hc)].
    - by rewrite Hnil in Hy.
    - rewrite Hs in Hy. injection Hy as -> _. simpl. by rewrite Hc. }
  rewrite Hl. apply rstrip_idempotent.
Qed.

Lemma table_sections_of_tables (text : str) (tables : list TableD) :
  List.filter is_table_section (_split_around_tables text tables)
  = map table_section tables.
Proof.
  unfold _split_around_tables.
  pose proof (fold_left_invariant (around_step text)
    (fun done st => List.filter is_table_section st.1 = map table_section done)
    ([], 0%nat) eq_refl) as Hinv.
  assert (Hstep : forall done st x,
    List.filter is_table_section st.1 = map table_section done ->
    List.filter is_table_section (around_step text st x).1
    = map table_section (done ++ [x])).
  { intros done [sections last_end] x IH. simpl in *.
    rewrite List.filter_app, map_app. simpl. f_equal.
    destruct (last_end <? t_start x)%nat; [|done].
    destruct (negb _); [|done].
    rewrite List.filter_app. simpl. by rewrite app_nil_r. }
  specialize (Hinv Hstep tables).
  destruct (fold_left (around_step text) tables ([], 0%nat)) as [sections last_end].
  simpl in Hinv.
  destruct (last_end <? length text)%nat; [|done].
  destruct (negb _); [|done].
  rewrite List.filter_app. simpl. by rewrite app_nil_r.
Qed.

(** X5. The table sections of the partitioner are the tables it was
    given, all of them and in their order, each with the content, the id
    and the title of the table and the label made of id and title. *)
Theorem table_sections_in_order (text : str) (tables : list TableD) :
  List.filter is_table_section (_split_around_tables text tables)
  = map table_section tables.
Proof. apply table_sections_of_tables. Qed.

Lemma split_around_tables_text_sections (text : str) (tables : list TableD) :
  Forall trimmed_text_section (_split_around_tables text tables).
Proof.
  assert (Hadd : forall sections gap ctx,
    Forall trimmed_text_section sections ->
    Forall trimmed_text_section
      (if negb (is_nil (PyStr.strip gap))
       then sections ++ [mkSection SText (PyStr.strip gap) None None ctx]
       else sections)).
  { intros sections gap ctx H.
    destruct (PyStr.strip gap) as [|c t] eqn:E; [done|]. simpl.
    apply Forall_app. split; [done|]. constructor; [|done].
    intros _. exists gap. rewrite E. by repeat split. }
  unfold _split_around_tables.
  pose proof (fold_left_invariant (around_step text)
    (fun _ st => Forall trimmed_text_section st.1) ([], 0%nat)
    ltac:(constructor)) as Hinv.
  assert (Hstep : forall (done : list TableD) st x,
    Forall trimmed_text_section st.1 ->
    Forall trimmed_text_section (around_step text st x).1).
  { intros done [sections last_end] x IH. simpl in *.
    apply Forall_app. split; [|by constructor].
    destruct (last_end <? t_start x)%nat; [|done]. by apply Hadd. }
  specialize (Hinv Hstep tables).
  destruct (fold_left (around_step text) tables ([], 0%nat)) as [sections last_end].
  simpl in Hinv.
  destruct (last_end <? length text)%nat; [|done]. by apply Hadd.
Qed.

(** X6. A text section of the partitioner is never empty and is
    trimmed: trimming its content again changes nothing. It carries no
    table id and no table title. *)
Theorem text_sections_trimmed (text : str) (tables : list TableD) (s : SectionD) :
  s ∈ _split_around_tables text tables ->
  s_type s = SText ->
  s_content s <> [] /\
  PyStr.strip (s_content s) = s_content s /\
  s_table_id s = None /\ s_table_title s = None.
Proof.
  intros Hs Hty.
  pose proof (split_around_tables_text_sections text tables) as H.
  rewrite Forall_forall in H.
  destruct (H s Hs Hty) as (x & -> & Hne & Hid & Htitle).
  by rewrite strip_idempotent.
Qed.

Lemma text_sections_trimmed_witness :
  mkSection SText (lit "Fees apply. See Table 2.1 below.") None None
    (lit "Text before 2.1")
    ∈ _split_around_tables Examples.sample_text (_extract_tables Examples.sample_text) /\
  PyStr.strip (lit "Fees apply. See Table 2.1 below.")
  = lit "Fees apply. See Table 2.1 below.".
Proof.
  assert (Hin : mkSection SText (lit "Fees apply. See Table 2.1 below.") None None
                  (lit "Text before 2.1")
    ∈ _split_around_tables Examples.sample_text (_extract_tables Examples.sample_text)).
  { apply (list_elem_of_lookup_2 _ 0%nat). vm_compute. reflexivity. }
  split; [exact Hin|].
  destruct (text_sections_trimmed Examples.sample_text
              (_extract_tables Examples.sample_text) _ Hin eq_refl)
    as (_ & H & _).
  exact H.
Defined.

(** ** The tables found in a text *)

(** The text of group 1 of a match is a word of the group. *)
Lemma result_at_group (p : Re.pattern) (pos : nat) (s : str) (m : nat * nat * nat) :
  Re.match_at p s = Some m ->
  lang (Re.group p) (Re.m_group1 (Re.result_at pos s m)).
Proof.
  destruct m as [[a b] e]. intros H.
  apply match_at_sound in H as (w1 & w2 & w3 & s' & -> & _ & H2 & _ & -> & -> & _).
  unfold Re.result_at, PyStr.slice. cbn [Re.m_group1].
  rewrite drop_app_length.
  replace (length w1 + length w2 - length w1)%nat with (length w2) by lia.
  by rewrite take_app_length.
Qed.

Lemma scan_groups (p : Re.pattern) (s : str) :
  forall skip pos,
    Forall (fun m => lang (Re.group p) (Re.m_group1 m)) (Re.scan p skip pos s).
Proof.
  induction s as [|c s IH]; intros skip pos.
  - destruct skip; [|constructor]. simpl.
    destruct (Re.match_at p []) as [m|] eqn:Hm; [|constructor].
    constructor; [by apply result_at_group|constructor].
  - destruct skip as [|skip]; cbn [Re.scan]; [|apply IH].
    destruct (Re.match_at p (c :: s)) as [m|] eqn:Hm; [|apply IH].
    constructor; [by apply result_at_group|apply IH].
Qed.

Lemma search_from_group (p : Re.pattern) (s : str) :
  forall pos m,
    Re.search_from p pos s = Some m -> lang (Re.group p) (Re.m_group1 m).
Proof.
  induction s as [|c s IH]; intros pos m H; cbn [Re.search_from] in H.
  - destruct (Re.match_at p []) as [m'|] eqn:Hm; [|done].
    injection H as <-. by apply result_at_group.
  - destruct (Re.match_at p (c :: s)) as [m'|] eqn:Hm.
    + injection H as <-. by apply result_at_group.
    + by apply IH in H.
Qed.

(** The words of the table pattern start with the title mark, a table
    number and a colon. *)
Lemma lang_table_pattern (w : str) :
  lang (Re.group Patterns.table_pattern) w ->
  exists number rest : str,
    w = lit "### Table " ++ number ++ ":"%char :: rest /\
    table_number_str Re.is_upper number.
Proof.
  intros H.
  apply lang_seq_inv in H as (w1 & w2 & -> & H1 & H).
  apply lang_text in H1 as ->.
  apply lang_seq_inv in H as (n & w3 & -> & Hn & H).
  apply lang_table_number in Hn.
  apply lang_seq_inv in H as (c & rest & -> & Hc & _).
  apply lang_chr_inv in Hc as (x & -> & Hx). apply Ascii.eqb_eq in Hx. subst x.
  by exists n, rest.
Qed.

Lemma match_at_table_id_followed (id rest : str) :
  table_number_str Re.is_upper id ->
  no_digit_start rest ->
  Re.match_at Patterns.table_id_pattern (lit "Table " ++ id ++ rest)
  = Some (6, 6 + length id, 6 + length id)%nat.
Proof.
  intros Hid Hrest. unfold Re.match_at.
  change (Re.before_group Patterns.table_id_pattern)
    with (Re.seq_of Re.chr (lit "Table ")).
  rewrite rmatch_text.
  apply (table_number_greedy Re.is_upper);
    [auto using digit_not_upper|done|done|].
  cbn [Re.after_group Patterns.table_id_pattern Re.rmatch].
  rewrite !length_app. change (length (lit "Table ")) with 6%nat.
  do 2 f_equal; [f_equal|]; lia.
Qed.

(** The search for the id in the content of a table finds its number. *)
Lemma search_table_id_in_title (number rest : str) :
  table_number_str Re.is_upper number ->
  exists m : Re.rmatch_result,
    Re.search Patterns.table_id_pattern
      (lit "### Table " ++ number ++ ":"%char :: rest) = Some m /\
    Re.m_group1 m = number.
Proof.
  intros Hn. unfold Re.search.
  change (lit "### Table " ++ number ++ ":"%char :: rest)
    with (lit "### " ++ "T"%char :: lit "able " ++ number ++ ":"%char :: rest).
  rewrite search_from_skip by (repeat (constructor; [discriminate|]); constructor).
  pose proof (match_at_table_id_followed number (":"%char :: rest) Hn eq_refl) as Hm.
  change (lit "Table " ++ number ++ ":"%char :: rest)
    with ("T"%char :: lit "able " ++ number ++ ":"%char :: rest) in Hm.
  cbn [Re.search_from]. rewrite Hm. eexists. split; [done|].
  unfold Re.result_at, PyStr.slice. cbn [Re.m_group1].
  replace (6 + length number - 6)%nat with (length number) by lia.
  change (drop 6 ("T"%char :: lit "able " ++ number ++ ":"%char :: rest))
    with (number ++ ":"%char :: rest).
  by rewrite take_app_length.
Qed.

(** X7. The tables found in a text are spans of the text: each one is
    not empty, starts at or after the end of the one before, ends inside
    the text, and has the text of its span as content. *)
Theorem extracted_tables_are_spans (text : str) :
  boundaries_from text 0 (_extract_tables text).
Proof. apply extract_tables_boundaries. Qed.

(** X8. Every table found in a text has a table number as id (an
    optional capital letter, digits, a point, digits), and its content
    starts with the title mark, that number and a colon. The fallback id
    "Unknown" is never used. *)
Theorem extracted_table_ids (text : str) (t : TableD) :
  t ∈ _extract_tables text ->
  table_number_str Re.is_upper (t_id t) /\
  (exists rest : str,
     t_content t = lit "### Table " ++ t_id t ++ ":"%char :: rest) /\
  t_id t <> lit "Unknown".
Proof.
  unfold _extract_tables. intros H.
  apply list_elem_of_fmap in H as (m & -> & Hm).
  pose proof (scan_groups Patterns.table_pattern text 0 0) as Hall.
  rewrite Forall_forall in Hall. apply Hall in Hm.
  apply lang_table_pattern in Hm as (number & rest & Hw & Hn).
  cbn [t_id t_content]. rewrite Hw.
  destruct (search_table_id_in_title number rest Hn) as (idm & -> & Hg).
  cbn [or_default]. rewrite Hg.
  split; [done|]. split; [by exists rest|].
  intros E. rewrite E in Hn.
  assert (Hfirst : forall d1 d2 (x : ascii) (tl : str),
            is_digits d1 -> d1 ++ "."%char :: d2 = x :: tl ->
            Re.is_digit x = true).
  { intros d1 d2 x tl [Hne Hd] Heq. destruct d1 as [|y d1]; [done|].
    simpl in Heq. injection Heq as -> _. by inversion Hd. }
  inversion Hn as [d1 d2 H1 _ E1|c d1 d2 Hc H1 _ E1];
    match goal with
    | Heq : _ ++ _ :: _ = _ |- _ => by apply Hfirst in Heq
    end.
Qed.

Lemma extracted_table_ids_witness :
  mkTable (lit "2.1") (lit "Fees") Examples.fees_table 34 103
    ∈ _extract_tables Examples.sample_text /\
  table_number_str Re.is_upper (lit "2.1").
Proof.
  assert (Hin : mkTable (lit "2.1") (lit "Fees") Examples.fees_table 34 103
                  ∈ _extract_tables Examples.sample_text).
  { apply (list_elem_of_lookup_2 _ 0%nat). vm_compute. reflexivity. }
  split; [exact Hin|].
  destruct (extracted_table_ids Examples.sample_text _ Hin) as (H & _ & _).
  exact H.
Defined.

(** ** The resolver of cross-references *)

Lemma table_map_step_annotate (table_map table_map' : gmap str str) (c : Document) :
  table_map_step table_map (annotate table_map' c) = table_map_step table_map c.
Proof.
  unfold table_map_step.
  by destruct (annotate_preserves table_map' c) as (_ & -> & -> & -> & _).
Qed.

Lemma build_table_map_annotate (table_map' : gmap str str) (chunks : list Document) :
  build_table_map (map (annotate table_map') chunks) = build_table_map chunks.
Proof.
  unfold build_table_map. generalize (∅ : gmap str str).
  induction chunks as [|c chunks IH]; intros m; simpl; [done|].
  by rewrite table_map_step_annotate, IH.
Qed.

Lemma annotate_idempotent (table_map : gmap str str) (c : Document) :
  annotate table_map (annotate table_map c) = annotate table_map c.
Proof.
  unfold annotate.
  destruct (cross_refs_of table_map (page_content c)) as [|r refs] eqn:E; simpl.
  - by rewrite E.
  - by rewrite E.
Qed.

(** X9. Running the resolver a second time changes nothing. *)
Theorem enhance_idempotent (chunks : list Document) :
  _enhance_with_cross_references (_enhance_with_cross_references chunks)
  = _enhance_with_cross_references chunks.
Proof.
  unfold _enhance_with_cross_references.
  rewrite build_table_map_annotate, map_map.
  apply map_ext. intros c. apply annotate_idempotent.
Qed.

(** X10. The resolver keeps the chunks as they are, in number, order,
    content and every key but [cross_references]; and a chunk in which
    it finds no resolved reference keeps that key as it was too. *)
Theorem enhance_keeps_chunks (chunks : list Document) :
  length (_enhance_with_cross_references chunks) = length chunks /\
  forall (i : nat) (c : Document),
    chunks !! i = Some c ->
    exists c' : Document,
      _enhance_with_cross_references chunks !! i = Some c' /\
      page_content c' = page_content c /\
      chunk_type (metadata c') = chunk_type (metadata c) /\
      table_id (metadata c') = table_id (metadata c) /\
      table_title (metadata c') = table_title (metadata c) /\
      context (metadata c') = context (metadata c) /\
      part (metadata c') = part (metadata c) /\
      numerical_data (metadata c') = numerical_data (metadata c) /\
      extra (metadata c') = extra (metadata c) /\
      (cross_refs_of (build_table_map chunks) (page_content c) = [] -> c' = c).
Proof.
  unfold _enhance_with_cross_references. split; [by rewrite length_map|].
  intros i c Hc. exists (annotate (build_table_map chunks) c).
  split; [by rewrite list_lookup_fmap, Hc|].
  unfold annotate.
  destruct (cross_refs_of (build_table_map chunks) (page_content c)); by repeat split.
Qed.

Lemma enhance_keeps_chunks_witness :
  Examples.rates_chunks !! 0%nat
  = Some (mkDocument
            (lit "Rates: see Table 1.1 and refer to Table 1.1 again; also Table 9.9.")
            (mkMetadata (Some KText) None None (Some (lit "Text before 1.1"))
               (Some PartNone) None None ∅)) /\
  exists c' : Document,
    _enhance_with_cross_references Examples.rates_chunks !! 0%nat = Some c' /\
    page_content c'
    = lit "Rates: see Table 1.1 and refer to Table 1.1 again; also Table 9.9.".
Proof.
  split; [reflexivity|].
  destruct (enhance_keeps_chunks Examples.rates_chunks) as [_ H].
  destruct (H 0%nat _ eq_refl) as (c' & H1 & H2 & _).
  exists c'. split; [exact H1|exact H2].
Defined.

Lemma fold_table_map_other (tid : str) (chunks : list Document) :
  Forall (fun c => ~ (is_table_kind (chunk_type (metadata c)) = true /\
                      table_id (metadata c) = Some tid)) chunks ->
  forall m : gmap str str,
    fold_left table_map_step chunks m !! tid = m !! tid.
Proof.
  induction 1 as [|c chunks Hc _ IH]; intros m; simpl; [done|].
  rewrite IH. unfold table_map_step.
  destruct (is_table_kind (chunk_type (metadata c))) eqn:Hk; [|done].
  destruct (table_id (metadata c)) as [tid'|] eqn:Hid; [|done].
  destruct (truthy (Some tid')); [|done].
  rewrite lookup_insert_ne; [done|]. intros ->. by apply Hc.
Qed.

(** X11. The table map has the title of the last table chunk of each
    id: when a table or table-part chunk with a non-empty id is followed
    by no other table chunk of that id, the map gives that id the title
    of this chunk, or "Unknown Table" when the chunk has no title. *)
Theorem table_map_last_title (before after : list Document) (t : Document)
    (tid : str) :
  is_table_kind (chunk_type (metadata t)) = true ->
  table_id (metadata t) = Some tid ->
  tid <> [] ->
  Forall (fun c => ~ (is_table_kind (chunk_type (metadata c)) = true /\
                      table_id (metadata c) = Some tid)) after ->
  build_table_map (before ++ t :: after) !! tid
  = Some (default (lit "Unknown Table") (table_title (metadata t))).
Proof.
  intros Hk Hid Hne Hafter. unfold build_table_map.
  rewrite fold_left_app. simpl. rewrite (fold_table_map_other tid after Hafter).
  unfold table_map_step at 1. rewrite Hk, Hid.
  destruct tid as [|a tid]; [done|]. simpl. by rewrite lookup_insert_eq.
Qed.

Lemma table_map_last_title_witness :
  build_table_map
    ([mkDocument (lit "a")
        (mkMetadata (Some KTablePart) (Some (lit "1.1")) (Some (lit "Old title"))
           None None None None ∅)]
     ++ mkDocument (lit "b")
          (mkMetadata (Some KTablePart) (Some (lit "1.1")) (Some (lit "New title"))
             None None None None ∅)
     :: [mkDocument (lit "c") empty_metadata])
    !! lit "1.1"
  = Some (lit "New title").
Proof.
  apply (table_map_last_title
           [mkDocument (lit "a")
              (mkMetadata (Some KTablePart) (Some (lit "1.1")) (Some (lit "Old title"))
                 None None None None ∅)]
           [mkDocument (lit "c") empty_metadata]
           (mkDocument (lit "b")
              (mkMetadata (Some KTablePart) (Some (lit "1.1")) (Some (lit "New title"))
                 None None None None ∅))
           (lit "1.1")).
  - reflexivity.
  - reflexivity.
  - discriminate.
  - constructor; [|constructor]. intros [H _]. discriminate H.
Defined.

(** X12. The keys of the table map are exactly the non-empty table ids
    of the table and table-part chunks. *)
Theorem table_map_keys (chunks : list Document) (tid : str) :
  is_Some (build_table_map chunks !! tid) <->
  exists t : Document,
    t ∈ chunks /\
    is_table_kind (chunk_type (metadata t)) = true /\
    table_id (metadata t) = Some tid /\
    tid <> [].
Proof.
  unfold build_table_map.
  pose proof (fold_left_invariant table_map_step
    (fun done (m : gmap str str) => forall tid, is_Some (m !! tid) <->
       exists t : Document, t ∈ done /\
         is_table_kind (chunk_type (metadata t)) = true /\
         table_id (metadata t) = Some tid /\ tid <> []) ∅) as Hinv.
  apply Hinv; clear Hinv tid.
  - intros tid. split.
    + intros [x Hx]. by rewrite lookup_empty in Hx.
    + intros (t & Ht & _). by apply elem_of_nil in Ht.
  - intros done m c IH tid.
    assert (Hsame : (exists t : Document, t ∈ done /\
               is_table_kind (chunk_type (metadata t)) = true /\
               table_id (metadata t) = Some tid /\ tid <> []) ->
             exists t : Document, t ∈ done ++ [c] /\
               is_table_kind (chunk_type (metadata t)) = true /\
               table_id (metadata t) = Some tid /\ tid <> []).
    { intros (t & Ht & H). exists t. split; [|done]. apply elem_of_app. by left. }
    assert (Hnew : ~ (is_table_kind (chunk_type (metadata c)) = true /\
                      table_id (metadata c) = Some tid /\ tid <> []) ->
             (exists t : Document, t ∈ done ++ [c] /\
               is_table_kind (chunk_type (metadata t)) = true /\
               table_id (metadata t) = Some tid /\ tid <> []) ->
             exists t : Document, t ∈ done /\
               is_table_kind (chunk_type (metadata t)) = true /\
               table_id (metadata t) = Some tid /\ tid <> []).
    { intros Hc (t & Ht & H). apply elem_of_app in Ht as [Ht|Ht].
      - by exists t.
      - apply list_elem_of_singleton in Ht as ->. done. }
    unfold table_map_step.
    destruct (is_table_kind (chunk_type (metadata c))) eqn:Hkind.
    2:{ rewrite IH. split; [done|]. apply Hnew. intros [H _]. discriminate H. }
    destruct (table_id (metadata c)) as [tid'|] eqn:Hid.
    2:{ rewrite IH. split; [done|]. apply Hnew. intros (_ & H & _). discriminate H. }
    destruct tid' as [|a tid'].
    { simpl. rewrite IH. split; [done|]. apply Hnew.
      intros (_ & H & Hne). by injection H as <-. }
    simpl. destruct (decide (a :: tid' = tid)) as [<-|Hne].
    + rewrite lookup_insert_eq. split; [|by eexists].
      intros _. exists c. split; [|done]. apply elem_of_app. right. by left.
    + rewrite lookup_insert_ne by done. rewrite IH. split; [done|].
      apply Hnew. intros (_ & H & _). by injection H.
Qed.

Lemma scan_groups_within (P : ascii -> Prop) (p : Re.pattern) (s : str) :
  Forall P s ->
  forall skip pos,
    Forall (fun m => Forall P (Re.m_group1 m)) (Re.scan p skip pos s).
Proof.
  assert (Hres : forall pos s m, Forall P s ->
            Forall P (Re.m_group1 (Re.result_at pos s m))).
  { intros pos s0 [[a b] e] Hs. unfold Re.result_at, PyStr.slice. simpl.
    by apply Forall_take, Forall_drop. }
  induction s as [|c s IH]; intros Hs skip pos.
  - destruct skip; [|constructor]. simpl.
    destruct (Re.match_at p []) as [m|]; [|constructor].
    constructor; [by apply Hres|constructor].
  - pose proof Hs as Hs'. apply Forall_cons in Hs' as [_ Htl].
    destruct skip as [|skip]; cbn [Re.scan]; [|by apply IH].
    destruct (Re.match_at p (c :: s)) as [m|]; [|by apply IH].
    constructor; [by apply Hres|by apply IH].
Qed.

Lemma search_table_id_without_capital (g : str) :
  Forall (fun c => c <> "T"%char) g ->
  Re.search Patterns.table_id_pattern g = None.
Proof.
  intros Hg. unfold Re.search. rewrite <- (app_nil_r g).
  by rewrite search_from_skip.
Qed.

(** X13. The scan for mentions ignores case, but the search for the
    table id inside a mention does not: a content without a capital T
    gets no cross-reference at all, whatever tables the map has. *)
Theorem lower_case_mentions_dropped (table_map : gmap str str) (content : str) :
  Forall (fun c => c <> "T"%char) content ->
  cross_refs_of table_map content = [].
Proof.
  intros Hc. unfold cross_refs_of.
  pose proof (scan_groups_within _ Patterns.cross_ref_pattern content Hc 0%nat 0%nat)
    as Hall.
  unfold Re.finditer. induction Hall as [|m ms Hm _ IH]; [done|].
  simpl. rewrite IH, app_nil_r. unfold cross_ref_of_match.
  by rewrite search_table_id_without_capital.
Qed.

Lemma lower_case_mentions_dropped_witness :
  Forall (fun c => c <> "T"%char) (lit "see table 1.1 for the rates") /\
  Re.findall Patterns.cross_ref_pattern (lit "see table 1.1 for the rates")
  = [lit "see table 1.1"] /\
  cross_refs_of {[ lit "1.1" := lit "Rates" ]} (lit "see table 1.1 for the rates") = [].
Proof.
  assert (H : Forall (fun c => c <> "T"%char) (lit "see table 1.1 for the rates")).
  { repeat (constructor; [discriminate|]). constructor. }
  split; [exact H|]. split; [vm_compute; reflexivity|].
  apply (lower_case_mentions_dropped {[ lit "1.1" := lit "Rates" ]}
           (lit "see table 1.1 for the rates") H).
Defined.

(** ** The table summary, table by table *)

Lemma total_length_app (a b : list Document) :
  total_length (a ++ b) = total_length a + total_length b.
Proof. induction a as [|c a IH]; simpl; lia. Qed.

Lemma summary_entry_skip (tid : str) (done : list Document) (c : Document) :
  counts_for tid c = false ->
  summary_entry tid (done ++ [c]) = summary_entry tid done.
Proof.
  intros H. unfold summary_entry. rewrite List.filter_app. simpl.
  by rewrite H, app_nil_r.
Qed.

Lemma summary_entry_count (tid : str) (done : list Document) (c : Document) :
  counts_for tid c = true ->
  summary_entry tid (done ++ [c])
  = Some (count_part c
            (default (mkTableInfo (table_title (metadata c)) 0 0)
               (summary_entry tid done))).
Proof.
  intros H. unfold summary_entry. rewrite List.filter_app. simpl. rewrite H.
  destruct (List.filter (counts_for tid) done) as [|c0 cs]; simpl.
  - unfold count_part. simpl. f_equal. f_equal. lia.
  - unfold count_part. simpl. f_equal. f_equal.
    + rewrite length_app. simpl. lia.
    + rewrite total_length_app. simpl. lia.
Qed.

Lemma table_summary_entries_spec (chunks : list Document) (tid : str) :
  tables (get_table_summary chunks) !! tid
  = if is_nil tid then None else summary_entry tid chunks.
Proof.
  unfold get_table_summary. cbn [tables].
  pose proof (fold_left_invariant summary_step
    (fun done (m : gmap str TableInfo) => forall tid,
       m !! tid = if is_nil tid then None else summary_entry tid done) ∅) as Hinv.
  apply Hinv; clear Hinv tid.
  - intros tid. rewrite lookup_empty. by destruct tid.
  - intros done m c IH tid.
    assert (Hskip : counts_for tid c = false ->
              m !! tid = if is_nil tid then None
                         else summary_entry tid (done ++ [c])).
    { intros H. rewrite IH. destruct tid; [done|]. simpl.
      by rewrite summary_entry_skip. }
    unfold summary_step.
    destruct (is_table_kind (chunk_type (metadata c))) eqn:Hkind.
    2:{ apply Hskip. unfold counts_for. by rewrite Hkind. }
    destruct (table_id (metadata c)) as [tid'|] eqn:Hid.
    2:{ apply Hskip. unfold counts_for. rewrite Hid, bool_decide_eq_false_2; [|done].
        by rewrite andb_false_r. }
    destruct tid' as [|a tid'].
    { simpl. destruct tid as [|b tid]; [by rewrite IH|].
      apply Hskip. unfold counts_for. rewrite Hid, bool_decide_eq_false_2; [|done].
      by rewrite andb_false_r. }
    cbn [truthy].
    destruct (decide (a :: tid' = tid)) as [<-|Hne].
    + assert (Hc : counts_for (a :: tid') c = true).
      { unfold counts_for. by rewrite Hkind, Hid, bool_decide_eq_true_2. }
      cbn [is_nil]. rewrite (summary_entry_count _ _ _ Hc).
      pose proof (IH (a :: tid')) as Hm. cbn [is_nil] in Hm.
      destruct (m !! (a :: tid')) as [info|] eqn:El.
      * rewrite lookup_alter_eq, El, <- Hm. done.
      * rewrite lookup_alter_eq, lookup_insert_eq, <- Hm. done.
    + assert (Hc : counts_for tid c = false).
      { unfold counts_for. rewrite Hid, bool_decide_eq_false_2; [|congruence].
        by rewrite andb_false_r. }
      rewrite <- (Hskip Hc).
      destruct (m !! (a :: tid')); rewrite lookup_alter_ne by done;
        [done|by rewrite lookup_insert_ne].
Qed.

(** X14. The summary, table by table: a table id is a key of [tables]
    exactly when it is not empty and some table or table-part chunk
    carries it; its entry has the title of the first such chunk, the
    number of such chunks as [parts], and the sum of the lengths of
    their contents as [total_content_length]. *)
Theorem table_summary_entries (chunks : list Document) (tid : str) :
  tables (get_table_summary chunks) !! tid
  = if is_nil tid then None else summary_entry tid chunks.
Proof. apply table_summary_entries_spec. Qed.

Lemma filter_all {X : Type} (f : X -> bool) (l : list X) :
  Forall (fun x => f x = true) l -> List.filter f l = l.
Proof. induction 1 as [|x l Hx _ IH]; simpl; [done|]. by rewrite Hx, IH. Qed.

(** The chunks of a table section carry the id and the title of the
    section and are table or table-part chunks. *)
Lemma table_section_chunks (self : TableAwareTextSplitter) (section : SectionD)
    (base_metadata : Metadata) (c : Document) :
  c ∈ _process_table_section self section base_metadata ->
  is_table_kind (chunk_type (metadata c)) = true /\
  table_id (metadata c) = s_table_id section /\
  table_title (metadata c) = s_table_title section /\
  cross_references (metadata c) = cross_references base_metadata.
Proof.
  unfold _process_table_section.
  destruct (len (s_content section) <=? chunk_size self).
  - intros H. apply list_elem_of_singleton in H as ->. done.
  - intros H.
    destruct (split_large_table_groups self section base_metadata)
      as (groups & Heq & _).
    rewrite Heq in H. apply list_elem_of_lookup in H as [i Hi].
    rewrite list_lookup_imap in Hi.
    destruct (groups !! i); [|done]. by injection Hi as <-.
Qed.

(** X15. The summary of the parts of one table: when row-splitting makes
    parts of a table with a non-empty id, the summary of these parts has
    one entry for that id, with the title of the table, as many [parts]
    as row-splitting made and the total length of their contents. *)
Theorem summary_of_split_table (self : TableAwareTextSplitter) (section : SectionD)
    (base_metadata : Metadata) (tid : str) :
  s_table_id section = Some tid ->
  tid <> [] ->
  _split_large_table self section base_metadata <> [] ->
  tables (get_table_summary (_split_large_table self section base_metadata)) !! tid
  = Some (mkTableInfo (s_table_title section)
            (Z.of_nat (length (_split_large_table self section base_metadata)))
            (total_length (_split_large_table self section base_metadata))).
Proof.
  intros Hid Hne Hparts. rewrite table_summary_entries_spec.
  destruct tid as [|a tid]; [done|]. cbn [is_nil].
  destruct (split_large_table_groups self section base_metadata)
    as (groups & Heq & _).
  unfold summary_entry. rewrite filter_all.
  - rewrite Heq in *. destruct groups as [|g groups]; [done|].
    simpl. by rewrite length_imap.
  - rewrite Heq. apply Forall_forall. intros c Hc.
    apply list_elem_of_lookup in Hc as [i Hi].
    rewrite list_lookup_imap in Hi.
    destruct (groups !! i); [|done]. injection Hi as <-.
    unfold counts_for. simpl. by rewrite Hid, bool_decide_eq_true_2.
Qed.

Lemma summary_of_split_table_witness :
  tables (get_table_summary
            (_split_large_table Examples.small_splitter Examples.fees_section
               empty_metadata)) !! lit "2.1"
  = Some (mkTableInfo (Some (lit "Fees")) 4 189).
Proof.
  pose proof (summary_of_split_table Examples.small_splitter Examples.fees_section
                empty_metadata (lit "2.1") eq_refl) as H.
  apply H.
  - discriminate.
  - vm_compute. discriminate.
Defined.

(** ** The chunks of a whole document *)

Lemma table_section_emitted (text : str) (tables : list TableD) (t : TableD) :
  t ∈ tables -> table_section t ∈ _split_around_tables text tables.
Proof.
  intros Ht.
  assert (H : In (table_section t)
                (List.filter is_table_section (_split_around_tables text tables))).
  { rewrite table_sections_of_tables. apply in_map. by apply list_elem_of_In. }
  apply List.filter_In in H as [H _]. by apply list_elem_of_In.
Qed.

Lemma table_sections_are_tables (text : str) (tables : list TableD) (s : SectionD) :
  s ∈ _split_around_tables text tables ->
  s_type s = STable ->
  exists t, t ∈ tables /\ s = table_section t.
Proof.
  intros Hs Hty.
  assert (H : In s (List.filter is_table_section (_split_around_tables text tables))).
  { apply List.filter_In. split; [by apply list_elem_of_In|].
    unfold is_table_section. by rewrite Hty. }
  rewrite table_sections_of_tables in H. apply in_map_iff in H as (t & <- & Ht).
  exists t. split; [by apply list_elem_of_In|done].
Qed.

(** X16. A table of the document that fits the chunk size comes out as
    one whole chunk of kind table, with the content of the table
    unchanged and the id and the title of the table. *)
Theorem fitting_table_kept_whole (self : TableAwareTextSplitter) (document : Document)
    (t : TableD) :
  t ∈ _extract_tables (page_content document) ->
  len (t_content t) <= chunk_size self ->
  exists c : Document,
    c ∈ _split_single_document self document /\
    chunk_type (metadata c) = Some KTable /\
    page_content c = t_content t /\
    table_id (metadata c) = Some (t_id t) /\
    table_title (metadata c) = Some (t_title t).
Proof.
  intros Ht Hlen.
  pose proof (table_section_emitted (page_content document) _ t Ht) as Hs.
  unfold _split_single_document, _enhance_with_cross_references.
  set (chunks := flat_map _ _).
  assert (Hc : mkDocument (t_content t)
                 (mkMetadata (Some KTable) (Some (t_id t)) (Some (t_title t))
                    (Some (lit "Table " ++ t_id t ++ lit ": " ++ t_title t))
                    (part (metadata document)) (cross_references (metadata document))
                    (numerical_data (metadata document)) (extra (metadata document)))
               ∈ chunks).
  { apply list_elem_of_In, in_flat_map. exists (table_section t).
    split; [by apply list_elem_of_In|].
    unfold process_section, _process_table_section. simpl.
    apply Z.leb_le in Hlen. rewrite Hlen. by left. }
  eexists. split; [apply list_elem_of_fmap; eexists; split; [reflexivity|exact Hc]|].
  by destruct (annotate_preserves (build_table_map chunks)
    (mkDocument (t_content t)
       (mkMetadata (Some KTable) (Some (t_id t)) (Some (t_title t))
          (Some (lit "Table " ++ t_id t ++ lit ": " ++ t_title t))
          (part (metadata document)) (cross_references (metadata document))
          (numerical_data (metadata document)) (extra (metadata document)))))
    as (-> & -> & -> & -> & _).
Qed.

Lemma fitting_table_kept_whole_witness :
  mkTable (lit "1.1") (lit "Rates") (lit "### Table 1.1: Rates
|Term|APR|
|---|---|
|12mo|7.5%|
") 68 122 ∈ _extract_tables (page_content Examples.rates_document) /\
  exists c : Document,
    c ∈ _split_single_document Examples.plain_splitter Examples.rates_document /\
    chunk_type (metadata c) = Some KTable /\
    table_id (metadata c) = Some (lit "1.1").
Proof.
  assert (Hin : mkTable (lit "1.1") (lit "Rates") (lit "### Table 1.1: Rates
|Term|APR|
|---|---|
|12mo|7.5%|
") 68 122 ∈ _extract_tables (page_content Examples.rates_document)).
  { apply (list_elem_of_lookup_2 _ 0%nat). vm_compute. reflexivity. }
  split; [exact Hin|].
  destruct (fitting_table_kept_whole Examples.plain_splitter Examples.rates_document
              _ Hin) as (c & H1 & H2 & _ & H4 & _).
  - vm_compute. discriminate.
  - exists c. split; [exact H1|]. split; [exact H2|exact H4].
Defined.

(** The values of the table map are titles of table chunks. *)
Lemma table_map_values (chunks : list Document) (tid title : str) :
  build_table_map chunks !! tid = Some title ->
  exists t : Document,
    t ∈ chunks /\
    is_table_kind (chunk_type (metadata t)) = true /\
    table_id (metadata t) = Some tid /\
    title = default (lit "Unknown Table") (table_title (metadata t)).
Proof.
  unfold build_table_map.
  pose proof (fold_left_invariant table_map_step
    (fun done (m : gmap str str) => forall tid title, m !! tid = Some title ->
       exists t : Document, t ∈ done /\
         is_table_kind (chunk_type (metadata t)) = true /\
         table_id (metadata t) = Some tid /\
         title = default (lit "Unknown Table") (table_title (metadata t))) ∅)
    as Hinv.
  apply Hinv; clear Hinv tid title.
  - intros tid title H. by rewrite lookup_empty in H.
  - intros done m c IH tid title H.
    assert (Hold : m !! tid = Some title ->
      exists t : Document, t ∈ done ++ [c] /\
        is_table_kind (chunk_type (metadata t)) = true /\
        table_id (metadata t) = Some tid /\
        title = default (lit "Unknown Table") (table_title (metadata t))).
    { intros Hm. destruct (IH _ _ Hm) as (t & Ht & ?). exists t.
      split; [|done]. apply elem_of_app. by left. }
    unfold table_map_step in H.
    destruct (is_table_kind (chunk_type (metadata c))) eqn:Hkind; [|by apply Hold].
    destruct (table_id (metadata c)) as [tid'|] eqn:Hid; [|by apply Hold].
    destruct (truthy (Some tid')); [|by apply Hold].
    destruct (decide (tid' = tid)) as [->|Hne].
    + rewrite lookup_insert_eq in H. injection H as <-.
      exists c. split; [|done]. apply elem_of_app. right. by left.
    + rewrite lookup_insert_ne in H by done. by apply Hold.
Qed.

(** X17. The references of a document are resolved against the tables
    of that document: in the chunks of a document whose own metadata has
    no cross-references, every entry of every chunk names the id and the
    title of a table found in the text of the same document. *)
Theorem references_name_document_tables (self : TableAwareTextSplitter)
    (document c : Document) (refs : list CrossRef) (r : CrossRef) :
  cross_references (metadata document) = None ->
  c ∈ _split_single_document self document ->
  cross_references (metadata c) = Some refs ->
  r ∈ refs ->
  exists t : TableD,
    t ∈ _extract_tables (page_content document) /\
    referenced_table r = t_id t /\
    cr_table_title r = t_title t.
Proof.
  intros Hdoc Hc Hrefs Hr.
  unfold _split_single_document, _enhance_with_cross_references in Hc.
  set (sections := _split_around_tables _ _) in Hc.
  set (chunks := flat_map _ sections) in Hc.
  assert (Hchunk : forall c0, c0 ∈ chunks ->
    cross_references (metadata c0) = None /\
    (is_table_kind (chunk_type (metadata c0)) = true ->
     exists t, t ∈ _extract_tables (page_content document) /\
       table_id (metadata c0) = Some (t_id t) /\
       table_title (metadata c0) = Some (t_title t))).
  { intros c0 H0. apply list_elem_of_In, in_flat_map in H0 as (s & Hs & H0).
    apply list_elem_of_In in Hs, H0. unfold process_section in H0.
    destruct (s_type s) eqn:Hty.
    - assert (Hk : chunk_type (metadata c0) = Some KText
                   /\ cross_references (metadata c0) = None).
      { unfold _process_text_section in H0.
        apply list_elem_of_lookup in H0 as [j Hj].
        apply text_documents_lookup in Hj as [_ ->]. simpl. by split. }
      destruct Hk as [Hk ->]. split; [done|]. by rewrite Hk.
    - apply table_section_chunks in H0 as (_ & Hid & Htitle & Hcr).
      split; [by rewrite Hcr|]. intros _.
      destruct (table_sections_are_tables _ _ s Hs Hty) as (t & Ht & ->).
      by exists t. }
  apply list_elem_of_fmap in Hc as (c0 & -> & Hc0).
  destruct (Hchunk c0 Hc0) as [Hfresh _].
  unfold annotate in Hrefs.
  destruct (negb (is_nil (cross_refs_of (build_table_map chunks) (page_content c0))));
    [|congruence].
  simpl in Hrefs. injection Hrefs as <-.
  apply cross_refs_of_resolved in Hr.
  apply table_map_values in Hr as (t' & Ht' & Hkind & Hid & Htitle).
  destruct (Hchunk t' Ht') as [_ Htab].
  destruct (Htab Hkind) as (t & Ht & Hid' & Htitle').
  exists t. split; [done|]. rewrite Hid in Hid'. injection Hid' as ->.
  split; [done|]. by rewrite Htitle, Htitle'.
Qed.

Lemma references_name_document_tables_witness :
  Examples.rates_text_chunk
    ∈ _split_single_document Examples.plain_splitter Examples.rates_document /\
  exists t : TableD,
    t ∈ _extract_tables (page_content Examples.rates_document) /\
    lit "1.1" = t_id t /\ lit "Rates" = t_title t.
Proof.
  assert (Hin : Examples.rates_text_chunk
    ∈ _split_single_document Examples.plain_splitter Examples.rates_document).
  { apply (list_elem_of_lookup_2 _ 0%nat). vm_compute. reflexivity. }
  split; [exact Hin|].
  apply (references_name_document_tables Examples.plain_splitter
           Examples.rates_document Examples.rates_text_chunk Examples.rates_refs
           (mkCrossRef (lit "1.1") (lit "Rates") (lit "refer to Table 1.1"))
           eq_refl Hin eq_refl).
  apply (list_elem_of_lookup_2 _ 1%nat). reflexivity.
Defined.

(** ** Numeric extraction: the conversions *)

Lemma digits_value_some (s : str) :
  Forall (fun c => Re.is_digit c = true) s ->
  forall acc, exists z, Numeric.digits_value acc s = Some z.
Proof.
  induction 1 as [|c s Hc _ IH]; intros acc; simpl; [by eexists|].
  unfold Numeric.digit_value. rewrite Hc. apply IH.
Qed.

Lemma py_int_digits (s : str) :
  is_digits s -> len s <= Numeric.int_max_str_digits ->
  exists z, Numeric.py_int s = Some z.
Proof.
  intros [Hne Hs] Hlen. destruct s as [|c s]; [done|].
  unfold Numeric.py_int.
  replace (len (c :: s) >? Numeric.int_max_str_digits) with false
    by (symmetry; rewrite Z.gtb_ltb; apply Z.ltb_ge; exact Hlen).
  by apply digits_value_some.
Qed.

Lemma py_int_long (s : str) :
  Numeric.int_max_str_digits < len s -> Numeric.py_int s = None.
Proof.
  intros Hlen. destruct s as [|c s]; [done|].
  unfold Numeric.py_int.
  replace (len (c :: s) >? Numeric.int_max_str_digits) with true; [done|].
  symmetry. rewrite Z.gtb_ltb. by apply Z.ltb_lt.
Qed.

Lemma digit_not_point (c : ascii) :
  Re.is_digit c = true -> PyStr.eqb_char c "." = false.
Proof.
  intros H. apply Ascii.eqb_neq. intros ->. discriminate H.
Qed.

Lemma split_at_point_digits (ds : str) :
  Forall (fun c => Re.is_digit c = true) ds ->
  Numeric.split_at_point ds = (ds, None).
Proof.
  induction 1 as [|c s Hc _ IH]; simpl; [done|].
  by rewrite (digit_not_point c Hc), IH.
Qed.

Lemma split_at_point_fraction (ds fs : str) :
  Forall (fun c => Re.is_digit c = true) ds ->
  Numeric.split_at_point (ds ++ "."%char :: fs) = (ds, Some fs).
Proof.
  induction 1 as [|c s Hc _ IH]; simpl; [done|].
  by rewrite (digit_not_point c Hc), IH.
Qed.

(** [float] accepts digits, and digits with a point and digits after. *)
Lemma py_float_digits (ds : str) :
  is_digits ds -> exists q, Numeric.py_float ds = Some q.
Proof.
  intros Hds. unfold Numeric.py_float.
  rewrite split_at_point_digits by apply Hds.
  destruct Hds as [Hne Hds]. destruct ds as [|d ds]; [done|]. cbn [is_nil].
  destruct (digits_value_some (d :: ds) Hds 0) as (z & ->). by eexists.
Qed.

Lemma py_float_fraction (ds fs : str) :
  is_digits ds -> Forall (fun c => Re.is_digit c = true) fs ->
  exists q, Numeric.py_float (ds ++ "."%char :: fs) = Some q.
Proof.
  intros [Hne Hds] Hfs. unfold Numeric.py_float.
  rewrite split_at_point_fraction by done.
  destruct ds as [|d ds]; [done|]. cbn [is_nil andb].
  destruct (digits_value_some (d :: ds) Hds 0) as (i & ->).
  destruct (digits_value_some fs Hfs 0) as (f & ->).
  by eexists.
Qed.

Lemma traverse_some {X Y : Type} (f : X -> option Y) (l : list X) :
  Forall (fun x => exists y, f x = Some y) l ->
  exists ys, Numeric.traverse f l = Some ys.
Proof.
  induction 1 as [|x l [y Hy] _ [ys IH]]; simpl; [by eexists|].
  rewrite Hy, IH. by eexists.
Qed.

Lemma key_of_some {X Y : Type} (f : X -> option Y) (found : list X) :
  Forall (fun x => exists y, f x = Some y) found ->
  exists k, Numeric.key_of f found = Some k /\ (found = [] -> k = None).
Proof.
  intros H. unfold Numeric.key_of. destruct found as [|x found]; simpl.
  - by eexists.
  - destruct (traverse_some f (x :: found) H) as (ys & Hys).
    simpl in Hys. rewrite Hys. by eexists.
Qed.

(** ** Numeric extraction: the words of the three patterns *)

Lemma lang_opt_inv (r : Re.regex) (w : str) :
  lang (Re.opt r) w -> lang r w \/ w = [].
Proof.
  intros H. apply lang_alt_inv in H as [H|H]; [by left|].
  right. by apply lang_eps_inv.
Qed.

Lemma lang_rate_group (w : str) :
  lang (Re.group Patterns.rate_pattern) w ->
  exists ds fs : str,
    is_digits ds /\ Forall (fun c => Re.is_digit c = true) fs /\
    (w = ds ++ fs \/ w = ds ++ "."%char :: fs).
Proof.
  intros H.
  apply lang_seq_inv in H as (ds & w1 & -> & Hds & H).
  apply lang_seq_inv in H as (pt & fs & -> & Hpt & Hfs).
  apply lang_plus_digits in Hds. apply lang_star_digits in Hfs.
  exists ds, fs. split; [done|]. split; [done|].
  apply lang_opt_inv in Hpt as [Hpt| ->]; [|by left].
  apply lang_chr_inv in Hpt as (c & -> & Hc).
  apply Ascii.eqb_eq in Hc. subst c. by right.
Qed.

Lemma py_float_rate (w : str) :
  lang (Re.group Patterns.rate_pattern) w -> exists q, Numeric.py_float w = Some q.
Proof.
  intros H. apply lang_rate_group in H as (ds & fs & Hds & Hfs & [->| ->]).
  - apply py_float_digits. destruct Hds as [Hne Hds].
    split; [by destruct ds|by apply Forall_app].
  - by apply py_float_fraction.
Qed.

Lemma lang_times_digits (n : nat) (w : str) :
  lang (Re.times n Re.digit) w -> Forall (fun c => Re.is_digit c = true) w.
Proof.
  revert w. induction n as [|n IH]; intros w H.
  - apply lang_eps_inv in H as ->. constructor.
  - destruct n as [|n].
    + apply lang_chr_inv in H as (c & -> & Hc). by constructor.
    + change (Re.times (S (S n)) Re.digit)
        with (Re.Seq Re.digit (Re.times (S n) Re.digit)) in H.
      apply lang_seq_inv in H as (w1 & w2 & -> & H1 & H2).
      apply lang_chr_inv in H1 as (c & -> & Hc).
      constructor; [done|]. by apply IH.
Qed.

Lemma lang_one_to_three_digits (w : str) :
  lang (Re.one_to_three Re.digit) w -> is_digits w.
Proof.
  intros H. apply lang_seq_inv in H as (w1 & w2 & -> & H1 & H2).
  apply lang_chr_inv in H1 as (c & -> & Hc).
  split; [done|]. constructor; [done|].
  apply lang_opt_inv in H2 as [H2| ->]; [|constructor].
  apply lang_seq_inv in H2 as (w3 & w4 & -> & H3 & H4).
  apply lang_chr_inv in H3 as (c' & -> & Hc').
  constructor; [done|].
  apply lang_opt_inv in H4 as [H4| ->]; [|constructor].
  apply lang_chr_inv in H4 as (c'' & -> & Hc''). by repeat constructor.
Qed.

Lemma remove_char_digits (ds : str) :
  Forall (fun c => Re.is_digit c = true) ds -> PyStr.remove_char "," ds = ds.
Proof.
  unfold PyStr.remove_char. induction 1 as [|d ds Hd _ IH]; [done|].
  rewrite filter_cons_True.
  - by rewrite IH.
  - apply Ascii.eqb_neq. intros ->. discriminate Hd.
Qed.

(** The groups of thousands: digits once the commas are removed. *)
Lemma lang_thousands (w : str) :
  lang (Re.star (Patterns.cat [Re.chr ","; Re.times 3 Re.digit])) w ->
  Forall (fun c => Re.is_digit c = true) (PyStr.remove_char "," w).
Proof.
  unfold Re.star.
  remember (Re.Star true (Patterns.cat [Re.chr ","; Re.times 3 Re.digit])) as r eqn:Hr.
  intros H. induction H as [| | | | | |g' r' w1 w2 H1 _ H2 IH2]; try done.
  injection Hr as -> ->.
  apply lang_seq_inv in H1 as (c & ds & -> & Hc & Hds).
  apply lang_chr_inv in Hc as (x & -> & Hx). apply Ascii.eqb_eq in Hx. subst x.
  apply (lang_times_digits 3) in Hds.
  unfold PyStr.remove_char in *. rewrite !filter_app. apply Forall_app.
  split; [|by apply IH2].
  simpl. fold (PyStr.remove_char "," ds). by rewrite remove_char_digits.
Qed.

Lemma py_float_amount (w : str) :
  lang (Re.group Patterns.dollar_pattern) w ->
  exists q, Numeric.py_float (PyStr.remove_char "," w) = Some q.
Proof.
  intros H.
  apply lang_seq_inv in H as (ds & w1 & -> & Hds & H).
  apply lang_seq_inv in H as (gs & fs & -> & Hgs & Hfs).
  apply lang_one_to_three_digits in Hds. apply lang_thousands in Hgs.
  assert (Hint : is_digits (PyStr.remove_char "," ds ++ PyStr.remove_char "," gs)).
  { destruct Hds as [Hne Hds]. rewrite remove_char_digits by done.
    split; [by destruct ds|by apply Forall_app]. }
  unfold PyStr.remove_char in *. rewrite !filter_app.
  apply lang_opt_inv in Hfs as [Hfs| ->].
  - apply lang_seq_inv in Hfs as (c & cents & -> & Hc & Hcents).
    apply lang_chr_inv in Hc as (x & -> & Hx). apply Ascii.eqb_eq in Hx. subst x.
    apply (lang_times_digits 2) in Hcents.
    simpl. rewrite filter_cons_True by done.
    fold (PyStr.remove_char "," cents). rewrite remove_char_digits by done.
    rewrite app_assoc. by apply py_float_fraction.
  - rewrite filter_nil, app_nil_r. by apply py_float_digits.
Qed.

Lemma py_int_term (w : str) :
  lang (Re.group Patterns.term_pattern) w ->
  len w <= Numeric.int_max_str_digits ->
  exists z, Numeric.py_int w = Some z.
Proof. intros H Hlen. by apply py_int_digits; [apply lang_plus_digits|]. Qed.

Lemma traverse_none {X Y : Type} (f : X -> option Y) (l : list X) :
  Exists (fun x => f x = None) l -> Numeric.traverse f l = None.
Proof.
  induction 1 as [x l Hx|x l _ IH]; simpl.
  - by rewrite Hx.
  - destruct (f x); [|done]. simpl. by rewrite IH.
Qed.

Lemma key_of_none {X Y : Type} (f : X -> option Y) (found : list X) :
  Exists (fun x => f x = None) found -> Numeric.key_of f found = None.
Proof.
  intros H. unfold Numeric.key_of. destruct found as [|x found].
  - by apply Exists_nil in H.
  - cbn [is_nil]. by rewrite traverse_none.
Qed.

Lemma findall_groups (p : Re.pattern) (s : str) :
  Forall (lang (Re.group p)) (Re.findall p s).
Proof.
  unfold Re.findall, Re.finditer. apply Forall_fmap.
  apply (scan_groups p s 0 0).
Qed.

(** ** Numeric extraction: what it does to a document *)

Lemma extract_numerical_data_some (document : Document) :
  terms_convertible (page_content document) ->
  exists d : Document,
    Numeric._extract_numerical_data document = Some d /\
    page_content d = page_content document /\
    chunk_type (metadata d) = chunk_type (metadata document) /\
    table_id (metadata d) = table_id (metadata document) /\
    table_title (metadata d) = table_title (metadata document) /\
    context (metadata d) = context (metadata document) /\
    part (metadata d) = part (metadata document) /\
    cross_references (metadata d) = cross_references (metadata document) /\
    extra (metadata d) = extra (metadata document).
Proof.
  intros Hterms. unfold Numeric._extract_numerical_data.
  destruct (key_of_some Numeric.py_float
              (Re.findall Patterns.rate_pattern (page_content document)))
    as (r & -> & _).
  { eapply Forall_impl; [apply findall_groups|]. apply py_float_rate. }
  destruct (key_of_some (fun amount => Numeric.py_float (PyStr.remove_char "," amount))
              (Re.findall Patterns.dollar_pattern (page_content document)))
    as (a & -> & _).
  { eapply Forall_impl; [apply findall_groups|]. apply py_float_amount. }
  destruct (key_of_some Numeric.py_int
              (Re.findall Patterns.term_pattern (page_content document)))
    as (t & -> & _).
  { pose proof (findall_groups Patterns.term_pattern (page_content document)) as Hl.
    unfold terms_convertible in Hterms.
    induction Hl as [|w ws Hw _ IH]; [constructor|].
    apply Forall_cons in Hterms as [Hlen Hterms].
    constructor; [by apply py_int_term|by apply IH]. }
  simpl. eexists. split; [reflexivity|].
  by destruct (negb _).
Qed.

Lemma extract_numerical_data_none (document : Document) :
  ~ terms_convertible (page_content document) ->
  Numeric._extract_numerical_data document = None.
Proof.
  intros Hterms. unfold Numeric._extract_numerical_data.
  destruct (key_of_some Numeric.py_float
              (Re.findall Patterns.rate_pattern (page_content document)))
    as (r & -> & _).
  { eapply Forall_impl; [apply findall_groups|]. apply py_float_rate. }
  destruct (key_of_some (fun amount => Numeric.py_float (PyStr.remove_char "," amount))
              (Re.findall Patterns.dollar_pattern (page_content document)))
    as (a & -> & _).
  { eapply Forall_impl; [apply findall_groups|]. apply py_float_amount. }
  rewrite key_of_none; [done|].
  unfold terms_convertible in Hterms.
  apply not_Forall_Exists in Hterms; [|intros term; apply Z_le_dec].
  eapply Exists_impl; [exact Hterms|].
  intros term Hlong. apply py_int_long. simpl in Hlong. lia.
Qed.

Lemma terms_convertible_dec (content : str) :
  {terms_convertible content} + {~ terms_convertible content}.
Proof. apply Forall_dec. intros term. apply Z_le_dec. Qed.

Lemma extract_numerical_data_spec (document : Document) :
  match Numeric._extract_numerical_data document with
  | Some d =>
      terms_convertible (page_content document) /\
      page_content d = page_content document /\
      chunk_type (metadata d) = chunk_type (metadata document) /\
      table_id (metadata d) = table_id (metadata document) /\
      table_title (metadata d) = table_title (metadata document) /\
      context (metadata d) = context (metadata document) /\
      part (metadata d) = part (metadata document) /\
      cross_references (metadata d) = cross_references (metadata document) /\
      extra (metadata d) = extra (metadata document)
  | None => ~ terms_convertible (page_content document)
  end.
Proof.
  destruct (terms_convertible_dec (page_content document)) as [Hterms|Hterms].
  - destruct (extract_numerical_data_some document Hterms) as (d & -> & H).
    by split.
  - by rewrite extract_numerical_data_none.
Qed.

(** X18. Numeric extraction raises in one case only: when the term
    pattern captures a run of more than 4300 digits, which [int]
    refuses to convert; [float] accepts whatever the rate and the
    dollar patterns capture. When it returns, the document has the same
    content and the same metadata except for the [numerical_data]
    key. *)
Theorem numeric_extraction_outcome (document : Document) :
  match Numeric._extract_numerical_data document with
  | Some d =>
      terms_convertible (page_content document) /\
      page_content d = page_content document /\
      chunk_type (metadata d) = chunk_type (metadata document) /\
      table_id (metadata d) = table_id (metadata document) /\
      table_title (metadata d) = table_title (metadata document) /\
      context (metadata d) = context (metadata document) /\
      part (metadata d) = part (metadata document) /\
      cross_references (metadata d) = cross_references (metadata document) /\
      extra (metadata d) = extra (metadata document)
  | None => ~ terms_convertible (page_content document)
  end.
Proof. apply extract_numerical_data_spec. Qed.

Lemma is_digits_has_digit (ds : str) :
  is_digits ds -> Exists (fun c => Re.is_digit c = true) ds.
Proof.
  intros [Hne Hds]. destruct ds as [|d ds]; [done|].
  apply Forall_cons in Hds as [Hd _]. by left.
Qed.

Lemma numeric_groups_have_digit (w : str) :
  lang (Re.group Patterns.rate_pattern) w \/
  lang (Re.group Patterns.dollar_pattern) w \/
  lang (Re.group Patterns.term_pattern) w ->
  Exists (fun c => Re.is_digit c = true) w.
Proof.
  intros [H|[H|H]].
  - apply lang_seq_inv in H as (ds & w1 & -> & Hds & _).
    apply Exists_app. left. by apply is_digits_has_digit, lang_plus_digits.
  - apply lang_seq_inv in H as (ds & w1 & -> & Hds & _).
    apply Exists_app. left. by apply is_digits_has_digit, lang_one_to_three_digits.
  - by apply is_digits_has_digit, lang_plus_digits.
Qed.

Lemma findall_without_digit (p : Re.pattern) (content : str) :
  (forall w, lang (Re.group p) w -> Exists (fun c => Re.is_digit c = true) w) ->
  Forall (fun c => Re.is_digit c = false) content ->
  Re.findall p content = [].
Proof.
  intros Hp Hc.
  pose proof (findall_groups p content) as Hl.
  assert (Hin : Forall (Forall (fun c => Re.is_digit c = false))
                  (Re.findall p content)).
  { unfold Re.findall, Re.finditer. apply Forall_fmap.
    apply (scan_groups_within _ p content Hc 0%nat 0%nat). }
  destruct (Re.findall p content) as [|w ws]; [done|].
  apply Forall_cons in Hl as [Hl _]. apply Forall_cons in Hin as [Hin _].
  apply Hp in Hl. apply Exists_exists in Hl as (c & Hcw & Hd).
  rewrite Forall_forall in Hin. specialize (Hin c Hcw). congruence.
Qed.

(** X19. A document whose content has no digit is returned as it is: no
    [numerical_data] key is written. *)
Theorem numeric_extraction_without_digit (document : Document) :
  Forall (fun c => Re.is_digit c = false) (page_content document) ->
  Numeric._extract_numerical_data document = Some document.
Proof.
  intros Hc. unfold Numeric._extract_numerical_data.
  rewrite !findall_without_digit;
    auto using numeric_groups_have_digit.
Qed.

Lemma numeric_extraction_without_digit_witness :
  Forall (fun c => Re.is_digit c = false) (lit "Rates are subject to change.") /\
  Numeric._extract_numerical_data
    (mkDocument (lit "Rates are subject to change.") empty_metadata)
  = Some (mkDocument (lit "Rates are subject to change.") empty_metadata).
Proof.
  assert (H : Forall (fun c => Re.is_digit c = false)
                (lit "Rates are subject to change.")).
  { repeat (constructor; [reflexivity|]). constructor. }
  split; [exact H|].
  apply (numeric_extraction_without_digit
           (mkDocument (lit "Rates are subject to change.") empty_metadata) H).
Defined.

(** ** The loader: content types *)

Lemma traverse_lookup {X Y : Type} (f : X -> option Y) (l : list X) (ys : list Y) :
  Numeric.traverse f l = Some ys ->
  length ys = length l /\
  forall (i : nat) (x : X), l !! i = Some x ->
    exists y, ys !! i = Some y /\ f x = Some y.
Proof.
  revert ys. induction l as [|x l IH]; intros ys H; simpl in H.
  - injection H as <-. split; [done|]. intros i x H. done.
  - destruct (f x) as [y|] eqn:Hy; [|done]. simpl in H.
    destruct (Numeric.traverse f l) as [ys'|]; [|done]. simpl in H.
    injection H as <-. destruct (IH ys' eq_refl) as [Hlen Hl].
    split; [simpl; by rewrite Hlen|].
    intros [|i] x' Hx; simpl in *.
    + injection Hx as <-. by exists y.
    + by apply Hl.
Qed.

(** The string made of the content types is read back as these types. *)
Lemma tags_round_trip (b1 b2 b3 b4 b5 : bool) :
  List.filter (fun ct => negb (is_nil (PyStr.strip ct)))
    (Loader.split_str (lit ", ") (PyStr.join (lit ", ") (tags_from b1 b2 b3 b4 b5)))
  = tags_from b1 b2 b3 b4 b5.
Proof. destruct b1, b2, b3, b4, b5; vm_compute; reflexivity. Qed.

Lemma content_types_of_tags (doc : Document) :
  exists b1 b2 b3 b5 : bool,
    Loader.content_types_of doc
    = tags_from b1 b2 b3 (is_table_kind (chunk_type (metadata doc))) b5.
Proof. unfold Loader.content_types_of. by eexists _, _, _, _. Qed.

Lemma traverse_none_inv {X Y : Type} (f : X -> option Y) (l : list X) :
  Numeric.traverse f l = None -> Exists (fun x => f x = None) l.
Proof.
  induction l as [|x l IH]; simpl; [done|].
  destruct (f x) as [y|] eqn:Hy; [|by left]. simpl.
  destruct (Numeric.traverse f l); [done|]. intros _. right. by apply IH.
Qed.

Lemma enhance_one_spec (doc : Document) :
  match Loader.enhance_one doc with
  | Some d =>
      terms_convertible (page_content doc) /\
      page_content d = page_content doc /\
      chunk_type (metadata d) = chunk_type (metadata doc) /\
      table_id (metadata d) = table_id (metadata doc) /\
      table_title (metadata d) = table_title (metadata doc) /\
      context (metadata d) = context (metadata doc) /\
      part (metadata d) = part (metadata doc) /\
      cross_references (metadata d) = cross_references (metadata doc) /\
      extra (metadata d)
      = <[lit "content_types" := PyStr.join (lit ", ") (Loader.content_types_of doc)]>
          (extra (metadata doc))
  | None => ~ terms_convertible (page_content doc)
  end.
Proof.
  unfold Loader.enhance_one.
  pose proof (extract_numerical_data_spec
                (Loader.set_extra (lit "content_types")
                   (PyStr.join (lit ", ") (Loader.content_types_of doc)) doc)) as H.
  destruct (Numeric._extract_numerical_data _) as [d|]; simpl in H; [|exact H].
  by destruct H as (Ht & -> & -> & -> & -> & -> & -> & -> & ->).
Qed.

Lemma enhance_banking_metadata_spec (documents : list Document) :
  match Loader._enhance_banking_metadata documents with
  | Some enhanced =>
      Forall (fun doc => terms_convertible (page_content doc)) documents /\
      length enhanced = length documents /\
      forall (i : nat) (doc : Document),
        documents !! i = Some doc ->
        exists d : Document,
          enhanced !! i = Some d /\
          page_content d = page_content doc /\
          chunk_type (metadata d) = chunk_type (metadata doc) /\
          table_id (metadata d) = table_id (metadata doc) /\
          cross_references (metadata d) = cross_references (metadata doc) /\
          extra (metadata d)
          = <[lit "content_types" := PyStr.join (lit ", ") (Loader.content_types_of doc)]>
              (extra (metadata doc)) /\
          Loader.content_types_read d = Loader.content_types_of doc
  | None =>
      Exists (fun doc => ~ terms_convertible (page_content doc)) documents
  end.
Proof.
  unfold Loader._enhance_banking_metadata.
  destruct (Numeric.traverse Loader.enhance_one documents) as [enhanced|] eqn:Henh.
  - destruct (traverse_lookup _ _ _ Henh) as [Hlen Hl].
    assert (Hall : forall (i : nat) (doc : Document),
              documents !! i = Some doc ->
              terms_convertible (page_content doc) /\
              exists d : Document,
                enhanced !! i = Some d /\
                page_content d = page_content doc /\
                chunk_type (metadata d) = chunk_type (metadata doc) /\
                table_id (metadata d) = table_id (metadata doc) /\
                cross_references (metadata d) = cross_references (metadata doc) /\
                extra (metadata d)
                = <[lit "content_types" :=
                      PyStr.join (lit ", ") (Loader.content_types_of doc)]>
                    (extra (metadata doc)) /\
                Loader.content_types_read d = Loader.content_types_of doc).
    { intros i doc Hdoc. destruct (Hl i doc Hdoc) as (d & Hd & Hone).
      pose proof (enhance_one_spec doc) as Hs. rewrite Hone in Hs.
      destruct Hs as (Ht & Hc & Hk & Hid & _ & _ & _ & Hcr & Hex).
      split; [done|]. exists d. repeat (split; [done|]).
      unfold Loader.content_types_read. rewrite Hex, lookup_insert_eq. simpl.
      destruct (content_types_of_tags doc) as (b1 & b2 & b3 & b5 & ->).
      apply tags_round_trip. }
    split; [|split; [done|]].
    + apply Forall_lookup. intros i doc Hdoc. by destruct (Hall i doc Hdoc).
    + intros i doc Hdoc. by destruct (Hall i doc Hdoc).
  - apply traverse_none_inv in Henh.
    eapply Exists_impl; [exact Henh|]. intros doc Hnone. simpl in Hnone.
    pose proof (enhance_one_spec doc) as Hs. by rewrite Hnone in Hs.
Qed.


(** ** The loader: the keys of a file on its chunks *)

Lemma process_table_section_extra (self : TableAwareTextSplitter) (section : SectionD)
    (base_metadata : Metadata) (c : Document) :
  c ∈ _process_table_section self section base_metadata ->
  extra (metadata c) = extra base_metadata.
Proof.
  unfold _process_table_section.
  destruct (len (s_content section) <=? chunk_size self).
  - intros H. apply list_elem_of_singleton in H as ->. done.
  - intros H.
    destruct (split_large_table_groups self section base_metadata)
      as (groups & Heq & _).
    rewrite Heq in H. apply list_elem_of_lookup in H as [i Hi].
    rewrite list_lookup_imap in Hi.
    destruct (groups !! i); [|done]. by injection Hi as <-.
Qed.

Lemma process_text_section_extra (self : TableAwareTextSplitter) (section : SectionD)
    (base_metadata : Metadata) (c : Document) :
  c ∈ _process_text_section self section base_metadata ->
  extra (metadata c) = extra base_metadata.
Proof.
  unfold _process_text_section. intros H.
  apply list_elem_of_lookup in H as [j Hj].
  apply text_documents_lookup in Hj as [_ ->]. done.
Qed.

Lemma annotate_extra (table_map : gmap str str) (c : Document) :
  extra (metadata (annotate table_map c)) = extra (metadata c).
Proof.
  unfold annotate. by destruct (cross_refs_of table_map (page_content c)).
Qed.

Lemma split_single_document_extra (self : TableAwareTextSplitter)
    (document c : Document) :
  c ∈ _split_single_document self document ->
  extra (metadata c) = extra (metadata document).
Proof.
  unfold _split_single_document, _enhance_with_cross_references. intros H.
  apply list_elem_of_fmap in H as (c0 & -> & H). rewrite annotate_extra.
  apply list_elem_of_In, in_flat_map in H as (s & _ & H).
  apply list_elem_of_In in H. unfold process_section in H.
  destruct (s_type s).
  - by apply process_text_section_extra in H.
  - by apply process_table_section_extra in H.
Qed.

Lemma load_single_file_spec (table_splitter : TableAwareTextSplitter)
    (file_name file_path : str) (clock : nat -> str) (raw_documents : list Document) :
  let chunked_documents :=
    split_documents table_splitter
      (imap (fun i doc =>
               Loader.add_file_metadata file_name file_path (clock i) doc)
         raw_documents) in
  match Loader._load_single_file table_splitter file_name file_path clock raw_documents
  with
  | Some chunks =>
      Forall (fun c => terms_convertible (page_content c)) chunked_documents /\
      length chunks = length chunked_documents /\
      forall c : Document,
        c ∈ chunks ->
        let info := Loader._identify_document_type file_name in
        extra (metadata c) !! lit "source_file" = Some file_name /\
        extra (metadata c) !! lit "file_path" = Some file_path /\
        extra (metadata c) !! lit "document_type" = Some (Loader.dt_type info) /\
        extra (metadata c) !! lit "contains_topics"
        = Some (PyStr.join (lit ", ") (Loader.dt_contains info)) /\
        extra (metadata c) !! lit "priority_level" = Some (Loader.dt_priority info) /\
        exists i : nat,
          (i < length raw_documents)%nat /\
          extra (metadata c) !! lit "load_timestamp" = Some (clock i)
  | None =>
      Exists (fun c => ~ terms_convertible (page_content c)) chunked_documents
  end.
Proof.
  unfold Loader._load_single_file.
  set (raws := imap _ raw_documents). cbv zeta.
  pose proof (enhance_banking_metadata_spec (split_documents table_splitter raws))
    as Hs.
  destruct (Loader._enhance_banking_metadata (split_documents table_splitter raws))
    as [chunks|]; [|exact Hs].
  destruct Hs as (Hall & Hlen & Hl). split; [done|]. split; [done|].
  intros c Hc. apply list_elem_of_lookup in Hc as [j Hj].
  destruct (lookup_lt_is_Some_2 (split_documents table_splitter raws) j)
    as [c0 Hc0].
  { rewrite <- Hlen. by eapply lookup_lt_Some. }
  destruct (Hl j c0 Hc0) as (c' & Hc' & _ & _ & _ & _ & Hex & _).
  rewrite Hj in Hc'. injection Hc' as <-. rewrite Hex.
  apply list_elem_of_lookup_2 in Hc0. unfold split_documents in Hc0.
  apply list_elem_of_In, in_flat_map in Hc0 as (raw & Hraw & Hc0).
  apply list_elem_of_In in Hc0. apply split_single_document_extra in Hc0.
  rewrite Hc0.
  apply list_elem_of_In, list_elem_of_lookup in Hraw as [i Hi].
  unfold raws in Hi. rewrite list_lookup_imap in Hi.
  destruct (raw_documents !! i) as [d|] eqn:Hd; [|done].
  injection Hi as <-. simpl.
  repeat split.
  1-5: repeat (rewrite lookup_insert_ne by (by vm_compute));
       by rewrite lookup_insert_eq.
  exists i. split; [by eapply lookup_lt_Some|].
  repeat (rewrite lookup_insert_ne by (by vm_compute)).
  by rewrite lookup_insert_eq.
Qed.

(** X21. Loading a file, once the file is read, raises in one case
    only: when, in some chunk of the split, the term pattern captures a
    run of more than 4300 digits. When it returns, there is one chunk
    for each chunk of the split, and every chunk carries the keys
    written to the raw documents: the file name and path, the type,
    topics and priority that [_identify_document_type] gives for the
    file name, and the timestamp of one of the raw documents. *)
Theorem load_single_file_keys (table_splitter : TableAwareTextSplitter)
    (file_name file_path : str) (clock : nat -> str) (raw_documents : list Document) :
  let chunked_documents :=
    split_documents table_splitter
      (imap (fun i doc =>
               Loader.add_file_metadata file_name file_path (clock i) doc)
         raw_documents) in
  match Loader._load_single_file table_splitter file_name file_path clock raw_documents
  with
  | Some chunks =>
      Forall (fun c => terms_convertible (page_content c)) chunked_documents /\
      length chunks = length chunked_documents /\
      forall c : Document,
        c ∈ chunks ->
        let info := Loader._identify_document_type file_name in
        extra (metadata c) !! lit "source_file" = Some file_name /\
        extra (metadata c) !! lit "file_path" = Some file_path /\
        extra (metadata c) !! lit "document_type" = Some (Loader.dt_type info) /\
        extra (metadata c) !! lit "contains_topics"
        = Some (PyStr.join (lit ", ") (Loader.dt_contains info)) /\
        extra (metadata c) !! lit "priority_level" = Some (Loader.dt_priority info) /\
        exists i : nat,
          (i < length raw_documents)%nat /\
          extra (metadata c) !! lit "load_timestamp" = Some (clock i)
  | None =>
      Exists (fun c => ~ terms_convertible (page_content c)) chunked_documents
  end.
Proof. apply load_single_file_spec. Qed.

(** ** The loader: the counts of the summary *)

Lemma occurrences_cons (k a : str) (keys : list str) :
  occurrences k (a :: keys)
  = (if bool_decide (a = k) then 1 else 0) + occurrences k keys.
Proof.
  unfold occurrences. cbn [List.filter].
  destruct (bool_decide (a = k)); cbn [length]; lia.
Qed.

Lemma occurrences_app (k : str) (l1 l2 : list str) :
  occurrences k (l1 ++ l2) = occurrences k l1 + occurrences k l2.
Proof.
  induction l1 as [|a l1 IH]; [done|].
  rewrite <- app_comm_cons, !occurrences_cons, IH. lia.
Qed.

Lemma occurrences_nonneg (k : str) (keys : list str) : 0 <= occurrences k keys.
Proof. unfold occurrences. lia. Qed.

Lemma occurrences_not_elem (k : str) (keys : list str) :
  k ∉ keys -> occurrences k keys = 0.
Proof.
  induction keys as [|a keys IH]; [done|]. intros H.
  apply not_elem_of_cons in H as [H1 H2].
  rewrite occurrences_cons, IH by done.
  by rewrite bool_decide_eq_false_2.
Qed.

Lemma occurrences_NoDup (k : str) (keys : list str) :
  NoDup keys ->
  occurrences k keys = if bool_decide (k ∈ keys) then 1 else 0.
Proof.
  induction 1 as [|a keys Ha Hnd IH]; [done|].
  rewrite occurrences_cons. destruct (decide (a = k)) as [->|Hne].
  - rewrite bool_decide_eq_true_2 by done.
    rewrite occurrences_not_elem by done.
    rewrite bool_decide_eq_true_2 by apply list_elem_of_here. done.
  - rewrite bool_decide_eq_false_2 by done. rewrite IH.
    destruct (decide (k ∈ keys)) as [Hin|Hnin].
    + rewrite !bool_decide_eq_true_2; [done| |done]. by apply list_elem_of_further.
    + rewrite !bool_decide_eq_false_2; [done| |done].
      intros Hin. apply elem_of_cons in Hin as [->|Hin]; done.
Qed.

(** The counter after a run over the keys. *)
Lemma fold_count_up (keys : list str) (counts : gmap str Z) (k : str) :
  fold_left (fun counts ct => Loader.count_up ct counts) keys counts !! k
  = if occurrences k keys =? 0 then counts !! k
    else Some (default 0 (counts !! k) + occurrences k keys).
Proof.
  revert counts. induction keys as [|a keys IH]; intros counts; [done|].
  cbn [fold_left]. rewrite IH, occurrences_cons.
  pose proof (occurrences_nonneg k keys) as Hk.
  unfold Loader.count_up. destruct (decide (a = k)) as [->|Hne].
  - rewrite bool_decide_eq_true_2 by done. rewrite lookup_insert_eq. simpl.
    destruct (1 + occurrences k keys =? 0) eqn:H1; [apply Z.eqb_eq in H1; lia|].
    destruct (occurrences k keys =? 0) eqn:H0.
    + apply Z.eqb_eq in H0. rewrite H0. f_equal; lia.
    + f_equal; lia.
  - rewrite bool_decide_eq_false_2 by done. rewrite lookup_insert_ne by done.
    by rewrite Z.add_0_l.
Qed.

Lemma fold_count_up_empty (keys : list str) (k : str) :
  fold_left (fun counts ct => Loader.count_up ct counts) keys ∅ !! k
  = counted (occurrences k keys).
Proof.
  rewrite fold_count_up, lookup_empty. unfold counted. simpl.
  by destruct (occurrences k keys =? 0).
Qed.

(** The two counters of the summary loop. *)
Lemma summary_loop_counts (documents : list Document) (st : gmap str Z * gmap str Z) :
  fold_left Loader.summary_loop_step documents st
  = (fold_left (fun counts ct => Loader.count_up ct counts)
       (map document_type_of documents) st.1,
     fold_left (fun counts ct => Loader.count_up ct counts)
       (flat_map Loader.content_types_read documents) st.2).
Proof.
  revert st. induction documents as [|doc documents IH]; intros [t c]; [done|].
  cbn [fold_left map flat_map]. rewrite IH. unfold Loader.summary_loop_step.
  cbn [fst snd]. by rewrite fold_left_app.
Qed.

Lemma summary_document_types (documents : list Document) (ty : str) :
  Loader.document_types (Loader.get_document_summary documents) !! ty
  = counted (occurrences ty (map document_type_of documents)).
Proof.
  unfold Loader.get_document_summary. rewrite summary_loop_counts.
  cbn [Loader.document_types fst]. apply fold_count_up_empty.
Qed.

Lemma summary_content_types (documents : list Document) (tag : str) :
  Loader.content_types (Loader.get_document_summary documents) !! tag
  = counted (occurrences tag (flat_map Loader.content_types_read documents)).
Proof.
  unfold Loader.get_document_summary. rewrite summary_loop_counts.
  cbn [Loader.content_types snd]. apply fold_count_up_empty.
Qed.

(** X22. The summary and the filter by type agree on every type but
    "unknown": [document_types] has an entry for a type exactly when
    some document has it, with the number of documents that
    [get_documents_by_type] returns. Under "unknown" the summary also
    counts the documents without a [document_type] key, which the filter
    never returns. *)
Theorem summary_counts_documents_by_type (documents : list Document) (ty : str) :
  Loader.document_types (Loader.get_document_summary documents) !! ty
  = counted
      (Z.of_nat (length (Loader.get_documents_by_type documents ty))
       + (if bool_decide (ty = lit "unknown")
          then Z.of_nat
                 (length
                    (List.filter
                       (fun doc =>
                          bool_decide (extra (metadata doc) !! lit "document_type" = None))
                       documents))
          else 0)).
Proof.
  rewrite summary_document_types. f_equal.
  unfold Loader.get_documents_by_type.
  induction documents as [|doc documents IH].
  - unfold occurrences. cbn [map List.filter length].
    by destruct (bool_decide (ty = lit "unknown")).
  - cbn [map]. rewrite occurrences_cons, IH. clear IH.
    cbn [List.filter]. unfold document_type_of.
    destruct (extra (metadata doc) !! lit "document_type") as [v|].
    + change (default (lit "unknown") (Some v)) with v.
      rewrite (bool_decide_eq_false_2 (Some v = None)) by done.
      destruct (decide (v = ty)) as [->|Hne].
      * rewrite (bool_decide_eq_true_2 (ty = ty)) by done.
        rewrite (bool_decide_eq_true_2 (Some ty = Some ty)) by done.
        cbn [length]. lia.
      * rewrite (bool_decide_eq_false_2 (v = ty)) by done.
        rewrite (bool_decide_eq_false_2 (Some v = Some ty)) by congruence. lia.
    + change (default (lit "unknown") None) with (lit "unknown").
      rewrite (bool_decide_eq_false_2 (None = Some ty)) by done.
      rewrite (bool_decide_eq_true_2 (None = None)) by done.
      destruct (decide (ty = lit "unknown")) as [->|Hne].
      * rewrite (bool_decide_eq_true_2 (lit "unknown" = lit "unknown")) by done.
        cbn [length]. lia.
      * rewrite (bool_decide_eq_false_2 (lit "unknown" = ty)) by congruence.
        rewrite (bool_decide_eq_false_2 (ty = lit "unknown")) by done. lia.
Qed.

Lemma tags_from_NoDup (b1 b2 b3 b4 b5 : bool) : NoDup (tags_from b1 b2 b3 b4 b5).
Proof.
  apply (bool_decide_unpack (NoDup (tags_from b1 b2 b3 b4 b5))).
  destruct b1, b2, b3, b4, b5; vm_compute; exact I.
Qed.

Lemma tabular_data_tag (b1 b2 b3 b4 b5 : bool) :
  bool_decide (lit "tabular_data" ∈ tags_from b1 b2 b3 b4 b5) = b4.
Proof. destruct b1, b2, b3, b4, b5; vm_compute; reflexivity. Qed.

Lemma enhanced_content_types (documents enhanced : list Document) (tag : str) :
  Loader._enhance_banking_metadata documents = Some enhanced ->
  occurrences tag (flat_map Loader.content_types_read enhanced)
  = Z.of_nat
      (length
         (List.filter (fun doc => bool_decide (tag ∈ Loader.content_types_of doc))
            documents)).
Proof.
  intros He.
  pose proof (enhance_banking_metadata_spec documents) as Hs.
  rewrite He in Hs. destruct Hs as (_ & Hlen & H).
  clear He. revert enhanced Hlen H.
  induction documents as [|doc documents IH]; intros [|d enhanced] Hlen H;
    try discriminate Hlen; [done|].
  cbn [flat_map List.filter]. rewrite occurrences_app.
  destruct (H 0%nat doc eq_refl) as (d' & Hd' & _ & _ & _ & _ & _ & Hread).
  injection Hd' as <-. rewrite Hread.
  rewrite (IH enhanced).
  - destruct (content_types_of_tags doc) as (b1 & b2 & b3 & b5 & ->).
    rewrite occurrences_NoDup by apply tags_from_NoDup.
    destruct (bool_decide (tag ∈ _)); cbn [length]; lia.
  - simpl in Hlen. lia.
  - intros i doc' Hi. apply (H (S i) doc' Hi).
Qed.

(** X23. The summary of enhanced chunks counts each content type once
    for every chunk that has it: after [_enhance_banking_metadata], the
    entry of a type in [content_types] is the number of chunks whose
    list of content types holds it, and there is no entry when no chunk
    does. *)
Theorem summary_counts_content_types (documents enhanced : list Document) (tag : str) :
  Loader._enhance_banking_metadata documents = Some enhanced ->
  Loader.content_types (Loader.get_document_summary enhanced) !! tag
  = counted
      (Z.of_nat
         (length
            (List.filter (fun doc => bool_decide (tag ∈ Loader.content_types_of doc))
               documents))).
Proof.
  intros He. rewrite summary_content_types. f_equal.
  by apply enhanced_content_types.
Qed.

Lemma summary_counts_content_types_witness :
  exists enhanced : list Document,
    Loader._enhance_banking_metadata
      [mkDocument (lit "The APR is 5% with monthly Payment") empty_metadata;
       mkDocument (lit "FDIC requirement") empty_metadata;
       mkDocument (lit "A fee of $25") empty_metadata]
    = Some enhanced /\
    Loader.content_types (Loader.get_document_summary enhanced) !! lit "rates_pricing"
    = Some 2.
Proof.
  destruct (Loader._enhance_banking_metadata
              [mkDocument (lit "The APR is 5% with monthly Payment") empty_metadata;
               mkDocument (lit "FDIC requirement") empty_metadata;
               mkDocument (lit "A fee of $25") empty_metadata])
    as [enhanced|] eqn:He; [|vm_compute in He; discriminate He].
  exists enhanced. split; [reflexivity|].
  rewrite (summary_counts_content_types _ _ (lit "rates_pricing") He).
  vm_compute. reflexivity.
Defined.

(** X24. In the summary of enhanced chunks, "tabular_data" counts the
    table chunks: its entry is the number of chunks that
    [get_documents_with_tables] returns, and it is absent when there is
    no table chunk. *)
Theorem summary_counts_table_chunks (documents enhanced : list Document) :
  Loader._enhance_banking_metadata documents = Some enhanced ->
  Loader.content_types (Loader.get_document_summary enhanced) !! lit "tabular_data"
  = counted (Z.of_nat (length (Loader.get_documents_with_tables enhanced))).
Proof.
  intros He. rewrite summary_content_types. f_equal.
  rewrite (enhanced_content_types _ _ _ He). f_equal.
  pose proof (enhance_banking_metadata_spec documents) as Hs.
  rewrite He in Hs. destruct Hs as (_ & Hlen & H).
  clear He. unfold Loader.get_documents_with_tables. revert enhanced Hlen H.
  induction documents as [|doc documents IH]; intros [|d enhanced] Hlen H;
    try discriminate Hlen; [done|].
  cbn [List.filter].
  destruct (H 0%nat doc eq_refl) as (d' & Hd' & _ & Hkind & _).
  injection Hd' as <-. rewrite Hkind.
  destruct (content_types_of_tags doc) as (b1 & b2 & b3 & b5 & ->).
  rewrite tabular_data_tag.
  assert (IH' : length
                  (List.filter
                     (fun doc => bool_decide (lit "tabular_data" ∈ Loader.content_types_of doc))
                     documents)
                = length
                    (List.filter (fun doc => is_table_kind (chunk_type (metadata doc)))
                       enhanced)).
  { apply IH; [simpl in Hlen; lia|].
    intros i doc' Hi. apply (H (S i) doc' Hi). }
  destruct (is_table_kind (chunk_type (metadata doc))); cbn [length]; by rewrite IH'.
Qed.

Lemma summary_counts_table_chunks_witness :
  exists enhanced : list Document,
    Loader._enhance_banking_metadata
      [mkDocument (lit "| Wire | $25 |")
         (mkMetadata (Some KTable) (Some (lit "1.1")) None None None None None ∅);
       mkDocument (lit "Plain words") empty_metadata;
       mkDocument (lit "| Card | $5 |")
         (mkMetadata (Some KTablePart) (Some (lit "1.2")) None None None None None ∅)]
    = Some enhanced /\
    Loader.content_types (Loader.get_document_summary enhanced) !! lit "tabular_data"
    = Some 2.
Proof.
  destruct (Loader._enhance_banking_metadata
      [mkDocument (lit "| Wire | $25 |")
         (mkMetadata (Some KTable) (Some (lit "1.1")) None None None None None ∅);
       mkDocument (lit "Plain words") empty_metadata;
       mkDocument (lit "| Card | $5 |")
         (mkMetadata (Some KTablePart) (Some (lit "1.2")) None None None None None ∅)])
    as [enhanced|] eqn:He; [|vm_compute in He; discriminate He].
  exists enhanced. split; [reflexivity|].
  rewrite (summary_counts_table_chunks _ _ He).
  vm_compute in He. injection He as <-.
  vm_compute. reflexivity.
Defined.

(** ** Substrings *)

Lemma startswith_spec (p s : str) :
  PyStr.startswith p s = true <-> exists v : str, s = p ++ v.
Proof.
  revert s. induction p as [|a p IH]; intros s; simpl.
  - split; [by exists s|done].
  - destruct s as [|b s].
    + split; [done|]. by intros (v & Hv).
    + rewrite andb_true_iff, IH. unfold PyStr.eqb_char. rewrite Ascii.eqb_eq.
      split.
      * intros (-> & v & ->). by exists v.
      * intros (v & Hv). injection Hv as -> ->. split; [done|]. by exists v.
Qed.

Lemma contains_spec (sub s : str) :
  PyStr.contains sub s = true <-> substring sub s.
Proof.
  unfold substring. induction s as [|c s IH]; simpl.
  - rewrite orb_false_r, startswith_spec. split.
    + intros (v & Hv). by exists [], v.
    + intros (u & v & Hv). destruct u; [by exists v|done].
  - rewrite orb_true_iff, startswith_spec, IH. split.
    + intros [(v & Hv)|(u & v & ->)].
      * by exists [], v.
      * by exists (c :: u), v.
    + intros (u & v & Hv). destruct u as [|c' u].
      * left. by exists v.
      * injection Hv as -> ->. right. by exists u, v.
Qed.

Lemma contains_false (sub s : str) :
  PyStr.contains sub s = false <-> ~ substring sub s.
Proof.
  rewrite <- contains_spec. by destruct (PyStr.contains sub s).
Qed.

(** ** Resolving a reference *)

Lemma answers_spec (reference : str) (doc : Document) :
  answers reference doc <->
  exists tid : str,
    table_id (metadata doc) = Some tid /\
    truthy (Some tid) && PyStr.contains reference tid = true.
Proof.
  unfold answers. split; intros (tid & Hid & H); exists tid; (split; [done|]).
  - destruct H as [Hne H]. apply contains_spec in H. rewrite H.
    by destruct tid.
  - apply andb_true_iff in H as [H1 H2]. apply contains_spec in H2.
    split; [|done]. by destruct tid.
Qed.

(** X25. A reference is resolved by substring, to the first match: the
    answer is the first cached document whose table id is not empty and
    has the reference somewhere inside it (the id need not be equal to
    the reference), and there is no answer exactly when no document has
    such an id. *)
Theorem resolve_cross_reference_first_match (documents : list Document)
    (table_reference : str) :
  match resolve_cross_reference documents table_reference with
  | Some doc =>
      exists before after : list Document,
        documents = before ++ doc :: after /\
        answers table_reference doc /\
        Forall (fun d => ~ answers table_reference d) before
  | None => Forall (fun d => ~ answers table_reference d) documents
  end.
Proof.
  induction documents as [|doc documents IH]; [by constructor|].
  cbn [resolve_cross_reference].
  assert (Hskip :
    ~ answers table_reference doc ->
    match resolve_cross_reference documents table_reference with
    | Some doc0 =>
        exists before after : list Document,
          doc :: documents = before ++ doc0 :: after /\
          answers table_reference doc0 /\
          Forall (fun d => ~ answers table_reference d) before
    | None => Forall (fun d => ~ answers table_reference d) (doc :: documents)
    end).
  { intros Hno. destruct (resolve_cross_reference documents table_reference).
    - destruct IH as (before & after & -> & Hd & Hb).
      exists (doc :: before), after. repeat split; [done|]. by constructor.
    - by constructor. }
  destruct (table_id (metadata doc)) as [tid|] eqn:Hid.
  - destruct (truthy (Some tid) && PyStr.contains table_reference tid) eqn:Hm.
    + exists [], documents. repeat split; [|by constructor].
      apply answers_spec. by exists tid.
    + apply Hskip. intros Ha. apply answers_spec in Ha as (tid' & Hid' & Hm').
      rewrite Hid in Hid'. injection Hid' as <-. by rewrite Hm in Hm'.
  - apply Hskip. intros (tid & Hid' & _). by rewrite Hid in Hid'.
Qed.

(** ** The type of a file *)

Lemma first_key_in_found (filename_lower : str)
    (items : list (str * Loader.DocTypeInfo)) (i : nat) (key : str)
    (info : Loader.DocTypeInfo) :
  items !! i = Some (key, info) ->
  substring key filename_lower ->
  (forall (j : nat) (key' : str) (info' : Loader.DocTypeInfo),
     (j < i)%nat -> items !! j = Some (key', info') ->
     ~ substring key' filename_lower) ->
  Loader.first_key_in filename_lower items = Some info.
Proof.
  revert i. induction items as [|[k0 i0] items IH]; intros i Hi Hsub Hearlier; [done|].
  cbn [Loader.first_key_in]. destruct i as [|i].
  - injection Hi as -> ->. apply contains_spec in Hsub. by rewrite Hsub.
  - assert (H0 : PyStr.contains k0 filename_lower = false).
    { apply contains_false. apply (Hearlier 0%nat k0 i0); [lia|done]. }
    rewrite H0. apply (IH i); [done..|].
    intros j key' info' Hj Hl. apply (Hearlier (S j) key' info'); [lia|done].
Qed.

Lemma first_key_in_none (filename_lower : str)
    (items : list (str * Loader.DocTypeInfo)) :
  (forall (key : str) (info : Loader.DocTypeInfo),
     (key, info) ∈ items -> ~ substring key filename_lower) ->
  Loader.first_key_in filename_lower items = None.
Proof.
  induction items as [|[k0 i0] items IH]; intros H; [done|].
  cbn [Loader.first_key_in].
  assert (H0 : PyStr.contains k0 filename_lower = false).
  { apply contains_false. apply (H k0 i0). apply list_elem_of_here. }
  rewrite H0. apply IH. intros key info Hin. apply (H key info).
  by apply list_elem_of_further.
Qed.

(** X26. The type of a file is found in its lower-cased name, the first
    key of the mapping winning: when a key of [doc_type_mapping] occurs
    in the lower-cased file name and no earlier key does, the file gets
    the entry of that key, whatever the letter case of the name and
    whatever later keys occur in it. *)
Theorem identify_document_type_first_key (filename : str) (i : nat) (key : str)
    (info : Loader.DocTypeInfo) :
  Loader.doc_type_mapping !! i = Some (key, info) ->
  substring key (Loader.lower filename) ->
  (forall (j : nat) (key' : str) (info' : Loader.DocTypeInfo),
     (j < i)%nat -> Loader.doc_type_mapping !! j = Some (key', info') ->
     ~ substring key' (Loader.lower filename)) ->
  Loader._identify_document_type filename = info.
Proof.
  intros Hi Hsub Hearlier. unfold Loader._identify_document_type.
  by rewrite (first_key_in_found _ _ i key info).
Qed.

Lemma identify_document_type_first_key_witness :
  Loader.doc_type_mapping !! 0%nat
  = Some (lit "loan_handbook",
          Loader.mkDocTypeInfo (lit "loan_products")
            [lit "rates"; lit "terms"; lit "amortization"] (lit "high")) /\
  substring (lit "loan_handbook") (Loader.lower (lit "Policy_for_LOAN_Handbook.txt")) /\
  Loader._identify_document_type (lit "Policy_for_LOAN_Handbook.txt")
  = Loader.mkDocTypeInfo (lit "loan_products")
      [lit "rates"; lit "terms"; lit "amortization"] (lit "high").
Proof.
  assert (Hsub : substring (lit "loan_handbook")
                   (Loader.lower (lit "Policy_for_LOAN_Handbook.txt"))).
  { exists (lit "policy_for_"), (lit ".txt"). vm_compute. reflexivity. }
  split; [reflexivity|]. split; [exact Hsub|].
  apply (identify_document_type_first_key (lit "Policy_for_LOAN_Handbook.txt") 0%nat
           (lit "loan_handbook")); [reflexivity|exact Hsub|].
  intros j key' info' Hj. lia.
Defined.

(** X27. A file whose lower-cased name holds none of the keys of
    [doc_type_mapping] is of type general_banking, with the topic
    general and the priority low. *)
Theorem identify_document_type_default (filename : str) :
  (forall (key : str) (info : Loader.DocTypeInfo),
     (key, info) ∈ Loader.doc_type_mapping ->
     ~ substring key (Loader.lower filename)) ->
  Loader._identify_document_type filename
  = Loader.mkDocTypeInfo (lit "general_banking") [lit "general"] (lit "low").
Proof.
  intros H. unfold Loader._identify_document_type.
  by rewrite first_key_in_none.
Qed.

Lemma identify_document_type_default_witness :
  (forall (key : str) (info : Loader.DocTypeInfo),
     (key, info) ∈ Loader.doc_type_mapping ->
     ~ substring key (Loader.lower (lit "Branch_Notes.TXT"))) /\
  Loader._identify_document_type (lit "Branch_Notes.TXT")
  = Loader.mkDocTypeInfo (lit "general_banking") [lit "general"] (lit "low").
Proof.
  assert (H : forall (key : str) (info : Loader.DocTypeInfo),
            (key, info) ∈ Loader.doc_type_mapping ->
            ~ substring key (Loader.lower (lit "Branch_Notes.TXT"))).
  { intros key info Hin. apply contains_false.
    unfold Loader.doc_type_mapping in Hin.
    repeat (apply elem_of_cons in Hin as [Hin|Hin];
            [injection Hin as -> ->; vm_compute; reflexivity|]).
    by apply elem_of_nil in Hin. }
  split; [exact H|].
  apply (identify_document_type_default (lit "Branch_Notes.TXT") H).
Defined.

(** ** The summary of one file *)

Lemma occurrences_all (ty ty' : str) (documents : list Document) :
  (forall c : Document, c ∈ documents -> document_type_of c = ty) ->
  occurrences ty' (map document_type_of documents)
  = if bool_decide (ty = ty') then Z.of_nat (length documents) else 0.
Proof.
  induction documents as [|c documents IH]; intros H.
  - unfold occurrences. simpl. by destruct (bool_decide (ty = ty')).
  - cbn [map]. rewrite occurrences_cons, IH.
    + rewrite (H c) by apply list_elem_of_here.
      destruct (bool_decide (ty = ty')); cbn [length]; lia.
    + intros c' Hc'. apply H. by apply list_elem_of_further.
Qed.

Lemma list_to_set_constant (x : option str) (l : list (option str)) :
  l <> [] -> Forall (fun y => y = x) l ->
  (list_to_set l : gset (option str)) = {[x]}.
Proof.
  intros Hne Hall. induction Hall as [|y l -> Hall IH]; [done|].
  cbn [list_to_set]. destruct l as [|z l].
  - cbn [list_to_set]. by rewrite (right_id_L ∅ (∪)).
  - rewrite IH by done. by rewrite (idemp_L (∪)).
Qed.

(** X28. The summary of the chunks of one file: when loading a file
    gives at least one chunk, the summary of these chunks counts one
    file, and counts every chunk under the type that
    [_identify_document_type] gives for the file name, with no entry
    for any other type. *)
Theorem summary_of_one_file (table_splitter : TableAwareTextSplitter)
    (file_name file_path : str) (clock : nat -> str)
    (raw_documents chunks : list Document) :
  Loader._load_single_file table_splitter file_name file_path clock raw_documents
  = Some chunks ->
  chunks <> [] ->
  let summary := Loader.get_document_summary chunks in
  let ty := Loader.dt_type (Loader._identify_document_type file_name) in
  Loader.files_loaded summary = 1 /\
  Loader.document_types summary !! ty = Some (Z.of_nat (length chunks)) /\
  forall ty' : str, ty' <> ty -> Loader.document_types summary !! ty' = None.
Proof.
  intros Hload Hne summary ty.
  pose proof (load_single_file_spec table_splitter file_name file_path clock
                raw_documents) as Hs.
  cbv zeta in Hs. rewrite Hload in Hs. destruct Hs as (_ & _ & Hkeys).
  assert (Hty : forall c : Document, c ∈ chunks -> document_type_of c = ty).
  { intros c Hc. destruct (Hkeys c Hc) as (_ & _ & Hdt & _).
    unfold document_type_of. by rewrite Hdt. }
  split; [|split].
  - unfold summary, Loader.get_document_summary. rewrite summary_loop_counts.
    cbn [Loader.files_loaded].
    rewrite (list_to_set_constant (Some file_name)).
    + by rewrite size_singleton.
    + by destruct chunks.
    + apply Forall_forall. intros y Hy.
      apply list_elem_of_fmap in Hy as (c & -> & Hc).
      by destruct (Hkeys c Hc) as (Hsrc & _).
  - unfold summary. rewrite summary_document_types, (occurrences_all ty) by done.
    rewrite bool_decide_eq_true_2 by done. unfold counted.
    destruct chunks; [done|]. done.
  - intros ty' Hne'. unfold summary.
    rewrite summary_document_types, (occurrences_all ty) by done.
    by rewrite bool_decide_eq_false_2.
Qed.

Lemma summary_of_one_file_witness :
  exists chunks : list Document,
    Loader._load_single_file Examples.plain_splitter (lit "Rate_Sheet_2024.txt")
      (lit "docs/Rate_Sheet_2024.txt") (fun _ => lit "2024-01-01T00:00:00")
      [Examples.rates_document]
    = Some chunks /\
    chunks <> [] /\
    Loader.files_loaded (Loader.get_document_summary chunks) = 1 /\
    Loader.document_types (Loader.get_document_summary chunks) !! lit "current_rates"
    = Some (Z.of_nat (length chunks)).
Proof.
  destruct (Loader._load_single_file Examples.plain_splitter (lit "Rate_Sheet_2024.txt")
      (lit "docs/Rate_Sheet_2024.txt") (fun _ => lit "2024-01-01T00:00:00")
      [Examples.rates_document]) as [chunks|] eqn:He;
    [|vm_compute in He; discriminate He].
  assert (Hne : chunks <> []).
  { intros ->. vm_compute in He. discriminate He. }
  exists chunks. split; [reflexivity|]. split; [exact Hne|].
  destruct (summary_of_one_file _ _ _ _ _ _ He Hne) as (Hf & Hd & _).
  split; [exact Hf|exact Hd].
Defined.

(** ** Enhancing a question *)

Lemma lower_char_idempotent (c : ascii) :
  Loader.lower_char (Loader.lower_char c) = Loader.lower_char c.
Proof. destruct c as [[] [] [] [] [] [] [] []]; vm_compute; reflexivity. Qed.

(** A text with a letter that [lower] changes occurs in no lower-cased
    text. *)
Lemma not_in_lower (sub s : str) (x : ascii) :
  x ∈ sub -> Loader.lower_char x <> x -> ~ substring sub (Loader.lower s).
Proof.
  intros Hx Hup (u & v & Heq). apply Hup.
  assert (Hin : x ∈ Loader.lower s).
  { rewrite Heq. apply elem_of_app. right. apply elem_of_app. by left. }
  unfold Loader.lower in Hin. apply list_elem_of_fmap in Hin as (y & -> & _).
  apply lower_char_idempotent.
Qed.

(** X29. The note for APR is added again on every call: its text,
    "Annual Percentage Rate", has capital letters and is looked for in
    the lower-cased question, where it never occurs. So a question that
    mentions "apr" in any letter case, and for which the note for "rate"
    is not due (no "rate" in it, or the text of that note already in
    it), gets " (related to Annual Percentage Rate)" appended, also when
    the question already ends with it. *)
Theorem enhance_question_repeats_apr (question : str) :
  substring (lit "apr") (Loader.lower question) ->
  ~ substring (lit "rate") (Loader.lower question)
  \/ substring (lit "current interest rate") (Loader.lower question) ->
  _enhance_question question
  = question ++ lit " (related to Annual Percentage Rate)".
Proof.
  intros Hapr Hrate. unfold _enhance_question, banking_terms.
  cbn [enhance_question_loop].
  assert (H1 : PyStr.contains (lit "rate") (Loader.lower question)
               && negb (PyStr.contains (lit "current interest rate")
                          (Loader.lower question)) = false).
  { destruct Hrate as [H|H].
    - apply contains_false in H. by rewrite H.
    - apply contains_spec in H. rewrite H. apply andb_false_r. }
  rewrite H1. apply contains_spec in Hapr. rewrite Hapr.
  assert (H2 : PyStr.contains (lit "Annual Percentage Rate") (Loader.lower question)
               = false).
  { apply contains_false. apply (not_in_lower _ _ "A"%char).
    - apply list_elem_of_here.
    - by vm_compute. }
  rewrite H2. cbn [negb andb]. f_equal.
Qed.

Lemma enhance_question_repeats_apr_witness :
  substring (lit "apr")
    (Loader.lower (lit "What is the APR? (related to Annual Percentage Rate) (related to current interest rate)")) /\
  substring (lit "current interest rate")
    (Loader.lower (lit "What is the APR? (related to Annual Percentage Rate) (related to current interest rate)")) /\
  _enhance_question
    (lit "What is the APR? (related to Annual Percentage Rate) (related to current interest rate)")
  = lit "What is the APR? (related to Annual Percentage Rate) (related to current interest rate) (related to Annual Percentage Rate)".
Proof.
  assert (H1 : substring (lit "apr")
    (Loader.lower (lit "What is the APR? (related to Annual Percentage Rate) (related to current interest rate)"))).
  { exists (lit "what is the "),
      (lit "? (related to annual percentage rate) (related to current interest rate)").
    vm_compute. reflexivity. }
  assert (H2 : substring (lit "current interest rate")
    (Loader.lower (lit "What is the APR? (related to Annual Percentage Rate) (related to current interest rate)"))).
  { exists (lit "what is the apr? (related to annual percentage rate) (related to "),
      (lit ")").
    vm_compute. reflexivity. }
  split; [exact H1|]. split; [exact H2|].
  apply (enhance_question_repeats_apr _ H1 (or_intror H2)).
Defined.

(** X30. A question is never rewritten, and gets one note at most: the
    result is the question itself when every term of [banking_terms]
    that occurs in the lower-cased question has the text of its note
    there too; otherwise it is the question followed by
    " (related to ...)" with the note of the first term, in the order of
    the dict, that occurs without the text of its note. *)
Theorem enhance_question_one_note (question : str) :
  (_enhance_question question = question /\
   forall term context : str,
     (term, context) ∈ banking_terms ->
     substring term (Loader.lower question) ->
     substring context (Loader.lower question))
  \/
  exists (i : nat) (term context : str),
    banking_terms !! i = Some (term, context) /\
    substring term (Loader.lower question) /\
    ~ substring context (Loader.lower question) /\
    (forall (j : nat) (term' context' : str),
       (j < i)%nat -> banking_terms !! j = Some (term', context') ->
       substring term' (Loader.lower question) ->
       substring context' (Loader.lower question)) /\
    _enhance_question question
    = question ++ lit " (related to " ++ context ++ lit ")".
Proof.
  unfold _enhance_question. generalize (Loader.lower question) as enhanced.
  intros enhanced. induction banking_terms as [|[term context] items IH].
  - left. split; [done|]. intros term context Hin. by apply elem_of_nil in Hin.
  - cbn [enhance_question_loop].
    destruct (PyStr.contains term enhanced) eqn:Ht;
      [destruct (PyStr.contains context enhanced) eqn:Hc|]; cbn [negb andb].
    + destruct IH as [[Heq Hall]|(i & term' & context' & Hi & H1 & H2 & H3 & Heq)].
      * left. split; [done|]. intros term' context' Hin Hsub.
        apply elem_of_cons in Hin as [Hin|Hin]; [|by apply (Hall term')].
        injection Hin as -> ->. by apply contains_spec.
      * right. exists (S i), term', context'. repeat split; try done.
        intros [|j] term'' context'' Hj Hl Hsub.
        -- injection Hl as <- <-. by apply contains_spec.
        -- apply (H3 j term''); [lia|done..].
    + right. exists 0%nat, term, context. repeat split.
      * by apply contains_spec.
      * by apply contains_false.
      * intros j term' context' Hj. lia.
    + destruct IH as [[Heq Hall]|(i & term' & context' & Hi & H1 & H2 & H3 & Heq)].
      * left. split; [done|]. intros term' context' Hin Hsub.
        apply elem_of_cons in Hin as [Hin|Hin]; [|by apply (Hall term')].
        injection Hin as -> ->. apply contains_spec in Hsub. congruence.
      * right. exists (S i), term', context'. repeat split; try done.
        intros [|j] term'' context'' Hj Hl Hsub.
        -- injection Hl as <- <-. apply contains_spec in Hsub. congruence.
        -- apply (H3 j term''); [lia|done..].
Qed.

(** * The generic splitter and the size of the chunks *)

(** ** The generic splitter: merging *)











(** ** The generic splitter: the recursion over the separators *)













(** ** The size of the chunks *)

(** The object that [__init__] builds has the sizes it was given, and
    its base splitter is the splitting function of the library class
    for these sizes. *)
Lemma init_base_splitter (split_text : Z -> Z -> str -> list str)
    (cs co : Z) (ptc : bool) (self : TableAwareTextSplitter) :
  __init__ (RecursiveCharacterTextSplitter split_text) cs co ptc = Some self ->
  chunk_size self = cs /\ chunk_overlap self = co /\
  base_splitter self = split_text cs co.
Proof.
  unfold __init__, RecursiveCharacterTextSplitter.
  destruct (co >? cs); [done|]. intros H. by injection H as <-.
Qed.


